(** * Penalty coupling stiffness of base-flange panel connections

    A shallow embedding of [compmech/panel/connections/kCLTxycte.pyx]:
    the three procedures [fkCBFxcte11], [fkCBFxycte12] and [fkCBFycte22]
    fill three parallel arrays (row indices, column indices, values) and
    hand them to [coo_matrix].

    - C [int]s are modelled on [Z].  Signed overflow is undefined in C, so
      the model covers the runs in which no intermediate leaves the [int]
      range.
    - C [double]s are modelled through the interface [Arith].  The instance
      [binary64] is IEEE 754 double precision (the primitive floats), the
      arithmetic of the compiled module; the instance [exactQ] is exact
      rational arithmetic, in which the formulas are derived.
    - [integral_ff], [calc_f] and [calc_fxi] come from [bardell.h] and
      [bardell_functions.h], which are not among the sources: they are the
      interface [Bardell], and every theorem holds for any implementation.
    - The arrays are lists updated by index.  With [boundscheck=False] a
      store past the end is undefined in the source; the list update
      leaves the list unchanged there, and [emits_zeros] shows that no
      store of the three procedures falls past the end.
    - [np.zeros] and [coo_matrix] are modelled on the arguments they accept
      (a length that is not negative, indices inside the shape); NumPy and
      SciPy raise otherwise. *)

From Stdlib Require Import ZArith QArith Floats Lia.
From stdpp Require Import base list.

Local Open Scope Z_scope.

(** ** Arithmetic on [double] *)

Class Arith (D : Type) := {
  dadd : D -> D -> D;
  dsub : D -> D -> D;
  dmul : D -> D -> D;
  ddiv : D -> D -> D;
  dneg : D -> D;
  c0 : D;        (* 0.0, the fill value of np.zeros *)
  c1 : D;        (* 1.   *)
  c2 : D;        (* 2    *)
  c4 : D;        (* 4    *)
  c0_5 : D;      (* 0.5  *)
  c0_25 : D;     (* 0.25 *)
  is_zero : D -> bool
}.

Declare Scope dbl_scope.
Delimit Scope dbl_scope with D.
Infix "+" := dadd : dbl_scope.
Infix "-" := dsub : dbl_scope.
Infix "*" := dmul : dbl_scope.
Infix "/" := ddiv : dbl_scope.
Notation "- x" := (dneg x) : dbl_scope.

(** IEEE 754 binary64, round to nearest even: the arithmetic of the compiled
    module ([cdivision=True]: a division by zero gives an infinity or a NaN,
    it does not raise). *)
#[export] Instance binary64 : Arith float := {
  dadd := PrimFloat.add;
  dsub := PrimFloat.sub;
  dmul := PrimFloat.mul;
  ddiv := PrimFloat.div;
  dneg := PrimFloat.opp;
  c0 := 0%float;
  c1 := 1%float;
  c2 := 2%float;
  c4 := 4%float;
  c0_5 := 0.5%float;
  c0_25 := 0.25%float;
  is_zero := fun x => PrimFloat.eqb x 0%float
}.

(** Exact rational arithmetic, the idealisation in which the formulas of the
    connection are derived. *)
#[export] Instance exactQ : Arith Q := {
  dadd := Qplus;
  dsub := Qminus;
  dmul := Qmult;
  ddiv := Qdiv;
  dneg := Qopp;
  c0 := 0%Q;
  c1 := 1%Q;
  c2 := 2%Q;
  c4 := 4%Q;
  c0_5 := (1 # 2)%Q;
  c0_25 := (1 # 4)%Q;
  is_zero := fun x => Qeq_bool x 0%Q
}.

(** Laws of an exact arithmetic that the rounding arithmetic does not have. *)
Class ExactMul (D : Type) `{Arith D} : Prop := {
  dmul_comm : forall x y : D, (x * y)%D = (y * x)%D;
  dmul_assoc : forall x y z : D, (x * (y * z))%D = (x * y * z)%D
}.

Class NoZeroDivisor (D : Type) `{Arith D} : Prop := {
  dmul_zero : forall x y : D,
    is_zero (x * y)%D = true -> is_zero x = true \/ is_zero y = true
}.

(** ** The basis library [bardell.h], [bardell_functions.h] *)

Class Bardell (D : Type) := {
  integral_ff : Z -> Z -> D -> D -> D -> D -> D -> D -> D -> D -> D;
  calc_f : Z -> D -> D -> D -> D -> D -> D;
  calc_fxi : Z -> D -> D -> D -> D -> D -> D
}.

(** ** The panel object *)

Module Panel.
Record t (D : Type) := mk {
  a : D; b : D; m : Z; n : Z;
  u1tx : D; u1rx : D; u2tx : D; u2rx : D;
  v1tx : D; v1rx : D; v2tx : D; v2rx : D;
  w1tx : D; w1rx : D; w2tx : D; w2rx : D;
  u1ty : D; u1ry : D; u2ty : D; u2ry : D;
  v1ty : D; v1ry : D; v2ty : D; v2ry : D;
  w1ty : D; w1ry : D; w2ty : D; w2ry : D
}.
Arguments mk {D}.
Arguments a {D}. Arguments b {D}. Arguments m {D}. Arguments n {D}.
Arguments u1tx {D}. Arguments u1rx {D}. Arguments u2tx {D}. Arguments u2rx {D}.
Arguments v1tx {D}. Arguments v1rx {D}. Arguments v2tx {D}. Arguments v2rx {D}.
Arguments w1tx {D}. Arguments w1rx {D}. Arguments w2tx {D}. Arguments w2rx {D}.
Arguments u1ty {D}. Arguments u1ry {D}. Arguments u2ty {D}. Arguments u2ry {D}.
Arguments v1ty {D}. Arguments v1ry {D}. Arguments v2ty {D}. Arguments v2ry {D}.
Arguments w1ty {D}. Arguments w1ry {D}. Arguments w2ty {D}. Arguments w2ry {D}.
End Panel.

(** ** Output buffers and the coordinate-format result *)

(** [cdef int num = 3] *)
Definition num : Z := 3.

(** [range(n)] for a C [int] bound: empty when [n <= 0]. *)
Definition range (n : Z) : list Z := seqZ 0 n.

Section Assembly.
Context {D : Type} {AD : Arith D} {BD : Bardell D}.

(** The write cursor [c] and the three arrays. *)
Record buf := mk_buf {
  buf_c : Z;
  buf_r : list Z;
  buf_cl : list Z;
  buf_v : list D
}.

(** [c = -1] and three [np.zeros((fdim,))]. *)
Definition zeros (fdim : Z) : buf :=
  {| buf_c := -1;
     buf_r := replicate (Z.to_nat fdim) 0;
     buf_cl := replicate (Z.to_nat fdim) 0;
     buf_v := replicate (Z.to_nat fdim) c0 |}.

(** [c += 1; r[c] = row; cl[c] = col; v[c] += x] *)
Definition emit (st : buf) (row col : Z) (x : D) : buf :=
  let c := buf_c st + 1 in
  {| buf_c := c;
     buf_r := <[Z.to_nat c := row]> (buf_r st);
     buf_cl := <[Z.to_nat c := col]> (buf_cl st);
     buf_v := alter (fun y => (y + x)%D) (Z.to_nat c) (buf_v st) |}.

(** What [coo_matrix((v, (r, c)), shape=(size, size))] holds: the three
    arrays as they are (no duplicate is summed, no zero is dropped). *)
Record coo := mk_coo {
  coo_row : list Z;
  coo_col : list Z;
  coo_data : list D;
  coo_shape : Z * Z
}.

Definition coo_matrix (st : buf) (size : Z) : coo :=
  {| coo_row := buf_r st; coo_col := buf_cl st; coo_data := buf_v st;
     coo_shape := (size, size) |}.

(** ** [fkCBFxcte11] *)
Definition fkCBFxcte11 (kt kr : D) (p1 : Panel.t D) (xcte1 : D)
    (size row0 col0 : Z) : coo :=
  let a1 := Panel.a p1 in
  let b1 := Panel.b p1 in
  let m1 := Panel.m p1 in
  let n1 := Panel.n p1 in
  let u1tx1 := Panel.u1tx p1 in let u1rx1 := Panel.u1rx p1 in
  let u2tx1 := Panel.u2tx p1 in let u2rx1 := Panel.u2rx p1 in
  let v1tx1 := Panel.v1tx p1 in let v1rx1 := Panel.v1rx p1 in
  let v2tx1 := Panel.v2tx p1 in let v2rx1 := Panel.v2rx p1 in
  let w1tx1 := Panel.w1tx p1 in let w1rx1 := Panel.w1rx p1 in
  let w2tx1 := Panel.w2tx p1 in let w2rx1 := Panel.w2rx p1 in
  let u1ty1 := Panel.u1ty p1 in let u1ry1 := Panel.u1ry p1 in
  let u2ty1 := Panel.u2ty p1 in let u2ry1 := Panel.u2ry p1 in
  let v1ty1 := Panel.v1ty p1 in let v1ry1 := Panel.v1ry p1 in
  let v2ty1 := Panel.v2ty p1 in let v2ry1 := Panel.v2ry p1 in
  let w1ty1 := Panel.w1ty p1 in let w1ry1 := Panel.w1ry p1 in
  let w2ty1 := Panel.w2ty p1 in let w2ry1 := Panel.w2ry p1 in
  let xicte1 := (c2 * xcte1 / a1 - c1)%D in
  let fdim := 3 * m1 * n1 * m1 * n1 in
  let st :=
    foldl (fun st j1 =>
    foldl (fun st l1 =>
      let g1Aug1Bu := integral_ff j1 l1 u1ty1 u1ry1 u2ty1 u2ry1 u1ty1 u1ry1 u2ty1 u2ry1 in
      let g1Avg1Bv := integral_ff j1 l1 v1ty1 v1ry1 v2ty1 v2ry1 v1ty1 v1ry1 v2ty1 v2ry1 in
      let g1Awg1Bw := integral_ff j1 l1 w1ty1 w1ry1 w2ty1 w2ry1 w1ty1 w1ry1 w2ty1 w2ry1 in
      foldl (fun st i1 =>
        let f1Au := calc_f i1 xicte1 u1tx1 u1rx1 u2tx1 u2rx1 in
        let f1Av := calc_f i1 xicte1 v1tx1 v1rx1 v2tx1 v2rx1 in
        let f1Aw := calc_f i1 xicte1 w1tx1 w1rx1 w2tx1 w2rx1 in
        let f1Awxi := calc_fxi i1 xicte1 w1tx1 w1rx1 w2tx1 w2rx1 in
        foldl (fun st k1 =>
          let row := row0 + num * (j1 * m1 + i1) in
          let col := col0 + num * (l1 * m1 + k1) in
          if row >? col then st else
          let f1Bu := calc_f k1 xicte1 u1tx1 u1rx1 u2tx1 u2rx1 in
          let f1Bv := calc_f k1 xicte1 v1tx1 v1rx1 v2tx1 v2rx1 in
          let f1Bw := calc_f k1 xicte1 w1tx1 w1rx1 w2tx1 w2rx1 in
          let f1Bwxi := calc_fxi k1 xicte1 w1tx1 w1rx1 w2tx1 w2rx1 in
          let st := emit st (row + 0) (col + 0)
            (c0_5 * b1 * f1Au * f1Bu * g1Aug1Bu * kt)%D in
          let st := emit st (row + 1) (col + 1)
            (c0_5 * b1 * f1Av * f1Bv * g1Avg1Bv * kt)%D in
          emit st (row + 2) (col + 2)
            (c0_5 * b1 * kt * (f1Aw * f1Bw * g1Awg1Bw
               + c4 * f1Awxi * f1Bwxi * g1Awg1Bw * kr / ((a1 * a1) * kt)))%D)
        st (range m1))
      st (range m1))
    st (range n1))
    (zeros fdim) (range n1)
  in
  coo_matrix st size.

(** ** [fkCBFxycte12] *)
Definition fkCBFxycte12 (kt kr : D) (p1 p2 : Panel.t D) (xcte1 ycte2 : D)
    (size row0 col0 : Z) : coo :=
  let a1 := Panel.a p1 in
  let a2 := Panel.a p2 in
  let b1 := Panel.b p1 in
  let b2 := Panel.b p2 in
  let m1 := Panel.m p1 in
  let n1 := Panel.n p1 in
  let m2 := Panel.m p2 in
  let n2 := Panel.n p2 in
  let u1tx1 := Panel.u1tx p1 in let u1rx1 := Panel.u1rx p1 in
  let u2tx1 := Panel.u2tx p1 in let u2rx1 := Panel.u2rx p1 in
  let v1tx1 := Panel.v1tx p1 in let v1rx1 := Panel.v1rx p1 in
  let v2tx1 := Panel.v2tx p1 in let v2rx1 := Panel.v2rx p1 in
  let w1tx1 := Panel.w1tx p1 in let w1rx1 := Panel.w1rx p1 in
  let w2tx1 := Panel.w2tx p1 in let w2rx1 := Panel.w2rx p1 in
  let u1ty1 := Panel.u1ty p1 in let u1ry1 := Panel.u1ry p1 in
  let u2ty1 := Panel.u2ty p1 in let u2ry1 := Panel.u2ry p1 in
  let v1ty1 := Panel.v1ty p1 in let v1ry1 := Panel.v1ry p1 in
  let v2ty1 := Panel.v2ty p1 in let v2ry1 := Panel.v2ry p1 in
  let w1ty1 := Panel.w1ty p1 in let w1ry1 := Panel.w1ry p1 in
  let w2ty1 := Panel.w2ty p1 in let w2ry1 := Panel.w2ry p1 in
  let u1tx2 := Panel.u1tx p2 in let u1rx2 := Panel.u1rx p2 in
  let u2tx2 := Panel.u2tx p2 in let u2rx2 := Panel.u2rx p2 in
  let v1tx2 := Panel.v1tx p2 in let v1rx2 := Panel.v1rx p2 in
  let v2tx2 := Panel.v2tx p2 in let v2rx2 := Panel.v2rx p2 in
  let w1tx2 := Panel.w1tx p2 in let w1rx2 := Panel.w1rx p2 in
  let w2tx2 := Panel.w2tx p2 in let w2rx2 := Panel.w2rx p2 in
  let u1ty2 := Panel.u1ty p2 in let u1ry2 := Panel.u1ry p2 in
  let u2ty2 := Panel.u2ty p2 in let u2ry2 := Panel.u2ry p2 in
  let v1ty2 := Panel.v1ty p2 in let v1ry2 := Panel.v1ry p2 in
  let v2ty2 := Panel.v2ty p2 in let v2ry2 := Panel.v2ry p2 in
  let w1ty2 := Panel.w1ty p2 in let w1ry2 := Panel.w1ry p2 in
  let w2ty2 := Panel.w2ty p2 in let w2ry2 := Panel.w2ry p2 in
  let xicte1 := (c2 * xcte1 / a1 - c1)%D in
  let etacte2 := (c2 * ycte2 / b2 - c1)%D in
  let fdim := 4 * m1 * n1 * m2 * n2 in
  let st :=
    foldl (fun st j1 =>
    foldl (fun st k2 =>
      let g1Auf2Bw := integral_ff j1 k2 u1ty1 u1ry1 u2ty1 u2ry1 w1tx2 w1rx2 w2tx2 w2rx2 in
      let g1Avf2Bu := integral_ff j1 k2 v1ty1 v1ry1 v2ty1 v2ry1 u1tx2 u1rx2 u2tx2 u2rx2 in
      let g1Awf2Bv := integral_ff j1 k2 w1ty1 w1ry1 w2ty1 w2ry1 v1tx2 v1rx2 v2tx2 v2rx2 in
      let g1Awf2Bw := integral_ff j1 k2 w1ty1 w1ry1 w2ty1 w2ry1 w1tx2 w1rx2 w2tx2 w2rx2 in
      foldl (fun st i1 =>
        let f1Au := calc_f i1 xicte1 u1tx1 u1rx1 u2tx1 u2rx1 in
        let f1Av := calc_f i1 xicte1 v1tx1 v1rx1 v2tx1 v2rx1 in
        let f1Aw := calc_f i1 xicte1 w1tx1 w1rx1 w2tx1 w2rx1 in
        let f1Awxi := calc_fxi i1 xicte1 w1tx1 w1rx1 w2tx1 w2rx1 in
        foldl (fun st l2 =>
          let row := row0 + num * (j1 * m1 + i1) in
          let col := col0 + num * (l2 * m2 + k2) in
          let g2Bu := calc_f l2 etacte2 u1ty2 u1ry2 u2ty2 u2ry2 in
          let g2Bv := calc_f l2 etacte2 v1ty2 v1ry2 v2ty2 v2ry2 in
          let g2Bw := calc_f l2 etacte2 w1ty2 w1ry2 w2ty2 w2ry2 in
          let g2Bwxi := calc_fxi l2 etacte2 w1ty2 w1ry2 w2ty2 w2ry2 in
          let st := emit st (row + 0) (col + 0)
            (- c0_25 * b1 * a2 * g1Auf2Bw * f1Au * g2Bw * kt)%D in
          let st := emit st (row + 1) (col + 2)
            (- c0_25 * b1 * a2 * g1Avf2Bu * f1Av * g2Bu * kt)%D in
          let st := emit st (row + 2) (col + 1)
            (c0_25 * b1 * a2 * g1Awf2Bv * f1Aw * g2Bv * kt)%D in
          emit st (row + 2) (col + 2)
            (- c1 * b1 * a2 * g1Awf2Bw * f1Awxi * g2Bwxi * kr / (a1 * b2))%D)
        st (range n2))
      st (range m1))
    st (range m2))
    (zeros fdim) (range n1)
  in
  coo_matrix st size.

(** ** [fkCBFycte22]; [p1] is a parameter of the source as well. *)
Definition fkCBFycte22 (kt kr : D) (p1 p2 : Panel.t D) (ycte2 : D)
    (size row0 col0 : Z) : coo :=
  let a2 := Panel.a p2 in
  let b2 := Panel.b p2 in
  let m2 := Panel.m p2 in
  let n2 := Panel.n p2 in
  let u1tx2 := Panel.u1tx p2 in let u1rx2 := Panel.u1rx p2 in
  let u2tx2 := Panel.u2tx p2 in let u2rx2 := Panel.u2rx p2 in
  let v1tx2 := Panel.v1tx p2 in let v1rx2 := Panel.v1rx p2 in
  let v2tx2 := Panel.v2tx p2 in let v2rx2 := Panel.v2rx p2 in
  let w1tx2 := Panel.w1tx p2 in let w1rx2 := Panel.w1rx p2 in
  let w2tx2 := Panel.w2tx p2 in let w2rx2 := Panel.w2rx p2 in
  let u1ty2 := Panel.u1ty p2 in let u1ry2 := Panel.u1ry p2 in
  let u2ty2 := Panel.u2ty p2 in let u2ry2 := Panel.u2ry p2 in
  let v1ty2 := Panel.v1ty p2 in let v1ry2 := Panel.v1ry p2 in
  let v2ty2 := Panel.v2ty p2 in let v2ry2 := Panel.v2ry p2 in
  let w1ty2 := Panel.w1ty p2 in let w1ry2 := Panel.w1ry p2 in
  let w2ty2 := Panel.w2ty p2 in let w2ry2 := Panel.w2ry p2 in
  let etacte2 := (c2 * ycte2 / b2 - c1)%D in
  let fdim := 3 * m2 * n2 * m2 * n2 in
  let st :=
    foldl (fun st i2 =>
    foldl (fun st k2 =>
      let f2Auf2Bu := integral_ff i2 k2 u1tx2 u1rx2 u2tx2 u2rx2 u1tx2 u1rx2 u2tx2 u2rx2 in
      let f2Avf2Bv := integral_ff i2 k2 v1tx2 v1rx2 v2tx2 v2rx2 v1tx2 v1rx2 v2tx2 v2rx2 in
      let f2Awf2Bw := integral_ff i2 k2 w1tx2 w1rx2 w2tx2 w2rx2 w1tx2 w1rx2 w2tx2 w2rx2 in
      foldl (fun st j2 =>
        let g2Au := calc_f j2 etacte2 u1ty2 u1ry2 u2ty2 u2ry2 in
        let g2Av := calc_f j2 etacte2 v1ty2 v1ry2 v2ty2 v2ry2 in
        let g2Aw := calc_f j2 etacte2 w1ty2 w1ry2 w2ty2 w2ry2 in
        let g2Awxi := calc_fxi j2 etacte2 w1ty2 w1ry2 w2ty2 w2ry2 in
        foldl (fun st l2 =>
          let row := row0 + num * (j2 * m2 + i2) in
          let col := col0 + num * (l2 * m2 + k2) in
          if row >? col then st else
          let g2Bu := calc_f l2 etacte2 u1ty2 u1ry2 u2ty2 u2ry2 in
          let g2Bv := calc_f l2 etacte2 v1ty2 v1ry2 v2ty2 v2ry2 in
          let g2Bw := calc_f l2 etacte2 w1ty2 w1ry2 w2ty2 w2ry2 in
          let g2Bwxi := calc_fxi l2 etacte2 w1ty2 w1ry2 w2ty2 w2ry2 in
          let st := emit st (row + 0) (col + 0)
            (c0_5 * a2 * f2Auf2Bu * g2Au * g2Bu * kt)%D in
          let st := emit st (row + 1) (col + 1)
            (c0_5 * a2 * f2Avf2Bv * g2Av * g2Bv * kt)%D in
          emit st (row + 2) (col + 2)
            (c0_5 * a2 * kt * (f2Awf2Bw * g2Aw * g2Bw
               + c4 * f2Awf2Bw * g2Awxi * g2Bwxi * kr / ((b2 * b2) * kt)))%D)
        st (range n2))
      st (range n2))
    st (range m2))
    (zeros fdim) (range m2)
  in
  coo_matrix st size.

(** ** Sequences of writes *)

(** An entry is a (row, column, value) triple. *)
Definition entry : Type := Z * Z * D.

Definition emits (st : buf) (es : list entry) : buf :=
  foldl (fun st e => emit st e.1.1 e.1.2 e.2) st es.

(** The arrays after the entries [es] went into [N] zero-filled slots. *)
Definition written (es : list entry) (N : nat) : buf :=
  {| buf_c := Z.of_nat (length es) - 1;
     buf_r := ((fun e : entry => e.1.1) <$> es) ++ replicate (N - length es) 0;
     buf_cl := ((fun e : entry => e.1.2) <$> es) ++ replicate (N - length es) 0;
     buf_v := ((fun e : entry => (c0 + e.2)%D) <$> es)
                ++ replicate (N - length es) c0 |}.

End Assembly.

(** ** The single-edge procedures with guarded divisions

    The same two procedures, every division going through [gdiv]: the
    call fails ([None]) at the first division whose denominator is zero.
    The compiled module does not fail there, it stores an infinity or a
    NaN. *)

Section Guarded.
Context {D : Type} {AD : Arith D} {BD : Bardell D}.

Definition gdiv (x y : D) : option D :=
  if is_zero y then None else Some (x / y)%D.

Definition fkCBFxcte11_guarded (kt kr : D) (p1 : Panel.t D) (xcte1 : D)
    (size row0 col0 : Z) : option coo :=
  let a1 := Panel.a p1 in
  let b1 := Panel.b p1 in
  let m1 := Panel.m p1 in
  let n1 := Panel.n p1 in
  let u1tx1 := Panel.u1tx p1 in let u1rx1 := Panel.u1rx p1 in
  let u2tx1 := Panel.u2tx p1 in let u2rx1 := Panel.u2rx p1 in
  let v1tx1 := Panel.v1tx p1 in let v1rx1 := Panel.v1rx p1 in
  let v2tx1 := Panel.v2tx p1 in let v2rx1 := Panel.v2rx p1 in
  let w1tx1 := Panel.w1tx p1 in let w1rx1 := Panel.w1rx p1 in
  let w2tx1 := Panel.w2tx p1 in let w2rx1 := Panel.w2rx p1 in
  let u1ty1 := Panel.u1ty p1 in let u1ry1 := Panel.u1ry p1 in
  let u2ty1 := Panel.u2ty p1 in let u2ry1 := Panel.u2ry p1 in
  let v1ty1 := Panel.v1ty p1 in let v1ry1 := Panel.v1ry p1 in
  let v2ty1 := Panel.v2ty p1 in let v2ry1 := Panel.v2ry p1 in
  let w1ty1 := Panel.w1ty p1 in let w1ry1 := Panel.w1ry p1 in
  let w2ty1 := Panel.w2ty p1 in let w2ry1 := Panel.w2ry p1 in
  quot ← gdiv (c2 * xcte1)%D a1;
  let xicte1 := (quot - c1)%D in
  let fdim := 3 * m1 * n1 * m1 * n1 in
  st ←
    foldl (fun ost j1 =>
    foldl (fun ost l1 =>
      let g1Aug1Bu := integral_ff j1 l1 u1ty1 u1ry1 u2ty1 u2ry1 u1ty1 u1ry1 u2ty1 u2ry1 in
      let g1Avg1Bv := integral_ff j1 l1 v1ty1 v1ry1 v2ty1 v2ry1 v1ty1 v1ry1 v2ty1 v2ry1 in
      let g1Awg1Bw := integral_ff j1 l1 w1ty1 w1ry1 w2ty1 w2ry1 w1ty1 w1ry1 w2ty1 w2ry1 in
      foldl (fun ost i1 =>
        let f1Au := calc_f i1 xicte1 u1tx1 u1rx1 u2tx1 u2rx1 in
        let f1Av := calc_f i1 xicte1 v1tx1 v1rx1 v2tx1 v2rx1 in
        let f1Aw := calc_f i1 xicte1 w1tx1 w1rx1 w2tx1 w2rx1 in
        let f1Awxi := calc_fxi i1 xicte1 w1tx1 w1rx1 w2tx1 w2rx1 in
        foldl (fun ost k1 =>
          st ← ost;
          let row := row0 + num * (j1 * m1 + i1) in
          let col := col0 + num * (l1 * m1 + k1) in
          if row >? col then Some st else
          let f1Bu := calc_f k1 xicte1 u1tx1 u1rx1 u2tx1 u2rx1 in
          let f1Bv := calc_f k1 xicte1 v1tx1 v1rx1 v2tx1 v2rx1 in
          let f1Bw := calc_f k1 xicte1 w1tx1 w1rx1 w2tx1 w2rx1 in
          let f1Bwxi := calc_fxi k1 xicte1 w1tx1 w1rx1 w2tx1 w2rx1 in
          let st := emit st (row + 0) (col + 0)
            (c0_5 * b1 * f1Au * f1Bu * g1Aug1Bu * kt)%D in
          let st := emit st (row + 1) (col + 1)
            (c0_5 * b1 * f1Av * f1Bv * g1Avg1Bv * kt)%D in
          rot ← gdiv (c4 * f1Awxi * f1Bwxi * g1Awg1Bw * kr)%D ((a1 * a1) * kt)%D;
          Some (emit st (row + 2) (col + 2)
            (c0_5 * b1 * kt * (f1Aw * f1Bw * g1Awg1Bw + rot))%D))
        ost (range m1))
      ost (range m1))
    ost (range n1))
    (Some (zeros fdim)) (range n1);
  Some (coo_matrix st size).

Definition fkCBFycte22_guarded (kt kr : D) (p1 p2 : Panel.t D) (ycte2 : D)
    (size row0 col0 : Z) : option coo :=
  let a2 := Panel.a p2 in
  let b2 := Panel.b p2 in
  let m2 := Panel.m p2 in
  let n2 := Panel.n p2 in
  let u1tx2 := Panel.u1tx p2 in let u1rx2 := Panel.u1rx p2 in
  let u2tx2 := Panel.u2tx p2 in let u2rx2 := Panel.u2rx p2 in
  let v1tx2 := Panel.v1tx p2 in let v1rx2 := Panel.v1rx p2 in
  let v2tx2 := Panel.v2tx p2 in let v2rx2 := Panel.v2rx p2 in
  let w1tx2 := Panel.w1tx p2 in let w1rx2 := Panel.w1rx p2 in
  let w2tx2 := Panel.w2tx p2 in let w2rx2 := Panel.w2rx p2 in
  let u1ty2 := Panel.u1ty p2 in let u1ry2 := Panel.u1ry p2 in
  let u2ty2 := Panel.u2ty p2 in let u2ry2 := Panel.u2ry p2 in
  let v1ty2 := Panel.v1ty p2 in let v1ry2 := Panel.v1ry p2 in
  let v2ty2 := Panel.v2ty p2 in let v2ry2 := Panel.v2ry p2 in
  let w1ty2 := Panel.w1ty p2 in let w1ry2 := Panel.w1ry p2 in
  let w2ty2 := Panel.w2ty p2 in let w2ry2 := Panel.w2ry p2 in
  quot ← gdiv (c2 * ycte2)%D b2;
  let etacte2 := (quot - c1)%D in
  let fdim := 3 * m2 * n2 * m2 * n2 in
  st ←
    foldl (fun ost i2 =>
    foldl (fun ost k2 =>
      let f2Auf2Bu := integral_ff i2 k2 u1tx2 u1rx2 u2tx2 u2rx2 u1tx2 u1rx2 u2tx2 u2rx2 in
      let f2Avf2Bv := integral_ff i2 k2 v1tx2 v1rx2 v2tx2 v2rx2 v1tx2 v1rx2 v2tx2 v2rx2 in
      let f2Awf2Bw := integral_ff i2 k2 w1tx2 w1rx2 w2tx2 w2rx2 w1tx2 w1rx2 w2tx2 w2rx2 in
      foldl (fun ost j2 =>
        let g2Au := calc_f j2 etacte2 u1ty2 u1ry2 u2ty2 u2ry2 in
        let g2Av := calc_f j2 etacte2 v1ty2 v1ry2 v2ty2 v2ry2 in
        let g2Aw := calc_f j2 etacte2 w1ty2 w1ry2 w2ty2 w2ry2 in
        let g2Awxi := calc_fxi j2 etacte2 w1ty2 w1ry2 w2ty2 w2ry2 in
        foldl (fun ost l2 =>
          st ← ost;
          let row := row0 + num * (j2 * m2 + i2) in
          let col := col0 + num * (l2 * m2 + k2) in
          if row >? col then Some st else
          let g2Bu := calc_f l2 etacte2 u1ty2 u1ry2 u2ty2 u2ry2 in
          let g2Bv := calc_f l2 etacte2 v1ty2 v1ry2 v2ty2 v2ry2 in
          let g2Bw := calc_f l2 etacte2 w1ty2 w1ry2 w2ty2 w2ry2 in
          let g2Bwxi := calc_fxi l2 etacte2 w1ty2 w1ry2 w2ty2 w2ry2 in
          let st := emit st (row + 0) (col + 0)
            (c0_5 * a2 * f2Auf2Bu * g2Au * g2Bu * kt)%D in
          let st := emit st (row + 1) (col + 1)
            (c0_5 * a2 * f2Avf2Bv * g2Av * g2Bv * kt)%D in
          rot ← gdiv (c4 * f2Awf2Bw * g2Awxi * g2Bwxi * kr)%D ((b2 * b2) * kt)%D;
          Some (emit st (row + 2) (col + 2)
            (c0_5 * a2 * kt * (f2Awf2Bw * g2Aw * g2Bw + rot))%D))
        ost (range n2))
      ost (range n2))
    ost (range m2))
    (Some (zeros fdim)) (range m2);
  Some (coo_matrix st size).

End Guarded.

(** ** The y-axis dual of [fkCBFxcte11], as the specification words it

    Section 4.3 of the specification derives the third procedure from the
    first: the same algorithm with the two axes of the panel exchanged
    and the row/column packing kept. *)

Section Dual.
Context {D : Type} {AD : Arith D} {BD : Bardell D}.

(** The panel with the roles of its two axes exchanged: a and b, m and n,
    the x-direction and the y-direction boundary coefficients. *)
Definition exchanged (p : Panel.t D) : Panel.t D :=
  {| Panel.a := Panel.b p; Panel.b := Panel.a p;
     Panel.m := Panel.n p; Panel.n := Panel.m p;
     Panel.u1tx := Panel.u1ty p; Panel.u1rx := Panel.u1ry p;
     Panel.u2tx := Panel.u2ty p; Panel.u2rx := Panel.u2ry p;
     Panel.v1tx := Panel.v1ty p; Panel.v1rx := Panel.v1ry p;
     Panel.v2tx := Panel.v2ty p; Panel.v2rx := Panel.v2ry p;
     Panel.w1tx := Panel.w1ty p; Panel.w1rx := Panel.w1ry p;
     Panel.w2tx := Panel.w2ty p; Panel.w2rx := Panel.w2ry p;
     Panel.u1ty := Panel.u1tx p; Panel.u1ry := Panel.u1rx p;
     Panel.u2ty := Panel.u2tx p; Panel.u2ry := Panel.u2rx p;
     Panel.v1ty := Panel.v1tx p; Panel.v1ry := Panel.v1rx p;
     Panel.v2ty := Panel.v2tx p; Panel.v2ry := Panel.v2rx p;
     Panel.w1ty := Panel.w1tx p; Panel.w1ry := Panel.w1rx p;
     Panel.w2ty := Panel.w2tx p; Panel.w2ry := Panel.w2rx p |}.

(** [fkCBFxcte11] with the packing of a basis term (i, j) into a block
    number left open; [fkCBFxcte11] itself packs with [j*m1 + i]. *)
Definition fkCBFxcte11_packed (pack : Z -> Z -> Z) (kt kr : D)
    (p1 : Panel.t D) (xcte1 : D) (size row0 col0 : Z) : coo :=
  let a1 := Panel.a p1 in
  let b1 := Panel.b p1 in
  let m1 := Panel.m p1 in
  let n1 := Panel.n p1 in
  let u1tx1 := Panel.u1tx p1 in let u1rx1 := Panel.u1rx p1 in
  let u2tx1 := Panel.u2tx p1 in let u2rx1 := Panel.u2rx p1 in
  let v1tx1 := Panel.v1tx p1 in let v1rx1 := Panel.v1rx p1 in
  let v2tx1 := Panel.v2tx p1 in let v2rx1 := Panel.v2rx p1 in
  let w1tx1 := Panel.w1tx p1 in let w1rx1 := Panel.w1rx p1 in
  let w2tx1 := Panel.w2tx p1 in let w2rx1 := Panel.w2rx p1 in
  let u1ty1 := Panel.u1ty p1 in let u1ry1 := Panel.u1ry p1 in
  let u2ty1 := Panel.u2ty p1 in let u2ry1 := Panel.u2ry p1 in
  let v1ty1 := Panel.v1ty p1 in let v1ry1 := Panel.v1ry p1 in
  let v2ty1 := Panel.v2ty p1 in let v2ry1 := Panel.v2ry p1 in
  let w1ty1 := Panel.w1ty p1 in let w1ry1 := Panel.w1ry p1 in
  let w2ty1 := Panel.w2ty p1 in let w2ry1 := Panel.w2ry p1 in
  let xicte1 := (c2 * xcte1 / a1 - c1)%D in
  let fdim := 3 * m1 * n1 * m1 * n1 in
  let st :=
    foldl (fun st j1 =>
    foldl (fun st l1 =>
      let g1Aug1Bu := integral_ff j1 l1 u1ty1 u1ry1 u2ty1 u2ry1 u1ty1 u1ry1 u2ty1 u2ry1 in
      let g1Avg1Bv := integral_ff j1 l1 v1ty1 v1ry1 v2ty1 v2ry1 v1ty1 v1ry1 v2ty1 v2ry1 in
      let g1Awg1Bw := integral_ff j1 l1 w1ty1 w1ry1 w2ty1 w2ry1 w1ty1 w1ry1 w2ty1 w2ry1 in
      foldl (fun st i1 =>
        let f1Au := calc_f i1 xicte1 u1tx1 u1rx1 u2tx1 u2rx1 in
        let f1Av := calc_f i1 xicte1 v1tx1 v1rx1 v2tx1 v2rx1 in
        let f1Aw := calc_f i1 xicte1 w1tx1 w1rx1 w2tx1 w2rx1 in
        let f1Awxi := calc_fxi i1 xicte1 w1tx1 w1rx1 w2tx1 w2rx1 in
        foldl (fun st k1 =>
          let row := row0 + num * pack i1 j1 in
          let col := col0 + num * pack k1 l1 in
          if row >? col then st else
          let f1Bu := calc_f k1 xicte1 u1tx1 u1rx1 u2tx1 u2rx1 in
          let f1Bv := calc_f k1 xicte1 v1tx1 v1rx1 v2tx1 v2rx1 in
          let f1Bw := calc_f k1 xicte1 w1tx1 w1rx1 w2tx1 w2rx1 in
          let f1Bwxi := calc_fxi k1 xicte1 w1tx1 w1rx1 w2tx1 w2rx1 in
          let st := emit st (row + 0) (col + 0)
            (c0_5 * b1 * f1Au * f1Bu * g1Aug1Bu * kt)%D in
          let st := emit st (row + 1) (col + 1)
            (c0_5 * b1 * f1Av * f1Bv * g1Avg1Bv * kt)%D in
          emit st (row + 2) (col + 2)
            (c0_5 * b1 * kt * (f1Aw * f1Bw * g1Awg1Bw
               + c4 * f1Awxi * f1Bwxi * g1Awg1Bw * kr / ((a1 * a1) * kt)))%D)
        st (range m1))
      st (range m1))
    st (range n1))
    (zeros fdim) (range n1)
  in
  coo_matrix st size.

(** The dual: [fkCBFxcte11] on panel 2 with its axes exchanged, at [ycte2].
    The x index of the exchanged panel is the y index [j2] of panel 2, its
    y index is the x index [i2]; the packing stays [j2*m2 + i2]. *)
Definition fkCBFycte22_as_dual (kt kr : D) (p2 : Panel.t D) (ycte2 : D)
    (size row0 col0 : Z) : coo :=
  fkCBFxcte11_packed (fun j2 i2 => j2 * Panel.m p2 + i2)
    kt kr (exchanged p2) ycte2 size row0 col0.

End Dual.

(** ** The emitted entries, combination by combination *)

Section Entries.
Context {D : Type} {AD : Arith D} {BD : Bardell D}.

(** The normalised coordinate [2*x/a - 1.] *)
Definition normalised (x a : D) : D := (c2 * x / a - c1)%D.

(** Basis values of the three fields along x and along y, and the
    along-edge integrals, with the boundary coefficients of a panel. *)
Definition fu (p : Panel.t D) (xi : D) (i : Z) : D :=
  calc_f i xi (Panel.u1tx p) (Panel.u1rx p) (Panel.u2tx p) (Panel.u2rx p).
Definition fv (p : Panel.t D) (xi : D) (i : Z) : D :=
  calc_f i xi (Panel.v1tx p) (Panel.v1rx p) (Panel.v2tx p) (Panel.v2rx p).
Definition fw (p : Panel.t D) (xi : D) (i : Z) : D :=
  calc_f i xi (Panel.w1tx p) (Panel.w1rx p) (Panel.w2tx p) (Panel.w2rx p).
Definition fwxi (p : Panel.t D) (xi : D) (i : Z) : D :=
  calc_fxi i xi (Panel.w1tx p) (Panel.w1rx p) (Panel.w2tx p) (Panel.w2rx p).
Definition gu (p : Panel.t D) (eta : D) (j : Z) : D :=
  calc_f j eta (Panel.u1ty p) (Panel.u1ry p) (Panel.u2ty p) (Panel.u2ry p).
Definition gv (p : Panel.t D) (eta : D) (j : Z) : D :=
  calc_f j eta (Panel.v1ty p) (Panel.v1ry p) (Panel.v2ty p) (Panel.v2ry p).
Definition gw (p : Panel.t D) (eta : D) (j : Z) : D :=
  calc_f j eta (Panel.w1ty p) (Panel.w1ry p) (Panel.w2ty p) (Panel.w2ry p).
Definition gweta (p : Panel.t D) (eta : D) (j : Z) : D :=
  calc_fxi j eta (Panel.w1ty p) (Panel.w1ry p) (Panel.w2ty p) (Panel.w2ry p).

Definition gg_u (p : Panel.t D) (j l : Z) : D :=
  integral_ff j l (Panel.u1ty p) (Panel.u1ry p) (Panel.u2ty p) (Panel.u2ry p)
                  (Panel.u1ty p) (Panel.u1ry p) (Panel.u2ty p) (Panel.u2ry p).
Definition gg_v (p : Panel.t D) (j l : Z) : D :=
  integral_ff j l (Panel.v1ty p) (Panel.v1ry p) (Panel.v2ty p) (Panel.v2ry p)
                  (Panel.v1ty p) (Panel.v1ry p) (Panel.v2ty p) (Panel.v2ry p).
Definition gg_w (p : Panel.t D) (j l : Z) : D :=
  integral_ff j l (Panel.w1ty p) (Panel.w1ry p) (Panel.w2ty p) (Panel.w2ry p)
                  (Panel.w1ty p) (Panel.w1ry p) (Panel.w2ty p) (Panel.w2ry p).
Definition ff_u (p : Panel.t D) (i k : Z) : D :=
  integral_ff i k (Panel.u1tx p) (Panel.u1rx p) (Panel.u2tx p) (Panel.u2rx p)
                  (Panel.u1tx p) (Panel.u1rx p) (Panel.u2tx p) (Panel.u2rx p).
Definition ff_v (p : Panel.t D) (i k : Z) : D :=
  integral_ff i k (Panel.v1tx p) (Panel.v1rx p) (Panel.v2tx p) (Panel.v2rx p)
                  (Panel.v1tx p) (Panel.v1rx p) (Panel.v2tx p) (Panel.v2rx p).
Definition ff_w (p : Panel.t D) (i k : Z) : D :=
  integral_ff i k (Panel.w1tx p) (Panel.w1rx p) (Panel.w2tx p) (Panel.w2rx p)
                  (Panel.w1tx p) (Panel.w1rx p) (Panel.w2tx p) (Panel.w2rx p).

(** Panel 1 along y against panel 2 along x, for the four field pairs. *)
Definition gf_uw (p1 p2 : Panel.t D) (j k : Z) : D :=
  integral_ff j k (Panel.u1ty p1) (Panel.u1ry p1) (Panel.u2ty p1) (Panel.u2ry p1)
                  (Panel.w1tx p2) (Panel.w1rx p2) (Panel.w2tx p2) (Panel.w2rx p2).
Definition gf_vu (p1 p2 : Panel.t D) (j k : Z) : D :=
  integral_ff j k (Panel.v1ty p1) (Panel.v1ry p1) (Panel.v2ty p1) (Panel.v2ry p1)
                  (Panel.u1tx p2) (Panel.u1rx p2) (Panel.u2tx p2) (Panel.u2rx p2).
Definition gf_wv (p1 p2 : Panel.t D) (j k : Z) : D :=
  integral_ff j k (Panel.w1ty p1) (Panel.w1ry p1) (Panel.w2ty p1) (Panel.w2ry p1)
                  (Panel.v1tx p2) (Panel.v1rx p2) (Panel.v2tx p2) (Panel.v2rx p2).
Definition gf_ww (p1 p2 : Panel.t D) (j k : Z) : D :=
  integral_ff j k (Panel.w1ty p1) (Panel.w1ry p1) (Panel.w2ty p1) (Panel.w2ry p1)
                  (Panel.w1tx p2) (Panel.w1rx p2) (Panel.w2tx p2) (Panel.w2rx p2).

(** Symmetry of the along-edge integral of one field. *)
Definition integral_symmetric : Prop :=
  forall (i j : Z) (x1t x1r x2t x2r : D),
    integral_ff i j x1t x1r x2t x2r x1t x1r x2t x2r
      = integral_ff j i x1t x1r x2t x2r x1t x1r x2t x2r.

(** A combination is (i, j, k, l): x and y index of the row's basis term,
    x and y index of the column's basis term. *)
Definition combo : Type := Z * Z * Z * Z.

(** The block base of a basis term: [off + num*(j*m + i)]. *)
Definition base (off m i j : Z) : Z := off + num * (j * m + i).

(** *** [fkCBFxcte11]: loops j1, l1, i1, k1; [row > col] is skipped. *)
Definition combos11 (m1 n1 row0 col0 : Z) : list combo :=
  range n1 ≫= fun j1 => range n1 ≫= fun l1 =>
  range m1 ≫= fun i1 => range m1 ≫= fun k1 =>
    if base row0 m1 i1 j1 >? base col0 m1 k1 l1 then []
    else [(i1, j1, k1, l1)].

Definition val11_u (kt : D) (p1 : Panel.t D) (xi : D) (q : combo) : D :=
  let '(i1, j1, k1, l1) := q in
  (c0_5 * Panel.b p1 * fu p1 xi i1 * fu p1 xi k1 * gg_u p1 j1 l1 * kt)%D.
Definition val11_v (kt : D) (p1 : Panel.t D) (xi : D) (q : combo) : D :=
  let '(i1, j1, k1, l1) := q in
  (c0_5 * Panel.b p1 * fv p1 xi i1 * fv p1 xi k1 * gg_v p1 j1 l1 * kt)%D.
Definition val11_w (kt kr : D) (p1 : Panel.t D) (xi : D) (q : combo) : D :=
  let '(i1, j1, k1, l1) := q in
  (c0_5 * Panel.b p1 * kt * (fw p1 xi i1 * fw p1 xi k1 * gg_w p1 j1 l1
     + c4 * fwxi p1 xi i1 * fwxi p1 xi k1 * gg_w p1 j1 l1 * kr
         / ((Panel.a p1 * Panel.a p1) * kt)))%D.

Definition triple11 (kt kr : D) (p1 : Panel.t D) (xcte1 : D) (row0 col0 : Z)
    (q : combo) : list entry :=
  let '(i1, j1, k1, l1) := q in
  let xi := normalised xcte1 (Panel.a p1) in
  let row := base row0 (Panel.m p1) i1 j1 in
  let col := base col0 (Panel.m p1) k1 l1 in
  [ (row + 0, col + 0, val11_u kt p1 xi q);
    (row + 1, col + 1, val11_v kt p1 xi q);
    (row + 2, col + 2, val11_w kt kr p1 xi q) ].

Definition entries11 (kt kr : D) (p1 : Panel.t D) (xcte1 : D) (row0 col0 : Z)
    : list entry :=
  combos11 (Panel.m p1) (Panel.n p1) row0 col0
    ≫= triple11 kt kr p1 xcte1 row0 col0.

(** *** [fkCBFxycte12]: loops j1, k2, i1, l2; nothing is skipped. *)
Definition combos12 (m1 n1 m2 n2 : Z) : list combo :=
  range n1 ≫= fun j1 => range m2 ≫= fun k2 =>
  range m1 ≫= fun i1 => range n2 ≫= fun l2 => [(i1, j1, k2, l2)].

Definition val12_uw (kt : D) (p1 p2 : Panel.t D) (xi eta : D) (q : combo) : D :=
  let '(i1, j1, k2, l2) := q in
  (- c0_25 * Panel.b p1 * Panel.a p2
     * gf_uw p1 p2 j1 k2 * fu p1 xi i1 * gw p2 eta l2 * kt)%D.
Definition val12_vu (kt : D) (p1 p2 : Panel.t D) (xi eta : D) (q : combo) : D :=
  let '(i1, j1, k2, l2) := q in
  (- c0_25 * Panel.b p1 * Panel.a p2
     * gf_vu p1 p2 j1 k2 * fv p1 xi i1 * gu p2 eta l2 * kt)%D.
Definition val12_wv (kt : D) (p1 p2 : Panel.t D) (xi eta : D) (q : combo) : D :=
  let '(i1, j1, k2, l2) := q in
  (c0_25 * Panel.b p1 * Panel.a p2
     * gf_wv p1 p2 j1 k2 * fw p1 xi i1 * gv p2 eta l2 * kt)%D.
Definition val12_ww (kr : D) (p1 p2 : Panel.t D) (xi eta : D) (q : combo) : D :=
  let '(i1, j1, k2, l2) := q in
  (- c1 * Panel.b p1 * Panel.a p2
     * gf_ww p1 p2 j1 k2 * fwxi p1 xi i1 * gweta p2 eta l2 * kr
     / (Panel.a p1 * Panel.b p2))%D.

Definition quad12 (kt kr : D) (p1 p2 : Panel.t D) (xcte1 ycte2 : D)
    (row0 col0 : Z) (q : combo) : list entry :=
  let '(i1, j1, k2, l2) := q in
  let xi := normalised xcte1 (Panel.a p1) in
  let eta := normalised ycte2 (Panel.b p2) in
  let row := base row0 (Panel.m p1) i1 j1 in
  let col := base col0 (Panel.m p2) k2 l2 in
  [ (row + 0, col + 0, val12_uw kt p1 p2 xi eta q);
    (row + 1, col + 2, val12_vu kt p1 p2 xi eta q);
    (row + 2, col + 1, val12_wv kt p1 p2 xi eta q);
    (row + 2, col + 2, val12_ww kr p1 p2 xi eta q) ].

Definition entries12 (kt kr : D) (p1 p2 : Panel.t D) (xcte1 ycte2 : D)
    (row0 col0 : Z) : list entry :=
  combos12 (Panel.m p1) (Panel.n p1) (Panel.m p2) (Panel.n p2)
    ≫= quad12 kt kr p1 p2 xcte1 ycte2 row0 col0.

(** *** [fkCBFycte22]: loops i2, k2, j2, l2; [row > col] is skipped. *)
Definition combos22 (m2 n2 row0 col0 : Z) : list combo :=
  range m2 ≫= fun i2 => range m2 ≫= fun k2 =>
  range n2 ≫= fun j2 => range n2 ≫= fun l2 =>
    if base row0 m2 i2 j2 >? base col0 m2 k2 l2 then []
    else [(i2, j2, k2, l2)].

Definition val22_u (kt : D) (p2 : Panel.t D) (eta : D) (q : combo) : D :=
  let '(i2, j2, k2, l2) := q in
  (c0_5 * Panel.a p2 * ff_u p2 i2 k2 * gu p2 eta j2 * gu p2 eta l2 * kt)%D.
Definition val22_v (kt : D) (p2 : Panel.t D) (eta : D) (q : combo) : D :=
  let '(i2, j2, k2, l2) := q in
  (c0_5 * Panel.a p2 * ff_v p2 i2 k2 * gv p2 eta j2 * gv p2 eta l2 * kt)%D.
Definition val22_w (kt kr : D) (p2 : Panel.t D) (eta : D) (q : combo) : D :=
  let '(i2, j2, k2, l2) := q in
  (c0_5 * Panel.a p2 * kt * (ff_w p2 i2 k2 * gw p2 eta j2 * gw p2 eta l2
     + c4 * ff_w p2 i2 k2 * gweta p2 eta j2 * gweta p2 eta l2 * kr
         / ((Panel.b p2 * Panel.b p2) * kt)))%D.

Definition triple22 (kt kr : D) (p2 : Panel.t D) (ycte2 : D) (row0 col0 : Z)
    (q : combo) : list entry :=
  let '(i2, j2, k2, l2) := q in
  let eta := normalised ycte2 (Panel.b p2) in
  let row := base row0 (Panel.m p2) i2 j2 in
  let col := base col0 (Panel.m p2) k2 l2 in
  [ (row + 0, col + 0, val22_u kt p2 eta q);
    (row + 1, col + 1, val22_v kt p2 eta q);
    (row + 2, col + 2, val22_w kt kr p2 eta q) ].

Definition entries22 (kt kr : D) (p2 : Panel.t D) (ycte2 : D) (row0 col0 : Z)
    : list entry :=
  combos22 (Panel.m p2) (Panel.n p2) row0 col0
    ≫= triple22 kt kr p2 ycte2 row0 col0.

(** *** The dual of section 4.3: the positions of [fkCBFycte22], the
    factors of each product in the order [fkCBFxcte11] multiplies them. *)
Definition dual22_u (kt : D) (p2 : Panel.t D) (eta : D) (q : combo) : D :=
  let '(i2, j2, k2, l2) := q in
  (c0_5 * Panel.a p2 * gu p2 eta j2 * gu p2 eta l2 * ff_u p2 i2 k2 * kt)%D.
Definition dual22_v (kt : D) (p2 : Panel.t D) (eta : D) (q : combo) : D :=
  let '(i2, j2, k2, l2) := q in
  (c0_5 * Panel.a p2 * gv p2 eta j2 * gv p2 eta l2 * ff_v p2 i2 k2 * kt)%D.
Definition dual22_w (kt kr : D) (p2 : Panel.t D) (eta : D) (q : combo) : D :=
  let '(i2, j2, k2, l2) := q in
  (c0_5 * Panel.a p2 * kt * (gw p2 eta j2 * gw p2 eta l2 * ff_w p2 i2 k2
     + c4 * gweta p2 eta j2 * gweta p2 eta l2 * ff_w p2 i2 k2 * kr
         / ((Panel.b p2 * Panel.b p2) * kt)))%D.

Definition triple22_dual (kt kr : D) (p2 : Panel.t D) (ycte2 : D)
    (row0 col0 : Z) (q : combo) : list entry :=
  let '(i2, j2, k2, l2) := q in
  let eta := normalised ycte2 (Panel.b p2) in
  let row := base row0 (Panel.m p2) i2 j2 in
  let col := base col0 (Panel.m p2) k2 l2 in
  [ (row + 0, col + 0, dual22_u kt p2 eta q);
    (row + 1, col + 1, dual22_v kt p2 eta q);
    (row + 2, col + 2, dual22_w kt kr p2 eta q) ].

Definition entries22_dual (kt kr : D) (p2 : Panel.t D) (ycte2 : D)
    (row0 col0 : Z) : list entry :=
  combos22 (Panel.m p2) (Panel.n p2) row0 col0
    ≫= triple22_dual kt kr p2 ycte2 row0 col0.

(** *** The guarded runs, combination by combination: the two
    translational writes, the guarded division of the rotational term, the
    w-w write. *)
Definition gemit11 (kt kr : D) (p1 : Panel.t D) (xi : D) (row0 col0 : Z)
    (st : buf) (q : combo) : option buf :=
  let '(i1, j1, k1, l1) := q in
  let row := base row0 (Panel.m p1) i1 j1 in
  let col := base col0 (Panel.m p1) k1 l1 in
  let st := emit st (row + 0) (col + 0) (val11_u kt p1 xi q) in
  let st := emit st (row + 1) (col + 1) (val11_v kt p1 xi q) in
  rot ← gdiv (c4 * fwxi p1 xi i1 * fwxi p1 xi k1 * gg_w p1 j1 l1 * kr)%D
             ((Panel.a p1 * Panel.a p1) * kt)%D;
  Some (emit st (row + 2) (col + 2)
          (c0_5 * Panel.b p1 * kt
             * (fw p1 xi i1 * fw p1 xi k1 * gg_w p1 j1 l1 + rot))%D).

Definition gemit22 (kt kr : D) (p2 : Panel.t D) (eta : D) (row0 col0 : Z)
    (st : buf) (q : combo) : option buf :=
  let '(i2, j2, k2, l2) := q in
  let row := base row0 (Panel.m p2) i2 j2 in
  let col := base col0 (Panel.m p2) k2 l2 in
  let st := emit st (row + 0) (col + 0) (val22_u kt p2 eta q) in
  let st := emit st (row + 1) (col + 1) (val22_v kt p2 eta q) in
  rot ← gdiv (c4 * ff_w p2 i2 k2 * gweta p2 eta j2 * gweta p2 eta l2 * kr)%D
             ((Panel.b p2 * Panel.b p2) * kt)%D;
  Some (emit st (row + 2) (col + 2)
          (c0_5 * Panel.a p2 * kt
             * (ff_w p2 i2 k2 * gw p2 eta j2 * gw p2 eta l2 + rot))%D).

(** A loop over combinations that stops at the first failure. *)
Definition gfold {S B : Type} (t : S -> B -> option S) (ost : option S)
    (qs : list B) : option S :=
  foldl (fun o q => s ← o; t s q) ost qs.

(** The three allocations. *)
Definition fdim11 (p1 : Panel.t D) : Z :=
  3 * Panel.m p1 * Panel.n p1 * Panel.m p1 * Panel.n p1.
Definition fdim12 (p1 p2 : Panel.t D) : Z :=
  4 * Panel.m p1 * Panel.n p1 * Panel.m p2 * Panel.n p2.

End Entries.

(** ** A basis to run the model with

    To evaluate the procedures on concrete inputs the interface [Bardell]
    is filled with scaled
    monomials: [f_i(xi) = (1 + x1t) * xi^(i+1)], its derivative
    [(1 + x1t) * (i+1) * xi^i], and [(1 + x1t)*(1 + y1t)/(i + j + 3)] for
    the integral. *)

Section Samples.
Context {D : Type} {AD : Arith D}.

Fixpoint dnat (k : nat) : D :=
  match k with
  | O => c0
  | S k' => (dnat k' + c1)%D
  end.

Fixpoint dpow (x : D) (k : nat) : D :=
  match k with
  | O => c1
  | S k' => (x * dpow x k')%D
  end.

Definition monomials : Bardell D :=
  {| integral_ff := fun i j x1t x1r x2t x2r y1t y1r y2t y2r =>
       ((c1 + x1t) * (c1 + y1t) / dnat (Z.to_nat (i + j + 3)))%D;
     calc_f := fun i xi x1t x1r x2t x2r =>
       ((c1 + x1t) * dpow xi (Z.to_nat (i + 1)))%D;
     calc_fxi := fun i xi x1t x1r x2t x2r =>
       ((c1 + x1t) * (dnat (Z.to_nat (i + 1)) * dpow xi (Z.to_nat i)))%D |}.

(** A panel of extents [a], [b] and orders [m], [n]; the boundary
    coefficients of u are 0, those of v are 1, those of w are 2. *)
Definition sample_panel (a b : D) (m n : Z) : Panel.t D :=
  Panel.mk a b m n
    c0 c0 c0 c0  c1 c1 c1 c1  c2 c2 c2 c2
    c0 c0 c0 c0  c1 c1 c1 c1  c2 c2 c2 c2.

End Samples.

(** ** The cross-coupling procedure with guarded divisions

    [fkCBFxycte12] divides by [a1] and by [b2] when it normalises the two
    coordinates, and by [a1*b2] in the rotational term of every
    combination.  As for the single-edge procedures, the guarded run is
    [None] from the first division whose denominator is zero, where the
    compiled module stores an infinity or a NaN. *)

Section Guarded12.
Context {D : Type} {AD : Arith D} {BD : Bardell D}.

Definition fkCBFxycte12_guarded (kt kr : D) (p1 p2 : Panel.t D)
    (xcte1 ycte2 : D) (size row0 col0 : Z) : option coo :=
  let a1 := Panel.a p1 in
  let a2 := Panel.a p2 in
  let b1 := Panel.b p1 in
  let b2 := Panel.b p2 in
  let m1 := Panel.m p1 in
  let n1 := Panel.n p1 in
  let m2 := Panel.m p2 in
  let n2 := Panel.n p2 in
  let u1tx1 := Panel.u1tx p1 in let u1rx1 := Panel.u1rx p1 in
  let u2tx1 := Panel.u2tx p1 in let u2rx1 := Panel.u2rx p1 in
  let v1tx1 := Panel.v1tx p1 in let v1rx1 := Panel.v1rx p1 in
  let v2tx1 := Panel.v2tx p1 in let v2rx1 := Panel.v2rx p1 in
  let w1tx1 := Panel.w1tx p1 in let w1rx1 := Panel.w1rx p1 in
  let w2tx1 := Panel.w2tx p1 in let w2rx1 := Panel.w2rx p1 in
  let u1ty1 := Panel.u1ty p1 in let u1ry1 := Panel.u1ry p1 in
  let u2ty1 := Panel.u2ty p1 in let u2ry1 := Panel.u2ry p1 in
  let v1ty1 := Panel.v1ty p1 in let v1ry1 := Panel.v1ry p1 in
  let v2ty1 := Panel.v2ty p1 in let v2ry1 := Panel.v2ry p1 in
  let w1ty1 := Panel.w1ty p1 in let w1ry1 := Panel.w1ry p1 in
  let w2ty1 := Panel.w2ty p1 in let w2ry1 := Panel.w2ry p1 in
  let u1tx2 := Panel.u1tx p2 in let u1rx2 := Panel.u1rx p2 in
  let u2tx2 := Panel.u2tx p2 in let u2rx2 := Panel.u2rx p2 in
  let v1tx2 := Panel.v1tx p2 in let v1rx2 := Panel.v1rx p2 in
  let v2tx2 := Panel.v2tx p2 in let v2rx2 := Panel.v2rx p2 in
  let w1tx2 := Panel.w1tx p2 in let w1rx2 := Panel.w1rx p2 in
  let w2tx2 := Panel.w2tx p2 in let w2rx2 := Panel.w2rx p2 in
  let u1ty2 := Panel.u1ty p2 in let u1ry2 := Panel.u1ry p2 in
  let u2ty2 := Panel.u2ty p2 in let u2ry2 := Panel.u2ry p2 in
  let v1ty2 := Panel.v1ty p2 in let v1ry2 := Panel.v1ry p2 in
  let v2ty2 := Panel.v2ty p2 in let v2ry2 := Panel.v2ry p2 in
  let w1ty2 := Panel.w1ty p2 in let w1ry2 := Panel.w1ry p2 in
  let w2ty2 := Panel.w2ty p2 in let w2ry2 := Panel.w2ry p2 in
  quotx ← gdiv (c2 * xcte1)%D a1;
  let xicte1 := (quotx - c1)%D in
  quoty ← gdiv (c2 * ycte2)%D b2;
  let etacte2 := (quoty - c1)%D in
  let fdim := 4 * m1 * n1 * m2 * n2 in
  st ←
    foldl (fun ost j1 =>
    foldl (fun ost k2 =>
      let g1Auf2Bw := integral_ff j1 k2 u1ty1 u1ry1 u2ty1 u2ry1 w1tx2 w1rx2 w2tx2 w2rx2 in
      let g1Avf2Bu := integral_ff j1 k2 v1ty1 v1ry1 v2ty1 v2ry1 u1tx2 u1rx2 u2tx2 u2rx2 in
      let g1Awf2Bv := integral_ff j1 k2 w1ty1 w1ry1 w2ty1 w2ry1 v1tx2 v1rx2 v2tx2 v2rx2 in
      let g1Awf2Bw := integral_ff j1 k2 w1ty1 w1ry1 w2ty1 w2ry1 w1tx2 w1rx2 w2tx2 w2rx2 in
      foldl (fun ost i1 =>
        let f1Au := calc_f i1 xicte1 u1tx1 u1rx1 u2tx1 u2rx1 in
        let f1Av := calc_f i1 xicte1 v1tx1 v1rx1 v2tx1 v2rx1 in
        let f1Aw := calc_f i1 xicte1 w1tx1 w1rx1 w2tx1 w2rx1 in
        let f1Awxi := calc_fxi i1 xicte1 w1tx1 w1rx1 w2tx1 w2rx1 in
        foldl (fun ost l2 =>
          st ← ost;
          let row := row0 + num * (j1 * m1 + i1) in
          let col := col0 + num * (l2 * m2 + k2) in
          let g2Bu := calc_f l2 etacte2 u1ty2 u1ry2 u2ty2 u2ry2 in
          let g2Bv := calc_f l2 etacte2 v1ty2 v1ry2 v2ty2 v2ry2 in
          let g2Bw := calc_f l2 etacte2 w1ty2 w1ry2 w2ty2 w2ry2 in
          let g2Bwxi := calc_fxi l2 etacte2 w1ty2 w1ry2 w2ty2 w2ry2 in
          let st := emit st (row + 0) (col + 0)
            (- c0_25 * b1 * a2 * g1Auf2Bw * f1Au * g2Bw * kt)%D in
          let st := emit st (row + 1) (col + 2)
            (- c0_25 * b1 * a2 * g1Avf2Bu * f1Av * g2Bu * kt)%D in
          let st := emit st (row + 2) (col + 1)
            (c0_25 * b1 * a2 * g1Awf2Bv * f1Aw * g2Bv * kt)%D in
          rot ← gdiv (- c1 * b1 * a2 * g1Awf2Bw * f1Awxi * g2Bwxi * kr)%D
                     (a1 * b2)%D;
          Some (emit st (row + 2) (col + 2) rot))
        ost (range n2))
      ost (range m1))
    ost (range m2))
    (Some (zeros fdim)) (range n1);
  Some (coo_matrix st size).

(** One combination of the guarded run. *)
Definition gemit12 (kt kr : D) (p1 p2 : Panel.t D) (xi eta : D)
    (row0 col0 : Z) (st : buf) (q : combo) : option buf :=
  let '(i1, j1, k2, l2) := q in
  let row := base row0 (Panel.m p1) i1 j1 in
  let col := base col0 (Panel.m p2) k2 l2 in
  let st := emit st (row + 0) (col + 0) (val12_uw kt p1 p2 xi eta q) in
  let st := emit st (row + 1) (col + 2) (val12_vu kt p1 p2 xi eta q) in
  let st := emit st (row + 2) (col + 1) (val12_wv kt p1 p2 xi eta q) in
  rot ← gdiv (- c1 * Panel.b p1 * Panel.a p2 * gf_ww p1 p2 j1 k2
                * fwxi p1 xi i1 * gweta p2 eta l2 * kr)%D
             (Panel.a p1 * Panel.b p2)%D;
  Some (emit st (row + 2) (col + 2) rot).

(** The (row, column) position of an entry. *)
Definition position (e : @entry D) : Z * Z := (e.1.1, e.1.2).

(** The positions a combination writes, whatever the values. *)
Definition places11 (m row0 col0 : Z) (q : combo) : list (Z * Z) :=
  let '(i, j, k, l) := q in
  let row := base row0 m i j in
  let col := base col0 m k l in
  [ (row + 0, col + 0); (row + 1, col + 1); (row + 2, col + 2) ].

Definition places12 (m1 m2 row0 col0 : Z) (q : combo) : list (Z * Z) :=
  let '(i1, j1, k2, l2) := q in
  let row := base row0 m1 i1 j1 in
  let col := base col0 m2 k2 l2 in
  [ (row + 0, col + 0); (row + 1, col + 2); (row + 2, col + 1);
    (row + 2, col + 2) ].

(** An entry moved by [tr] rows and [tc] columns. *)
Definition shift (tr tc : Z) (e : @entry D) : @entry D :=
  (e.1.1 + tr, e.1.2 + tc, e.2).

End Guarded12.

(** * Lemmas

    ** Sequential writes into the zero-filled arrays *)

Section Writes.
Context {D : Type} {AD : Arith D}.

Lemma emits_app st es1 es2 : emits st (es1 ++ es2) = emits (emits st es1) es2.
Proof. apply foldl_app. Qed.

Lemma foldl_emits_bind {A B : Type} (t : B -> list entry) (f : A -> list B)
    (g : buf -> A -> buf) :
  (forall st x, g st x = emits st (f x ≫= t)) ->
  forall xs st, foldl g st xs = emits st ((xs ≫= f) ≫= t).
Proof.
  intros Hg xs. induction xs as [|x xs IH]; intros st; [reflexivity|].
  cbn [foldl]. rewrite IH, Hg, bind_cons, bind_app, emits_app. reflexivity.
Qed.

Lemma zeros_written fdim : zeros fdim = written [] (Z.to_nat fdim).
Proof.
  unfold zeros, written. cbn. rewrite Nat.sub_0_r. reflexivity.
Qed.

Lemma emit_written es N row col x :
  (length es < N)%nat ->
  emit (written es N) row col x = written (es ++ [(row, col, x)]) N.
Proof.
  intros Hlt. unfold emit, written. cbn [buf_c buf_r buf_cl buf_v].
  rewrite length_app. cbn [length].
  replace (Z.to_nat (Z.of_nat (length es) - 1 + 1)) with (length es) by lia.
  replace (N - length es)%nat with (S (N - (length es + 1))) by lia.
  rewrite !fmap_app. cbn [fmap list_fmap replicate].
  f_equal.
  - lia.
  - rewrite insert_app_r_alt by (rewrite length_fmap; lia).
    rewrite length_fmap, Nat.sub_diag. cbn. rewrite <- app_assoc. reflexivity.
  - rewrite insert_app_r_alt by (rewrite length_fmap; lia).
    rewrite length_fmap, Nat.sub_diag. cbn. rewrite <- app_assoc. reflexivity.
  - rewrite alter_app_r_alt by (rewrite length_fmap; lia).
    rewrite length_fmap, Nat.sub_diag. cbn. rewrite <- app_assoc. reflexivity.
Qed.

Lemma emits_written es2 : forall es1 N,
  (length es1 + length es2 <= N)%nat ->
  emits (written es1 N) es2 = written (es1 ++ es2) N.
Proof.
  induction es2 as [|[[row col] x] es2 IH]; intros es1 N Hle.
  - rewrite app_nil_r. reflexivity.
  - cbn [length] in Hle. unfold emits. cbn [foldl]. fold (emits).
    cbn [fst snd]. rewrite emit_written by lia.
    unfold emits in IH. rewrite IH by (rewrite length_app; cbn; lia).
    rewrite <- app_assoc. reflexivity.
Qed.

(** No write falls outside the arrays when [es] fits. *)
Lemma emits_zeros es fdim :
  (length es <= Z.to_nat fdim)%nat ->
  emits (zeros fdim) es = written es (Z.to_nat fdim).
Proof.
  intros Hle. rewrite zeros_written, emits_written by (cbn; lia). reflexivity.
Qed.

(** Slot [c*q + r] of the concatenation of chunks of length [c]. *)
Lemma bind_lookup_chunk {A B : Type} (t : A -> list B) (c : nat) (l : list A) :
  (forall x, length (t x) = c) ->
  forall q r x, (r < c)%nat -> l !! q = Some x ->
    (l ≫= t) !! (c * q + r)%nat = t x !! r.
Proof.
  intros Hc. induction l as [|y l IH]; intros q r x Hr Hq; [done|].
  rewrite bind_cons. destruct q as [|q]; cbn in Hq.
  - injection Hq as ->. rewrite Nat.mul_0_r, Nat.add_0_l.
    apply lookup_app_l. rewrite Hc. exact Hr.
  - rewrite lookup_app_r by (rewrite Hc; lia).
    rewrite Hc. replace (c * S q + r - c)%nat with (c * q + r)%nat by lia.
    eapply IH; eassumption.
Qed.

Lemma bind_length_chunk {A B : Type} (t : A -> list B) (c : nat) (l : list A) :
  (forall x, length (t x) = c) -> length (l ≫= t) = (c * length l)%nat.
Proof.
  intros Hc. induction l as [|y l IH]; [cbn; lia|].
  rewrite bind_cons, length_app, IH, Hc. cbn [length]. lia.
Qed.

End Writes.

(** ** The loops write exactly the entries, in order *)

Section Refinement.
Context {D : Type} {AD : Arith D} {BD : Bardell D}.

Lemma length_range n : length (range n) = Z.to_nat n.
Proof. apply length_seqZ. Qed.

Lemma elem_of_range n i : i ∈ range n <-> 0 <= i < n.
Proof. unfold range. rewrite elem_of_seqZ. lia. Qed.

Lemma length_bind_le {A B : Type} (f : A -> list B) (c : nat) (l : list A) :
  (forall x, (length (f x) <= c)%nat) -> (length (l ≫= f) <= length l * c)%nat.
Proof.
  intros Hc. induction l as [|x l IH]; [cbn; lia|].
  rewrite bind_cons, length_app. specialize (Hc x). cbn [length]. lia.
Qed.

Lemma length_combos11 m1 n1 row0 col0 :
  (length (combos11 m1 n1 row0 col0)
     <= Z.to_nat n1 * (Z.to_nat n1 * (Z.to_nat m1 * (Z.to_nat m1 * 1))))%nat.
Proof.
  unfold combos11.
  rewrite <- !length_range.
  repeat (apply length_bind_le; intros ?).
  case_match; cbn; lia.
Qed.

Lemma length_combos22 m2 n2 row0 col0 :
  (length (combos22 m2 n2 row0 col0)
     <= Z.to_nat m2 * (Z.to_nat m2 * (Z.to_nat n2 * (Z.to_nat n2 * 1))))%nat.
Proof.
  unfold combos22.
  rewrite <- !length_range.
  repeat (apply length_bind_le; intros ?).
  case_match; cbn; lia.
Qed.

Lemma length_bind_const {A B : Type} (f : A -> list B) (c : nat) (l : list A) :
  (forall x, length (f x) = c) -> length (l ≫= f) = (length l * c)%nat.
Proof.
  intros Hc. rewrite (bind_length_chunk f c) by exact Hc. lia.
Qed.

Lemma length_combos12 m1 n1 m2 n2 :
  length (combos12 m1 n1 m2 n2)
    = (Z.to_nat n1 * (Z.to_nat m2 * (Z.to_nat m1 * (Z.to_nat n2 * 1))))%nat.
Proof.
  unfold combos12.
  rewrite <- !length_range.
  repeat (apply length_bind_const; intros ?).
  reflexivity.
Qed.

Lemma length_triple11 kt kr p1 xcte1 row0 col0 q :
  length (triple11 kt kr p1 xcte1 row0 col0 q) = 3%nat.
Proof. destruct q as [[[? ?] ?] ?]. reflexivity. Qed.

Lemma length_triple22 kt kr p2 ycte2 row0 col0 q :
  length (triple22 kt kr p2 ycte2 row0 col0 q) = 3%nat.
Proof. destruct q as [[[? ?] ?] ?]. reflexivity. Qed.

Lemma length_quad12 kt kr p1 p2 xcte1 ycte2 row0 col0 q :
  length (quad12 kt kr p1 p2 xcte1 ycte2 row0 col0 q) = 4%nat.
Proof. destruct q as [[[? ?] ?] ?]. reflexivity. Qed.

Lemma length_entries11 kt kr p1 xcte1 row0 col0 :
  length (entries11 kt kr p1 xcte1 row0 col0)
    = (3 * length (combos11 (Panel.m p1) (Panel.n p1) row0 col0))%nat.
Proof. apply bind_length_chunk, length_triple11. Qed.

Lemma length_entries22 kt kr p2 ycte2 row0 col0 :
  length (entries22 kt kr p2 ycte2 row0 col0)
    = (3 * length (combos22 (Panel.m p2) (Panel.n p2) row0 col0))%nat.
Proof. apply bind_length_chunk, length_triple22. Qed.

Lemma length_entries12 kt kr p1 p2 xcte1 ycte2 row0 col0 :
  length (entries12 kt kr p1 p2 xcte1 ycte2 row0 col0)
    = (4 * length (combos12 (Panel.m p1) (Panel.n p1)
                            (Panel.m p2) (Panel.n p2)))%nat.
Proof. apply bind_length_chunk, length_quad12. Qed.

(** A product of four clipped bounds fits in the allocation. *)
Lemma clipped_product_le (k w x y z : Z) :
  0 <= k ->
  (Z.to_nat k * (Z.to_nat w * (Z.to_nat x * (Z.to_nat y * (Z.to_nat z * 1))))
     <= Z.to_nat (k * (w * (x * (y * z)))))%nat.
Proof.
  intros Hk.
  destruct (Z.le_gt_cases w 0) as [Hw|Hw];
    [replace (Z.to_nat w) with 0%nat by lia; lia|].
  destruct (Z.le_gt_cases x 0) as [Hx|Hx];
    [replace (Z.to_nat x) with 0%nat by lia; lia|].
  destruct (Z.le_gt_cases y 0) as [Hy|Hy];
    [replace (Z.to_nat y) with 0%nat by lia; lia|].
  destruct (Z.le_gt_cases z 0) as [Hz|Hz];
    [replace (Z.to_nat z) with 0%nat by lia; lia|].
  rewrite !Z2Nat.inj_mul by nia. lia.
Qed.

Lemma entries11_fit kt kr p1 xcte1 row0 col0 :
  (length (entries11 kt kr p1 xcte1 row0 col0) <= Z.to_nat (fdim11 p1))%nat.
Proof.
  rewrite length_entries11.
  pose proof (length_combos11 (Panel.m p1) (Panel.n p1) row0 col0) as Hc.
  pose proof (clipped_product_le 3 (Panel.n p1) (Panel.n p1)
                (Panel.m p1) (Panel.m p1) ltac:(lia)) as Hp.
  unfold fdim11.
  replace (3 * Panel.m p1 * Panel.n p1 * Panel.m p1 * Panel.n p1)
    with (3 * (Panel.n p1 * (Panel.n p1 * (Panel.m p1 * Panel.m p1)))) by lia.
  change (Z.to_nat 3) with 3%nat in Hp. lia.
Qed.

Lemma entries22_fit kt kr p2 ycte2 row0 col0 :
  (length (entries22 kt kr p2 ycte2 row0 col0) <= Z.to_nat (fdim11 p2))%nat.
Proof.
  rewrite length_entries22.
  pose proof (length_combos22 (Panel.m p2) (Panel.n p2) row0 col0) as Hc.
  pose proof (clipped_product_le 3 (Panel.m p2) (Panel.m p2)
                (Panel.n p2) (Panel.n p2) ltac:(lia)) as Hp.
  unfold fdim11.
  replace (3 * Panel.m p2 * Panel.n p2 * Panel.m p2 * Panel.n p2)
    with (3 * (Panel.m p2 * (Panel.m p2 * (Panel.n p2 * Panel.n p2)))) by lia.
  change (Z.to_nat 3) with 3%nat in Hp. lia.
Qed.

Lemma entries12_fit kt kr p1 p2 xcte1 ycte2 row0 col0 :
  (length (entries12 kt kr p1 p2 xcte1 ycte2 row0 col0)
     <= Z.to_nat (fdim12 p1 p2))%nat.
Proof.
  rewrite length_entries12, length_combos12.
  pose proof (clipped_product_le 4 (Panel.n p1) (Panel.m p2)
                (Panel.m p1) (Panel.n p2) ltac:(lia)) as Hp.
  unfold fdim12.
  replace (4 * Panel.m p1 * Panel.n p1 * Panel.m p2 * Panel.n p2)
    with (4 * (Panel.n p1 * (Panel.m p2 * (Panel.m p1 * Panel.n p2)))) by lia.
  change (Z.to_nat 4) with 4%nat in Hp. lia.
Qed.

(** [fkCBFxcte11] leaves its entries in the first slots, in loop order,
    each added to the zero the slot held. *)
Lemma fkCBFxcte11_written kt kr p1 xcte1 size row0 col0 :
  fkCBFxcte11 kt kr p1 xcte1 size row0 col0
    = coo_matrix (written (entries11 kt kr p1 xcte1 row0 col0)
                          (Z.to_nat (fdim11 p1))) size.
Proof.
  rewrite <- emits_zeros by apply entries11_fit.
  unfold fkCBFxcte11, entries11, combos11, fdim11. cbv zeta. f_equal.
  apply foldl_emits_bind. intros sa j1.
  apply foldl_emits_bind. intros sb l1.
  apply foldl_emits_bind. intros sc i1.
  apply foldl_emits_bind. intros sd k1.
  unfold base. destruct (_ >? _); reflexivity.
Qed.

Lemma fkCBFxycte12_written kt kr p1 p2 xcte1 ycte2 size row0 col0 :
  fkCBFxycte12 kt kr p1 p2 xcte1 ycte2 size row0 col0
    = coo_matrix (written (entries12 kt kr p1 p2 xcte1 ycte2 row0 col0)
                          (Z.to_nat (fdim12 p1 p2))) size.
Proof.
  rewrite <- emits_zeros by apply entries12_fit.
  unfold fkCBFxycte12, entries12, combos12, fdim12. cbv zeta. f_equal.
  apply foldl_emits_bind. intros sa j1.
  apply foldl_emits_bind. intros sb k2.
  apply foldl_emits_bind. intros sc i1.
  apply foldl_emits_bind. intros sd l2.
  reflexivity.
Qed.

Lemma fkCBFycte22_written kt kr p1 p2 ycte2 size row0 col0 :
  fkCBFycte22 kt kr p1 p2 ycte2 size row0 col0
    = coo_matrix (written (entries22 kt kr p2 ycte2 row0 col0)
                          (Z.to_nat (fdim11 p2))) size.
Proof.
  rewrite <- emits_zeros by apply entries22_fit.
  unfold fkCBFycte22, entries22, combos22, fdim11. cbv zeta. f_equal.
  apply foldl_emits_bind. intros sa i2.
  apply foldl_emits_bind. intros sb k2.
  apply foldl_emits_bind. intros sc j2.
  apply foldl_emits_bind. intros sd l2.
  unfold base. destruct (_ >? _); reflexivity.
Qed.

(** The packing left open in [fkCBFxcte11_packed] is the only change. *)
Lemma fkCBFxcte11_own_packing kt kr p1 xcte1 size row0 col0 :
  fkCBFxcte11 kt kr p1 xcte1 size row0 col0
    = fkCBFxcte11_packed (fun i1 j1 => j1 * Panel.m p1 + i1)
        kt kr p1 xcte1 size row0 col0.
Proof. reflexivity. Qed.

Lemma length_triple22_dual kt kr p2 ycte2 row0 col0 q :
  length (triple22_dual kt kr p2 ycte2 row0 col0 q) = 3%nat.
Proof. destruct q as [[[? ?] ?] ?]. reflexivity. Qed.

Lemma entries22_dual_fit kt kr p2 ycte2 row0 col0 :
  (length (entries22_dual kt kr p2 ycte2 row0 col0) <= Z.to_nat (fdim11 p2))%nat.
Proof.
  pose proof (entries22_fit kt kr p2 ycte2 row0 col0) as Hfit.
  rewrite length_entries22 in Hfit.
  unfold entries22_dual.
  rewrite (bind_length_chunk _ 3) by apply length_triple22_dual. exact Hfit.
Qed.

Lemma fkCBFycte22_as_dual_written kt kr p2 ycte2 size row0 col0 :
  fkCBFycte22_as_dual kt kr p2 ycte2 size row0 col0
    = coo_matrix (written (entries22_dual kt kr p2 ycte2 row0 col0)
                          (Z.to_nat (fdim11 p2))) size.
Proof.
  rewrite <- emits_zeros by apply entries22_dual_fit.
  unfold fkCBFycte22_as_dual, fkCBFxcte11_packed, entries22_dual, combos22, fdim11.
  cbv zeta. cbn [exchanged Panel.m Panel.n Panel.a Panel.b].
  replace (3 * Panel.n p2 * Panel.m p2 * Panel.n p2 * Panel.m p2)
    with (3 * Panel.m p2 * Panel.n p2 * Panel.m p2 * Panel.n p2) by lia.
  f_equal.
  apply foldl_emits_bind. intros sa i2.
  apply foldl_emits_bind. intros sb k2.
  apply foldl_emits_bind. intros sc j2.
  apply foldl_emits_bind. intros sd l2.
  unfold base. destruct (_ >? _); reflexivity.
Qed.

(** A loop whose body never fails, run from a state that has not failed. *)
Lemma foldl_Some {S A : Type} (G : option S -> A -> option S) (g : S -> A -> S) :
  (forall st x, G (Some st) x = Some (g st x)) ->
  forall xs st, foldl G (Some st) xs = Some (foldl g st xs).
Proof.
  intros HG xs. induction xs as [|x xs IH]; intros st; [reflexivity|].
  cbn [foldl]. rewrite HG. apply IH.
Qed.

Lemma gdiv_Some (x y : D) : is_zero y = false -> gdiv x y = Some (x / y)%D.
Proof. intros Hy. unfold gdiv. rewrite Hy. reflexivity. Qed.

Lemma gdiv_None (x y : D) : is_zero y = true -> gdiv x y = None.
Proof. intros Hy. unfold gdiv. rewrite Hy. reflexivity. Qed.

(** With both denominators nonzero the guarded run is the plain run. *)
Lemma fkCBFxcte11_guarded_Some kt kr p1 xcte1 size row0 col0 :
  is_zero (Panel.a p1) = false ->
  is_zero (Panel.a p1 * Panel.a p1 * kt)%D = false ->
  fkCBFxcte11_guarded kt kr p1 xcte1 size row0 col0
    = Some (fkCBFxcte11 kt kr p1 xcte1 size row0 col0).
Proof.
  intros Ha Hden. unfold fkCBFxcte11_guarded, fkCBFxcte11. cbv zeta.
  rewrite (gdiv_Some _ _ Ha). cbn [mbind option_bind].
  erewrite foldl_Some; [reflexivity|]. intros sa j1.
  apply foldl_Some. intros sb l1.
  apply foldl_Some. intros sc i1.
  apply foldl_Some. intros sd k1.
  cbn [mbind option_bind]. destruct (_ >? _); [reflexivity|].
  rewrite (gdiv_Some _ _ Hden). reflexivity.
Qed.

Lemma fkCBFycte22_guarded_Some kt kr p1 p2 ycte2 size row0 col0 :
  is_zero (Panel.b p2) = false ->
  is_zero (Panel.b p2 * Panel.b p2 * kt)%D = false ->
  fkCBFycte22_guarded kt kr p1 p2 ycte2 size row0 col0
    = Some (fkCBFycte22 kt kr p1 p2 ycte2 size row0 col0).
Proof.
  intros Hb Hden. unfold fkCBFycte22_guarded, fkCBFycte22. cbv zeta.
  rewrite (gdiv_Some _ _ Hb). cbn [mbind option_bind].
  erewrite foldl_Some; [reflexivity|]. intros sa i2.
  apply foldl_Some. intros sb k2.
  apply foldl_Some. intros sc j2.
  apply foldl_Some. intros sd l2.
  cbn [mbind option_bind]. destruct (_ >? _); [reflexivity|].
  rewrite (gdiv_Some _ _ Hden). reflexivity.
Qed.

(** *** The guarded runs as one loop over the emitted combinations *)

Lemma gfold_None {S B : Type} (t : S -> B -> option S) (qs : list B) :
  gfold t None qs = None.
Proof. induction qs as [|q qs IH]; [reflexivity|]. exact IH. Qed.

Lemma gfold_app {S B : Type} (t : S -> B -> option S) ost (qs1 qs2 : list B) :
  gfold t ost (qs1 ++ qs2) = gfold t (gfold t ost qs1) qs2.
Proof. apply foldl_app. Qed.

Lemma foldl_gfold_bind {S A B : Type} (t : S -> B -> option S)
    (f : A -> list B) (G : option S -> A -> option S) :
  (forall ost x, G ost x = gfold t ost (f x)) ->
  forall xs ost, foldl G ost xs = gfold t ost (xs ≫= f).
Proof.
  intros HG xs. induction xs as [|x xs IH]; intros ost; [reflexivity|].
  cbn [foldl]. rewrite IH, HG, bind_cons, gfold_app. reflexivity.
Qed.

(** A loop in which every combination fails. *)
Lemma gfold_fails {S B : Type} (t : S -> B -> option S) ost (qs : list B) :
  (forall s q, t s q = None) -> qs <> [] -> gfold t ost qs = None.
Proof.
  intros Ht Hqs. destruct qs as [|q qs]; [done|].
  unfold gfold. cbn [foldl]. fold (gfold t).
  destruct ost as [s|]; cbn [mbind option_bind]; [rewrite Ht|];
    apply gfold_None.
Qed.

Lemma fkCBFxcte11_guarded_fold kt kr p1 xcte1 size row0 col0 :
  is_zero (Panel.a p1) = false ->
  fkCBFxcte11_guarded kt kr p1 xcte1 size row0 col0
    = (st ← gfold (gemit11 kt kr p1 (normalised xcte1 (Panel.a p1)) row0 col0)
              (Some (zeros (fdim11 p1)))
              (combos11 (Panel.m p1) (Panel.n p1) row0 col0);
       Some (coo_matrix st size)).
Proof.
  intros Ha. unfold fkCBFxcte11_guarded. cbv zeta.
  rewrite (gdiv_Some _ _ Ha). cbn [mbind option_bind]. f_equal.
  unfold combos11, fdim11.
  apply foldl_gfold_bind. intros sa j1.
  apply foldl_gfold_bind. intros sb l1.
  apply foldl_gfold_bind. intros sc i1.
  apply foldl_gfold_bind. intros sd k1.
  unfold base. destruct sd as [s|]; cbn [mbind option_bind];
    destruct (_ >? _); reflexivity.
Qed.

Lemma fkCBFycte22_guarded_fold kt kr p1 p2 ycte2 size row0 col0 :
  is_zero (Panel.b p2) = false ->
  fkCBFycte22_guarded kt kr p1 p2 ycte2 size row0 col0
    = (st ← gfold (gemit22 kt kr p2 (normalised ycte2 (Panel.b p2)) row0 col0)
              (Some (zeros (fdim11 p2)))
              (combos22 (Panel.m p2) (Panel.n p2) row0 col0);
       Some (coo_matrix st size)).
Proof.
  intros Hb. unfold fkCBFycte22_guarded. cbv zeta.
  rewrite (gdiv_Some _ _ Hb). cbn [mbind option_bind]. f_equal.
  unfold combos22, fdim11.
  apply foldl_gfold_bind. intros sa i2.
  apply foldl_gfold_bind. intros sb k2.
  apply foldl_gfold_bind. intros sc j2.
  apply foldl_gfold_bind. intros sd l2.
  unfold base. destruct sd as [s|]; cbn [mbind option_bind];
    destruct (_ >? _); reflexivity.
Qed.

(** The guarded run fails at the normalisation when [a1] is zero, and at
    the first emitted combination when [(a1*a1)*kt] is zero. *)
Lemma fkCBFxcte11_guarded_None kt kr p1 xcte1 size row0 col0 :
  is_zero (Panel.a p1) = true
  \/ (is_zero (Panel.a p1 * Panel.a p1 * kt)%D = true
      /\ combos11 (Panel.m p1) (Panel.n p1) row0 col0 <> []) ->
  fkCBFxcte11_guarded kt kr p1 xcte1 size row0 col0 = None.
Proof.
  intros [Ha|[Hden Hne]].
  - unfold fkCBFxcte11_guarded. cbv zeta. rewrite (gdiv_None _ _ Ha). reflexivity.
  - destruct (is_zero (Panel.a p1)) eqn:Ha.
    + unfold fkCBFxcte11_guarded. cbv zeta. rewrite (gdiv_None _ _ Ha).
      reflexivity.
    + rewrite (fkCBFxcte11_guarded_fold _ _ _ _ _ _ _ Ha).
      rewrite gfold_fails; [reflexivity| |exact Hne].
      intros s [[[i j] k] l]. unfold gemit11. cbv zeta.
      rewrite (gdiv_None _ _ Hden). reflexivity.
Qed.

Lemma fkCBFycte22_guarded_None kt kr p1 p2 ycte2 size row0 col0 :
  is_zero (Panel.b p2) = true
  \/ (is_zero (Panel.b p2 * Panel.b p2 * kt)%D = true
      /\ combos22 (Panel.m p2) (Panel.n p2) row0 col0 <> []) ->
  fkCBFycte22_guarded kt kr p1 p2 ycte2 size row0 col0 = None.
Proof.
  intros [Hb|[Hden Hne]].
  - unfold fkCBFycte22_guarded. cbv zeta. rewrite (gdiv_None _ _ Hb). reflexivity.
  - destruct (is_zero (Panel.b p2)) eqn:Hb.
    + unfold fkCBFycte22_guarded. cbv zeta. rewrite (gdiv_None _ _ Hb).
      reflexivity.
    + rewrite (fkCBFycte22_guarded_fold _ _ _ _ _ _ _ _ Hb).
      rewrite gfold_fails; [reflexivity| |exact Hne].
      intros s [[[i j] k] l]. unfold gemit22. cbv zeta.
      rewrite (gdiv_None _ _ Hden). reflexivity.
Qed.

End Refinement.

(** ** Reading the returned arrays *)

Section Slots.
Context {D : Type} {AD : Arith D} {BD : Bardell D}.

Lemma written_lookup (es : list entry) N s row col x :
  es !! s = Some (row, col, x) ->
  buf_r (written es N) !! s = Some row
  /\ buf_cl (written es N) !! s = Some col
  /\ buf_v (written es N) !! s = Some (c0 + x)%D.
Proof.
  intros Hs. cbn [written buf_r buf_cl buf_v].
  assert (s < length es)%nat as Hlt by (eapply lookup_lt_Some; eassumption).
  rewrite !lookup_app_l by (rewrite length_fmap; exact Hlt).
  rewrite !list_lookup_fmap. unfold entry in *. rewrite Hs. auto.
Qed.

Lemma written_lookup_pad (es : list entry) N s :
  (length es <= s < N)%nat ->
  buf_r (written es N) !! s = Some 0
  /\ buf_cl (written es N) !! s = Some 0
  /\ buf_v (written es N) !! s = Some c0.
Proof.
  intros Hs. cbn [written buf_r buf_cl buf_v].
  rewrite !lookup_app_r by (rewrite length_fmap; lia).
  rewrite !length_fmap, !lookup_replicate_2 by lia. auto.
Qed.

Lemma written_lengths (es : list entry) N :
  (length es <= N)%nat ->
  length (buf_r (written es N)) = N
  /\ length (buf_cl (written es N)) = N
  /\ length (buf_v (written es N)) = N.
Proof.
  intros Hle. cbn [written buf_r buf_cl buf_v].
  rewrite !length_app, !length_fmap, !length_replicate. lia.
Qed.

(** A slot below the number of entries was written, with that entry. *)
Lemma written_lookup_inv (es : list entry) N s :
  (s < length es)%nat ->
  exists row col x, es !! s = Some (row, col, x)
    /\ buf_r (written es N) !! s = Some row
    /\ buf_cl (written es N) !! s = Some col
    /\ buf_v (written es N) !! s = Some (c0 + x)%D.
Proof.
  intros Hlt. destruct (lookup_lt_is_Some_2 es s Hlt) as [[[row col] x] He].
  exists row, col, x. split; [exact He|]. apply written_lookup, He.
Qed.

(** An entry of a concatenation of chunks comes from one chunk. *)
Lemma bind_lookup_inv {A B : Type} (t : A -> list B) (l : list A) s e :
  (l ≫= t) !! s = Some e -> exists q x d, l !! q = Some x /\ t x !! d = Some e.
Proof.
  revert s. induction l as [|y l IH]; intros s Hs; [done|].
  rewrite bind_cons in Hs. apply lookup_app_Some in Hs as [Hs|[_ Hs]].
  - exists 0%nat, y, s. auto.
  - destruct (IH _ Hs) as (q & x & d & Hq & Hd). exists (S q), x, d. auto.
Qed.

Lemma elem_of_combos11 m1 n1 row0 col0 i1 j1 k1 l1 :
  (i1, j1, k1, l1) ∈ combos11 m1 n1 row0 col0 <->
  0 <= i1 < m1 /\ 0 <= j1 < n1 /\ 0 <= k1 < m1 /\ 0 <= l1 < n1
  /\ base row0 m1 i1 j1 <= base col0 m1 k1 l1.
Proof.
  unfold combos11. rewrite list_elem_of_bind. split.
  - intros (j & Hj & Hjr). apply list_elem_of_bind in Hj as (l & Hl & Hlr).
    apply list_elem_of_bind in Hl as (i & Hi & Hir).
    apply list_elem_of_bind in Hi as (k & Hk & Hkr).
    apply elem_of_range in Hjr, Hlr, Hir, Hkr.
    destruct (Z.gtb_spec (base row0 m1 i j) (base col0 m1 k l)) as [Hgt|Hle];
      [by apply elem_of_nil in Hk|].
    apply list_elem_of_singleton in Hk. injection Hk as -> -> -> ->. lia.
  - intros (Hi & Hj & Hk & Hl & Hle).
    exists j1. split; [|by apply elem_of_range].
    apply list_elem_of_bind. exists l1. split; [|by apply elem_of_range].
    apply list_elem_of_bind. exists i1. split; [|by apply elem_of_range].
    apply list_elem_of_bind. exists k1. split; [|by apply elem_of_range].
    destruct (Z.gtb_spec (base row0 m1 i1 j1) (base col0 m1 k1 l1)); [lia|].
    by apply list_elem_of_singleton.
Qed.

Lemma elem_of_combos22 m2 n2 row0 col0 i2 j2 k2 l2 :
  (i2, j2, k2, l2) ∈ combos22 m2 n2 row0 col0 <->
  0 <= i2 < m2 /\ 0 <= j2 < n2 /\ 0 <= k2 < m2 /\ 0 <= l2 < n2
  /\ base row0 m2 i2 j2 <= base col0 m2 k2 l2.
Proof.
  unfold combos22. rewrite list_elem_of_bind. split.
  - intros (i & Hi & Hir). apply list_elem_of_bind in Hi as (k & Hk & Hkr).
    apply list_elem_of_bind in Hk as (j & Hj & Hjr).
    apply list_elem_of_bind in Hj as (l & Hl & Hlr).
    apply elem_of_range in Hjr, Hlr, Hir, Hkr.
    destruct (Z.gtb_spec (base row0 m2 i j) (base col0 m2 k l)) as [Hgt|Hle];
      [by apply elem_of_nil in Hl|].
    apply list_elem_of_singleton in Hl. injection Hl as -> -> -> ->. lia.
  - intros (Hi & Hj & Hk & Hl & Hle).
    exists i2. split; [|by apply elem_of_range].
    apply list_elem_of_bind. exists k2. split; [|by apply elem_of_range].
    apply list_elem_of_bind. exists j2. split; [|by apply elem_of_range].
    apply list_elem_of_bind. exists l2. split; [|by apply elem_of_range].
    destruct (Z.gtb_spec (base row0 m2 i2 j2) (base col0 m2 k2 l2)); [lia|].
    by apply list_elem_of_singleton.
Qed.

Lemma elem_of_combos12 m1 n1 m2 n2 i1 j1 k2 l2 :
  (i1, j1, k2, l2) ∈ combos12 m1 n1 m2 n2 <->
  0 <= i1 < m1 /\ 0 <= j1 < n1 /\ 0 <= k2 < m2 /\ 0 <= l2 < n2.
Proof.
  unfold combos12. rewrite list_elem_of_bind. split.
  - intros (j & Hj & Hjr). apply list_elem_of_bind in Hj as (k & Hk & Hkr).
    apply list_elem_of_bind in Hk as (i & Hi & Hir).
    apply list_elem_of_bind in Hi as (l & Hl & Hlr).
    apply elem_of_range in Hjr, Hlr, Hir, Hkr.
    apply list_elem_of_singleton in Hl. injection Hl as -> -> -> ->. lia.
  - intros (Hi & Hj & Hk & Hl).
    exists j1. split; [|by apply elem_of_range].
    apply list_elem_of_bind. exists k2. split; [|by apply elem_of_range].
    apply list_elem_of_bind. exists i1. split; [|by apply elem_of_range].
    apply list_elem_of_bind. exists l2. split; [|by apply elem_of_range].
    by apply list_elem_of_singleton.
Qed.

(** *** Slot by slot *)

Lemma coo_written_lookup (es : list entry) N size s row col x :
  es !! s = Some (row, col, x) ->
  coo_row (coo_matrix (written es N) size) !! s = Some row
  /\ coo_col (coo_matrix (written es N) size) !! s = Some col
  /\ coo_data (coo_matrix (written es N) size) !! s = Some (c0 + x)%D.
Proof. apply written_lookup. Qed.

Lemma xcte11_slot kt kr p1 xcte1 size row0 col0 q d cmb row col x :
  combos11 (Panel.m p1) (Panel.n p1) row0 col0 !! q = Some cmb ->
  triple11 kt kr p1 xcte1 row0 col0 cmb !! d = Some (row, col, x) ->
  coo_row (fkCBFxcte11 kt kr p1 xcte1 size row0 col0) !! (3 * q + d)%nat
    = Some row
  /\ coo_col (fkCBFxcte11 kt kr p1 xcte1 size row0 col0) !! (3 * q + d)%nat
    = Some col
  /\ coo_data (fkCBFxcte11 kt kr p1 xcte1 size row0 col0) !! (3 * q + d)%nat
    = Some (c0 + x)%D.
Proof.
  intros Hq Hd. rewrite fkCBFxcte11_written. apply coo_written_lookup.
  unfold entries11.
  assert (d < 3)%nat as Hlt.
  { apply lookup_lt_Some in Hd. rewrite length_triple11 in Hd. exact Hd. }
  rewrite (bind_lookup_chunk _ 3 _ (length_triple11 kt kr p1 xcte1 row0 col0)
             q d cmb Hlt Hq).
  exact Hd.
Qed.

Lemma ycte22_slot kt kr p1 p2 ycte2 size row0 col0 q d cmb row col x :
  combos22 (Panel.m p2) (Panel.n p2) row0 col0 !! q = Some cmb ->
  triple22 kt kr p2 ycte2 row0 col0 cmb !! d = Some (row, col, x) ->
  coo_row (fkCBFycte22 kt kr p1 p2 ycte2 size row0 col0) !! (3 * q + d)%nat
    = Some row
  /\ coo_col (fkCBFycte22 kt kr p1 p2 ycte2 size row0 col0) !! (3 * q + d)%nat
    = Some col
  /\ coo_data (fkCBFycte22 kt kr p1 p2 ycte2 size row0 col0) !! (3 * q + d)%nat
    = Some (c0 + x)%D.
Proof.
  intros Hq Hd. rewrite fkCBFycte22_written. apply coo_written_lookup.
  unfold entries22.
  assert (d < 3)%nat as Hlt.
  { apply lookup_lt_Some in Hd. rewrite length_triple22 in Hd. exact Hd. }
  rewrite (bind_lookup_chunk _ 3 _ (length_triple22 kt kr p2 ycte2 row0 col0)
             q d cmb Hlt Hq).
  exact Hd.
Qed.

Lemma xycte12_slot kt kr p1 p2 xcte1 ycte2 size row0 col0 q d cmb row col x :
  combos12 (Panel.m p1) (Panel.n p1) (Panel.m p2) (Panel.n p2) !! q = Some cmb ->
  quad12 kt kr p1 p2 xcte1 ycte2 row0 col0 cmb !! d = Some (row, col, x) ->
  coo_row (fkCBFxycte12 kt kr p1 p2 xcte1 ycte2 size row0 col0) !! (4 * q + d)%nat
    = Some row
  /\ coo_col (fkCBFxycte12 kt kr p1 p2 xcte1 ycte2 size row0 col0) !! (4 * q + d)%nat
    = Some col
  /\ coo_data (fkCBFxycte12 kt kr p1 p2 xcte1 ycte2 size row0 col0) !! (4 * q + d)%nat
    = Some (c0 + x)%D.
Proof.
  intros Hq Hd. rewrite fkCBFxycte12_written. apply coo_written_lookup.
  unfold entries12.
  assert (d < 4)%nat as Hlt.
  { apply lookup_lt_Some in Hd. rewrite length_quad12 in Hd. exact Hd. }
  rewrite (bind_lookup_chunk _ 4 _
             (length_quad12 kt kr p1 p2 xcte1 ycte2 row0 col0) q d cmb Hlt Hq).
  exact Hd.
Qed.

(** Every slot below the number of entries holds the entry of one emitted
    combination. *)
Lemma xcte11_slot_inv kt kr p1 xcte1 size row0 col0 s :
  (s < length (entries11 kt kr p1 xcte1 row0 col0))%nat ->
  exists cmb d row col x,
    cmb ∈ combos11 (Panel.m p1) (Panel.n p1) row0 col0
    /\ triple11 kt kr p1 xcte1 row0 col0 cmb !! d = Some (row, col, x)
    /\ coo_row (fkCBFxcte11 kt kr p1 xcte1 size row0 col0) !! s = Some row
    /\ coo_col (fkCBFxcte11 kt kr p1 xcte1 size row0 col0) !! s = Some col
    /\ coo_data (fkCBFxcte11 kt kr p1 xcte1 size row0 col0) !! s
         = Some (c0 + x)%D.
Proof.
  intros Hs. rewrite fkCBFxcte11_written.
  destruct (written_lookup_inv _ (Z.to_nat (fdim11 p1)) s Hs)
    as (row & col & x & He & Hr & Hc & Hv).
  destruct (bind_lookup_inv _ _ _ _ He) as (q & cmb & d & Hq & Hd).
  exists cmb, d, row, col, x. split; [|auto].
  eapply list_elem_of_lookup_2, Hq.
Qed.

Lemma ycte22_slot_inv kt kr p1 p2 ycte2 size row0 col0 s :
  (s < length (entries22 kt kr p2 ycte2 row0 col0))%nat ->
  exists cmb d row col x,
    cmb ∈ combos22 (Panel.m p2) (Panel.n p2) row0 col0
    /\ triple22 kt kr p2 ycte2 row0 col0 cmb !! d = Some (row, col, x)
    /\ coo_row (fkCBFycte22 kt kr p1 p2 ycte2 size row0 col0) !! s = Some row
    /\ coo_col (fkCBFycte22 kt kr p1 p2 ycte2 size row0 col0) !! s = Some col
    /\ coo_data (fkCBFycte22 kt kr p1 p2 ycte2 size row0 col0) !! s
         = Some (c0 + x)%D.
Proof.
  intros Hs. rewrite fkCBFycte22_written.
  destruct (written_lookup_inv _ (Z.to_nat (fdim11 p2)) s Hs)
    as (row & col & x & He & Hr & Hc & Hv).
  destruct (bind_lookup_inv _ _ _ _ He) as (q & cmb & d & Hq & Hd).
  exists cmb, d, row, col, x. split; [|auto].
  eapply list_elem_of_lookup_2, Hq.
Qed.

Lemma xycte12_slot_inv kt kr p1 p2 xcte1 ycte2 size row0 col0 s :
  (s < length (entries12 kt kr p1 p2 xcte1 ycte2 row0 col0))%nat ->
  exists cmb d row col x,
    cmb ∈ combos12 (Panel.m p1) (Panel.n p1) (Panel.m p2) (Panel.n p2)
    /\ quad12 kt kr p1 p2 xcte1 ycte2 row0 col0 cmb !! d = Some (row, col, x)
    /\ coo_row (fkCBFxycte12 kt kr p1 p2 xcte1 ycte2 size row0 col0) !! s
         = Some row
    /\ coo_col (fkCBFxycte12 kt kr p1 p2 xcte1 ycte2 size row0 col0) !! s
         = Some col
    /\ coo_data (fkCBFxycte12 kt kr p1 p2 xcte1 ycte2 size row0 col0) !! s
         = Some (c0 + x)%D.
Proof.
  intros Hs. rewrite fkCBFxycte12_written.
  destruct (written_lookup_inv _ (Z.to_nat (fdim12 p1 p2)) s Hs)
    as (row & col & x & He & Hr & Hc & Hv).
  destruct (bind_lookup_inv _ _ _ _ He) as (q & cmb & d & Hq & Hd).
  exists cmb, d, row, col, x. split; [|auto].
  eapply list_elem_of_lookup_2, Hq.
Qed.

(** The slots past the entries keep what [np.zeros] put there. *)
Lemma xcte11_pad kt kr p1 xcte1 size row0 col0 s :
  (length (entries11 kt kr p1 xcte1 row0 col0) <= s < Z.to_nat (fdim11 p1))%nat ->
  coo_row (fkCBFxcte11 kt kr p1 xcte1 size row0 col0) !! s = Some 0
  /\ coo_col (fkCBFxcte11 kt kr p1 xcte1 size row0 col0) !! s = Some 0
  /\ coo_data (fkCBFxcte11 kt kr p1 xcte1 size row0 col0) !! s = Some c0.
Proof. intros Hs. rewrite fkCBFxcte11_written. apply written_lookup_pad, Hs. Qed.

Lemma ycte22_pad kt kr p1 p2 ycte2 size row0 col0 s :
  (length (entries22 kt kr p2 ycte2 row0 col0) <= s < Z.to_nat (fdim11 p2))%nat ->
  coo_row (fkCBFycte22 kt kr p1 p2 ycte2 size row0 col0) !! s = Some 0
  /\ coo_col (fkCBFycte22 kt kr p1 p2 ycte2 size row0 col0) !! s = Some 0
  /\ coo_data (fkCBFycte22 kt kr p1 p2 ycte2 size row0 col0) !! s = Some c0.
Proof. intros Hs. rewrite fkCBFycte22_written. apply written_lookup_pad, Hs. Qed.

End Slots.

(** ** How many combinations a diagonal block keeps *)

Section Counts.

(** A sum over [range a] whose terms are the increments of [F]. *)
Lemma length_bind_range_telescope {B : Type} (c : Z) (g : Z -> list B)
    (F : Z -> Z) (a : Z) :
  0 <= a ->
  (forall i, 0 <= i < a -> c * Z.of_nat (length (g i)) = F (i + 1) - F i) ->
  c * Z.of_nat (length (range a ≫= g)) = F a - F 0.
Proof.
  intros Ha. rewrite <- (Z2Nat.id a Ha). generalize (Z.to_nat a) as a'.
  clear a Ha. intros a'. induction a' as [|a' IH]; intros Hg.
  - unfold range. rewrite seqZ_nil by lia. change (Z.of_nat 0) with 0.
    cbn. lia.
  - unfold range in *. rewrite seqZ_S, bind_app, length_app, bind_singleton.
    rewrite Nat2Z.inj_add, Z.mul_add_distr_l, IH by (intros i Hi; apply Hg; lia).
    rewrite (Hg (0 + Z.of_nat a')) by lia.
    replace (0 + Z.of_nat a' + 1) with (Z.of_nat (S a')) by lia.
    replace (0 + Z.of_nat a') with (Z.of_nat a') by lia. lia.
Qed.

(** *** [fkCBFxcte11]: loops j1, l1, i1, k1 *)





(** *** [fkCBFycte22]: loops i2, k2, j2, l2 *)





End Counts.

(** ** What an exact arithmetic adds *)

Section Exact.
Context {D : Type} {AD : Arith D} {BD : Bardell D} {EM : ExactMul D}.

Lemma dmul_swap (h x y : D) : (h * x * y)%D = (h * y * x)%D.
Proof.
  rewrite <- (dmul_assoc h x y), (dmul_comm x y), (dmul_assoc h y x).
  reflexivity.
Qed.

Lemma dmul_rot (h x y z : D) : (h * x * y * z)%D = (h * z * x * y)%D.
Proof.
  rewrite <- (dmul_assoc h x y), <- (dmul_assoc h (x * y)%D z).
  rewrite (dmul_comm (x * y)%D z), (dmul_assoc h z (x * y)%D).
  rewrite (dmul_assoc (h * z)%D x y). reflexivity.
Qed.

Lemma triple11_mirror kt kr p1 xcte1 off i j k l :
  integral_symmetric ->
  triple11 kt kr p1 xcte1 off off (k, l, i, j)
    = (fun e : entry => (e.1.2, e.1.1, e.2))
        <$> triple11 kt kr p1 xcte1 off off (i, j, k, l).
Proof.
  intros Hsym. unfold triple11, val11_u, val11_v, val11_w.
  cbn [fmap list_fmap fst snd].
  unfold gg_u, gg_v, gg_w. rewrite !(Hsym l j).
  rewrite (dmul_swap _ (fu _ _ k) (fu _ _ i)).
  rewrite (dmul_swap _ (fv _ _ k) (fv _ _ i)).
  rewrite (dmul_comm (fw _ _ k) (fw _ _ i)).
  rewrite (dmul_swap _ (fwxi _ _ k) (fwxi _ _ i)).
  reflexivity.
Qed.

Lemma triple22_mirror kt kr p2 ycte2 off i j k l :
  integral_symmetric ->
  triple22 kt kr p2 ycte2 off off (k, l, i, j)
    = (fun e : entry => (e.1.2, e.1.1, e.2))
        <$> triple22 kt kr p2 ycte2 off off (i, j, k, l).
Proof.
  intros Hsym. unfold triple22, val22_u, val22_v, val22_w.
  cbn [fmap list_fmap fst snd].
  unfold ff_u, ff_v, ff_w. rewrite !(Hsym k i).
  rewrite (dmul_swap _ (gu _ _ l) (gu _ _ j)).
  rewrite (dmul_swap _ (gv _ _ l) (gv _ _ j)).
  rewrite (dmul_swap _ (gw _ _ l) (gw _ _ j)).
  rewrite (dmul_swap _ (gweta _ _ l) (gweta _ _ j)).
  reflexivity.
Qed.

Lemma triple22_dual_exact kt kr p2 ycte2 row0 col0 q :
  triple22_dual kt kr p2 ycte2 row0 col0 q = triple22 kt kr p2 ycte2 row0 col0 q.
Proof.
  destruct q as [[[i j] k] l].
  unfold triple22_dual, triple22, dual22_u, dual22_v, dual22_w,
    val22_u, val22_v, val22_w.
  rewrite (dmul_rot _ (gu _ _ j) (gu _ _ l) (ff_u _ i k)).
  rewrite (dmul_rot _ (gv _ _ j) (gv _ _ l) (ff_v _ i k)).
  rewrite (dmul_rot _ (gweta _ _ j) (gweta _ _ l) (ff_w _ i k)).
  rewrite (dmul_comm (gw _ _ j * gw _ _ l)%D (ff_w _ i k)).
  rewrite (dmul_assoc (ff_w _ i k) (gw _ _ j) (gw _ _ l)).
  reflexivity.
Qed.

End Exact.

(** Multiplication of rationals is commutative and associative on the nose. *)
#[export] Instance exactQ_mul : ExactMul Q.
Proof.
  split.
  - intros [xn xd] [yn yd]. cbn. unfold Qmult. cbn.
    rewrite (Z.mul_comm xn yn), (Pos.mul_comm xd yd). reflexivity.
  - intros [xn xd] [yn yd] [zn zd]. cbn. unfold Qmult. cbn.
    rewrite Z.mul_assoc, Pos.mul_assoc. reflexivity.
Qed.

#[export] Instance exactQ_integral : NoZeroDivisor Q.
Proof.
  split. intros x y Hxy. cbn in *.
  apply Qeq_bool_iff in Hxy. apply Qmult_integral in Hxy as [Hx|Hy].
  - left. apply Qeq_bool_iff, Hx.
  - right. apply Qeq_bool_iff, Hy.
Qed.

(** The integral of the sample basis is symmetric in its two indices. *)
Lemma monomials_symmetric {D : Type} {AD : Arith D} :
  integral_symmetric (BD := monomials).
Proof.
  intros i j x1t x1r x2t x2r. cbn. rewrite (Z.add_comm i j). reflexivity.
Qed.

(** ** The zero of a fresh slot in binary64

    [v[c] += x] on a slot that holds 0.0 stores [0.0 + x]: the same number
    as [x] (a negative zero becomes a positive zero), or a NaN when [x] is
    one. *)

Lemma SFeqb_finite_refl (s : bool) (m : positive) (e : Z) :
  SFeqb (S754_finite s m e) (S754_finite s m e) = true.
Proof.
  unfold SFeqb, SFcompare.
  destruct s; rewrite Z.compare_refl, Pos.compare_cont_refl; reflexivity.
Qed.

Lemma binary64_zero_add (x : float) :
  PrimFloat.eqb (0 + x) x = true \/ PrimFloat.is_nan x = true.
Proof.
  unfold PrimFloat.is_nan. rewrite !FloatAxioms.eqb_spec, FloatAxioms.add_spec.
  change (Prim2SF 0) with (S754_zero false).
  destruct (Prim2SF x) as [s|s| |s m e].
  - left. destruct s; reflexivity.
  - left. destruct s; reflexivity.
  - right. reflexivity.
  - left. cbn. apply SFeqb_finite_refl.
Qed.

(** * The claims *)

Section Claims.
Context {D : Type} {AD : Arith D} {BD : Bardell D}.

(** C10: [fkCBFycte22] never reads its [p1] argument: two calls that differ
    only in [p1] return the same row, column and value sequences (and the
    same shape). *)
Theorem fkCBFycte22_ignores_p1 (kt kr : D) (p1 p1' p2 : Panel.t D) (ycte2 : D)
    (size row0 col0 : Z) :
  coo_row (fkCBFycte22 kt kr p1 p2 ycte2 size row0 col0)
    = coo_row (fkCBFycte22 kt kr p1' p2 ycte2 size row0 col0)
  /\ coo_col (fkCBFycte22 kt kr p1 p2 ycte2 size row0 col0)
    = coo_col (fkCBFycte22 kt kr p1' p2 ycte2 size row0 col0)
  /\ coo_data (fkCBFycte22 kt kr p1 p2 ycte2 size row0 col0)
    = coo_data (fkCBFycte22 kt kr p1' p2 ycte2 size row0 col0)
  /\ fkCBFycte22 kt kr p1 p2 ycte2 size row0 col0
    = fkCBFycte22 kt kr p1' p2 ycte2 size row0 col0.
Proof.
  assert (fkCBFycte22 kt kr p1 p2 ycte2 size row0 col0
          = fkCBFycte22 kt kr p1' p2 ycte2 size row0 col0) as Heq.
  { rewrite !fkCBFycte22_written. reflexivity. }
  rewrite Heq. auto.
Qed.

(** C3: in [fkCBFxcte11], for the q-th emitted combination (i1, j1, k1, l1)
    the third slot of its group sits on the w-w position (row+2, col+2) and
    holds, added to the zero of the fresh array,
    [0.5*b1*kt*(f_w*f_w*g_w + 4*fxi_w*fxi_w*g_w*kr/((a1*a1)*kt))]: the
    [kr] term takes the xi-derivative of the w basis at [xicte1] and is
    divided by [a1*a1] (times [kt]). *)
Theorem fkCBFxcte11_ww_entry (kt kr : D) (p1 : Panel.t D) (xcte1 : D)
    (size row0 col0 : Z) (q : nat) (i1 j1 k1 l1 : Z) :
  combos11 (Panel.m p1) (Panel.n p1) row0 col0 !! q = Some (i1, j1, k1, l1) ->
  let K := fkCBFxcte11 kt kr p1 xcte1 size row0 col0 in
  let a1 := Panel.a p1 in
  let b1 := Panel.b p1 in
  let m1 := Panel.m p1 in
  let xicte1 := (c2 * xcte1 / a1 - c1)%D in
  let f_w := fun i => calc_f i xicte1 (Panel.w1tx p1) (Panel.w1rx p1)
                        (Panel.w2tx p1) (Panel.w2rx p1) in
  let fxi_w := fun i => calc_fxi i xicte1 (Panel.w1tx p1) (Panel.w1rx p1)
                          (Panel.w2tx p1) (Panel.w2rx p1) in
  let g_w := integral_ff j1 l1
               (Panel.w1ty p1) (Panel.w1ry p1) (Panel.w2ty p1) (Panel.w2ry p1)
               (Panel.w1ty p1) (Panel.w1ry p1) (Panel.w2ty p1) (Panel.w2ry p1) in
  coo_row K !! (3 * q + 2)%nat = Some (row0 + 3 * (j1 * m1 + i1) + 2)
  /\ coo_col K !! (3 * q + 2)%nat = Some (col0 + 3 * (l1 * m1 + k1) + 2)
  /\ coo_data K !! (3 * q + 2)%nat
     = Some (c0 + c0_5 * b1 * kt
                  * (f_w i1 * f_w k1 * g_w
                     + c4 * fxi_w i1 * fxi_w k1 * g_w * kr / ((a1 * a1) * kt)))%D.
Proof.
  intros Hq. cbv zeta.
  exact (xcte11_slot kt kr p1 xcte1 size row0 col0 q 2 _ _ _ _ Hq eq_refl).
Qed.


(** C5 (amended): every written (row, col) pair lies in the block: for
    [fkCBFxcte11] and [fkCBFycte22] rows in [row0, row0 + 3*m*n) and columns
    in [col0, col0 + 3*m*n) with the panel's own m, n, for [fkCBFxycte12]
    rows in [row0, row0 + 3*m1*n1) and columns in [col0, col0 + 3*m2*n2).
    The slots of the single-edge procedures that no combination reaches
    keep row 0, column 0 and value 0.  [fkCBFxycte12] writes all its slots
    when the four orders are not negative. *)
Theorem written_pairs_in_block (kt kr : D) (p1 p2 : Panel.t D)
    (xcte1 ycte2 : D) (size row0 col0 : Z) :
  let m1 := Panel.m p1 in let n1 := Panel.n p1 in
  let m2 := Panel.m p2 in let n2 := Panel.n p2 in
  let K11 := fkCBFxcte11 kt kr p1 xcte1 size row0 col0 in
  let K22 := fkCBFycte22 kt kr p1 p2 ycte2 size row0 col0 in
  let K12 := fkCBFxycte12 kt kr p1 p2 xcte1 ycte2 size row0 col0 in
  (forall (s : nat) (r c : Z),
     (s < 3 * length (combos11 m1 n1 row0 col0))%nat ->
     coo_row K11 !! s = Some r -> coo_col K11 !! s = Some c ->
     row0 <= r < row0 + 3 * m1 * n1 /\ col0 <= c < col0 + 3 * m1 * n1)
  /\ (forall s : nat,
     (3 * length (combos11 m1 n1 row0 col0) <= s < length (coo_row K11))%nat ->
     coo_row K11 !! s = Some 0 /\ coo_col K11 !! s = Some 0
     /\ coo_data K11 !! s = Some c0)
  /\ (forall (s : nat) (r c : Z),
     (s < 3 * length (combos22 m2 n2 row0 col0))%nat ->
     coo_row K22 !! s = Some r -> coo_col K22 !! s = Some c ->
     row0 <= r < row0 + 3 * m2 * n2 /\ col0 <= c < col0 + 3 * m2 * n2)
  /\ (forall s : nat,
     (3 * length (combos22 m2 n2 row0 col0) <= s < length (coo_row K22))%nat ->
     coo_row K22 !! s = Some 0 /\ coo_col K22 !! s = Some 0
     /\ coo_data K22 !! s = Some c0)
  /\ (forall (s : nat) (r c : Z),
     (s < 4 * length (combos12 m1 n1 m2 n2))%nat ->
     coo_row K12 !! s = Some r -> coo_col K12 !! s = Some c ->
     row0 <= r < row0 + 3 * m1 * n1 /\ col0 <= c < col0 + 3 * m2 * n2)
  /\ (0 <= m1 -> 0 <= n1 -> 0 <= m2 -> 0 <= n2 ->
     (4 * length (combos12 m1 n1 m2 n2))%nat = length (coo_row K12)).
Proof.
  cbv zeta. repeat apply conj.
  - intros s r c Hs Hr Hc.
    rewrite <- (length_entries11 kt kr p1 xcte1) in Hs.
    destruct (xcte11_slot_inv kt kr p1 xcte1 size row0 col0 s Hs)
      as ([[[i j] k] l] & d & row & col & x & Hin & Hd & Hr' & Hc' & _).
    apply elem_of_combos11 in Hin as (Hi & Hj & Hk & Hl & _).
    rewrite Hr' in Hr. rewrite Hc' in Hc. injection Hr as <-. injection Hc as <-.
    unfold triple11, base, num in Hd.
    destruct d as [|[|[|d]]]; cbn in Hd; [| | |done];
      injection Hd as <- <- _; nia.
  - intros s Hs.
    rewrite <- (length_entries11 kt kr p1 xcte1) in Hs.
    apply xcte11_pad. rewrite fkCBFxcte11_written in Hs.
    cbn [coo_matrix coo_row] in Hs.
    pose proof (written_lengths _ _ (entries11_fit kt kr p1 xcte1 row0 col0))
      as (Hlen & _). rewrite Hlen in Hs. exact Hs.
  - intros s r c Hs Hr Hc.
    rewrite <- (length_entries22 kt kr p2 ycte2) in Hs.
    destruct (ycte22_slot_inv kt kr p1 p2 ycte2 size row0 col0 s Hs)
      as ([[[i j] k] l] & d & row & col & x & Hin & Hd & Hr' & Hc' & _).
    apply elem_of_combos22 in Hin as (Hi & Hj & Hk & Hl & _).
    rewrite Hr' in Hr. rewrite Hc' in Hc. injection Hr as <-. injection Hc as <-.
    unfold triple22, base, num in Hd.
    destruct d as [|[|[|d]]]; cbn in Hd; [| | |done];
      injection Hd as <- <- _; nia.
  - intros s Hs.
    rewrite <- (length_entries22 kt kr p2 ycte2) in Hs.
    apply ycte22_pad. rewrite fkCBFycte22_written in Hs.
    cbn [coo_matrix coo_row] in Hs.
    pose proof (written_lengths _ _ (entries22_fit kt kr p2 ycte2 row0 col0))
      as (Hlen & _). rewrite Hlen in Hs. exact Hs.
  - intros s r c Hs Hr Hc.
    rewrite <- (length_entries12 kt kr p1 p2 xcte1 ycte2 row0 col0) in Hs.
    destruct (xycte12_slot_inv kt kr p1 p2 xcte1 ycte2 size row0 col0 s Hs)
      as ([[[i j] k] l] & d & row & col & x & Hin & Hd & Hr' & Hc' & _).
    apply elem_of_combos12 in Hin as (Hi & Hj & Hk & Hl).
    rewrite Hr' in Hr. rewrite Hc' in Hc. injection Hr as <-. injection Hc as <-.
    unfold quad12, base, num in Hd.
    destruct d as [|[|[|[|d]]]]; cbn in Hd; [| | | |done];
      injection Hd as <- <- _; nia.
  - intros Hm1 Hn1 Hm2 Hn2. rewrite fkCBFxycte12_written.
    cbn [coo_matrix coo_row].
    pose proof (written_lengths _ _
                  (entries12_fit kt kr p1 p2 xcte1 ycte2 row0 col0))
      as (Hlen & _). rewrite Hlen.
    rewrite length_combos12. unfold fdim12.
    rewrite !Z2Nat.inj_mul by nia. change (Z.to_nat 4) with 4%nat. lia.
Qed.

(** C2 (amended): in [fkCBFxycte12] the four values of the q-th combination
    (i1, j1, k2, l2), in the order (u,w), (v,u), (w,v), (w,w), carry the
    signs -, -, +, -.  The first three are [0.25*b1*a2] times the integral,
    the two basis values and [kt]; the (w,w) value has the sign of the
    first two, opposite to the third, and is
    [-1*b1*a2 * integral * fxi_w * geta_w * kr / (a1*b2)].  Each is added
    to the zero of the fresh array. *)
Theorem fkCBFxycte12_values (kt kr : D) (p1 p2 : Panel.t D) (xcte1 ycte2 : D)
    (size row0 col0 : Z) (q : nat) (i1 j1 k2 l2 : Z) :
  combos12 (Panel.m p1) (Panel.n p1) (Panel.m p2) (Panel.n p2) !! q
    = Some (i1, j1, k2, l2) ->
  let K := fkCBFxycte12 kt kr p1 p2 xcte1 ycte2 size row0 col0 in
  let a1 := Panel.a p1 in let b1 := Panel.b p1 in
  let a2 := Panel.a p2 in let b2 := Panel.b p2 in
  let xicte1 := (c2 * xcte1 / a1 - c1)%D in
  let etacte2 := (c2 * ycte2 / b2 - c1)%D in
  let g1Auf2Bw := integral_ff j1 k2
        (Panel.u1ty p1) (Panel.u1ry p1) (Panel.u2ty p1) (Panel.u2ry p1)
        (Panel.w1tx p2) (Panel.w1rx p2) (Panel.w2tx p2) (Panel.w2rx p2) in
  let g1Avf2Bu := integral_ff j1 k2
        (Panel.v1ty p1) (Panel.v1ry p1) (Panel.v2ty p1) (Panel.v2ry p1)
        (Panel.u1tx p2) (Panel.u1rx p2) (Panel.u2tx p2) (Panel.u2rx p2) in
  let g1Awf2Bv := integral_ff j1 k2
        (Panel.w1ty p1) (Panel.w1ry p1) (Panel.w2ty p1) (Panel.w2ry p1)
        (Panel.v1tx p2) (Panel.v1rx p2) (Panel.v2tx p2) (Panel.v2rx p2) in
  let g1Awf2Bw := integral_ff j1 k2
        (Panel.w1ty p1) (Panel.w1ry p1) (Panel.w2ty p1) (Panel.w2ry p1)
        (Panel.w1tx p2) (Panel.w1rx p2) (Panel.w2tx p2) (Panel.w2rx p2) in
  let f1Au := calc_f i1 xicte1
        (Panel.u1tx p1) (Panel.u1rx p1) (Panel.u2tx p1) (Panel.u2rx p1) in
  let f1Av := calc_f i1 xicte1
        (Panel.v1tx p1) (Panel.v1rx p1) (Panel.v2tx p1) (Panel.v2rx p1) in
  let f1Aw := calc_f i1 xicte1
        (Panel.w1tx p1) (Panel.w1rx p1) (Panel.w2tx p1) (Panel.w2rx p1) in
  let f1Awxi := calc_fxi i1 xicte1
        (Panel.w1tx p1) (Panel.w1rx p1) (Panel.w2tx p1) (Panel.w2rx p1) in
  let g2Bu := calc_f l2 etacte2
        (Panel.u1ty p2) (Panel.u1ry p2) (Panel.u2ty p2) (Panel.u2ry p2) in
  let g2Bv := calc_f l2 etacte2
        (Panel.v1ty p2) (Panel.v1ry p2) (Panel.v2ty p2) (Panel.v2ry p2) in
  let g2Bw := calc_f l2 etacte2
        (Panel.w1ty p2) (Panel.w1ry p2) (Panel.w2ty p2) (Panel.w2ry p2) in
  let g2Bwxi := calc_fxi l2 etacte2
        (Panel.w1ty p2) (Panel.w1ry p2) (Panel.w2ty p2) (Panel.w2ry p2) in
  coo_data K !! (4 * q + 0)%nat
    = Some (c0 + - c0_25 * b1 * a2 * g1Auf2Bw * f1Au * g2Bw * kt)%D
  /\ coo_data K !! (4 * q + 1)%nat
    = Some (c0 + - c0_25 * b1 * a2 * g1Avf2Bu * f1Av * g2Bu * kt)%D
  /\ coo_data K !! (4 * q + 2)%nat
    = Some (c0 + c0_25 * b1 * a2 * g1Awf2Bv * f1Aw * g2Bv * kt)%D
  /\ coo_data K !! (4 * q + 3)%nat
    = Some (c0 + - c1 * b1 * a2 * g1Awf2Bw * f1Awxi * g2Bwxi * kr
                   / (a1 * b2))%D.
Proof.
  intros Hq. cbv zeta.
  pose proof (fun d row col x =>
                xycte12_slot kt kr p1 p2 xcte1 ycte2 size row0 col0
                  q d (i1, j1, k2, l2) row col x Hq) as Hslot.
  repeat apply conj.
  - exact (proj2 (proj2 (Hslot 0%nat _ _ _ eq_refl))).
  - exact (proj2 (proj2 (Hslot 1%nat _ _ _ eq_refl))).
  - exact (proj2 (proj2 (Hslot 2%nat _ _ _ eq_refl))).
  - exact (proj2 (proj2 (Hslot 3%nat _ _ _ eq_refl))).
Qed.

(** C4 (amended): [fkCBFxcte11] and [fkCBFycte22] leave entries only at
    positions with row <= col, in every slot of the returned arrays.  On a
    diagonal block (row0 = col0) every combination of basis terms or its
    mirror (k, l, i, j) is emitted.  When the multiplication is commutative
    and associative (exact arithmetic) and [integral_ff] is symmetric in
    its two indices, the entry that the formulas give to the mirror
    combination is the emitted entry at the transposed position, with the
    same value.  In binary64 the values of a combination and of its
    mirror can differ by rounding. *)
Theorem upper_triangle_and_mirror (kt kr : D) (p1 p2 : Panel.t D)
    (xcte1 ycte2 : D) (size row0 col0 : Z) :
  let m1 := Panel.m p1 in let n1 := Panel.n p1 in
  let m2 := Panel.m p2 in let n2 := Panel.n p2 in
  let K11 := fkCBFxcte11 kt kr p1 xcte1 size row0 col0 in
  let K22 := fkCBFycte22 kt kr p1 p2 ycte2 size row0 col0 in
  (forall (s : nat) (r c : Z),
     coo_row K11 !! s = Some r -> coo_col K11 !! s = Some c -> r <= c)
  /\ (forall (s : nat) (r c : Z),
     coo_row K22 !! s = Some r -> coo_col K22 !! s = Some c -> r <= c)
  /\ (row0 = col0 -> forall i j k l : Z,
     0 <= i < m1 -> 0 <= j < n1 -> 0 <= k < m1 -> 0 <= l < n1 ->
     (i, j, k, l) ∈ combos11 m1 n1 row0 col0
     \/ (k, l, i, j) ∈ combos11 m1 n1 row0 col0)
  /\ (row0 = col0 -> forall i j k l : Z,
     0 <= i < m2 -> 0 <= j < n2 -> 0 <= k < m2 -> 0 <= l < n2 ->
     (i, j, k, l) ∈ combos22 m2 n2 row0 col0
     \/ (k, l, i, j) ∈ combos22 m2 n2 row0 col0)
  /\ (ExactMul D -> integral_symmetric -> row0 = col0 ->
     forall (q d : nat) (i j k l r c : Z) (x : D),
     combos11 m1 n1 row0 col0 !! q = Some (i, j, k, l) ->
     triple11 kt kr p1 xcte1 row0 col0 (k, l, i, j) !! d = Some (c, r, x) ->
     coo_row K11 !! (3 * q + d)%nat = Some r
     /\ coo_col K11 !! (3 * q + d)%nat = Some c
     /\ coo_data K11 !! (3 * q + d)%nat = Some (c0 + x)%D)
  /\ (ExactMul D -> integral_symmetric -> row0 = col0 ->
     forall (q d : nat) (i j k l r c : Z) (x : D),
     combos22 m2 n2 row0 col0 !! q = Some (i, j, k, l) ->
     triple22 kt kr p2 ycte2 row0 col0 (k, l, i, j) !! d = Some (c, r, x) ->
     coo_row K22 !! (3 * q + d)%nat = Some r
     /\ coo_col K22 !! (3 * q + d)%nat = Some c
     /\ coo_data K22 !! (3 * q + d)%nat = Some (c0 + x)%D).
Proof.
  cbv zeta. repeat apply conj.
  - intros s r c Hr Hc.
    destruct (Nat.lt_ge_cases s (length (entries11 kt kr p1 xcte1 row0 col0)))
      as [Hs|Hs].
    + destruct (xcte11_slot_inv kt kr p1 xcte1 size row0 col0 s Hs)
        as ([[[i j] k] l] & d & row & col & x & Hin & Hd & Hr' & Hc' & _).
      apply elem_of_combos11 in Hin as (_ & _ & _ & _ & Hle).
      rewrite Hr' in Hr. rewrite Hc' in Hc. injection Hr as <-. injection Hc as <-.
      unfold triple11 in Hd.
      destruct d as [|[|[|d]]]; cbn in Hd; [| | |done];
        injection Hd as <- <- _; lia.
    + assert (s < Z.to_nat (fdim11 p1))%nat as Hlt.
      { apply lookup_lt_Some in Hr. rewrite fkCBFxcte11_written in Hr.
        cbn [coo_matrix coo_row] in Hr.
        pose proof (written_lengths _ _ (entries11_fit kt kr p1 xcte1 row0 col0))
          as (Hlen & _). rewrite Hlen in Hr. exact Hr. }
      destruct (xcte11_pad kt kr p1 xcte1 size row0 col0 s (conj Hs Hlt))
        as (Hr' & Hc' & _).
      rewrite Hr' in Hr. rewrite Hc' in Hc. injection Hr as <-. injection Hc as <-.
      lia.
  - intros s r c Hr Hc.
    destruct (Nat.lt_ge_cases s (length (entries22 kt kr p2 ycte2 row0 col0)))
      as [Hs|Hs].
    + destruct (ycte22_slot_inv kt kr p1 p2 ycte2 size row0 col0 s Hs)
        as ([[[i j] k] l] & d & row & col & x & Hin & Hd & Hr' & Hc' & _).
      apply elem_of_combos22 in Hin as (_ & _ & _ & _ & Hle).
      rewrite Hr' in Hr. rewrite Hc' in Hc. injection Hr as <-. injection Hc as <-.
      unfold triple22 in Hd.
      destruct d as [|[|[|d]]]; cbn in Hd; [| | |done];
        injection Hd as <- <- _; lia.
    + assert (s < Z.to_nat (fdim11 p2))%nat as Hlt.
      { apply lookup_lt_Some in Hr. rewrite fkCBFycte22_written in Hr.
        cbn [coo_matrix coo_row] in Hr.
        pose proof (written_lengths _ _ (entries22_fit kt kr p2 ycte2 row0 col0))
          as (Hlen & _). rewrite Hlen in Hr. exact Hr. }
      destruct (ycte22_pad kt kr p1 p2 ycte2 size row0 col0 s (conj Hs Hlt))
        as (Hr' & Hc' & _).
      rewrite Hr' in Hr. rewrite Hc' in Hc. injection Hr as <-. injection Hc as <-.
      lia.
  - intros <- i j k l Hi Hj Hk Hl.
    rewrite !elem_of_combos11. unfold base, num.
    destruct (Z.le_gt_cases (j * Panel.m p1 + i) (l * Panel.m p1 + k));
      [left|right]; repeat split; lia.
  - intros <- i j k l Hi Hj Hk Hl.
    rewrite !elem_of_combos22. unfold base, num.
    destruct (Z.le_gt_cases (j * Panel.m p2 + i) (l * Panel.m p2 + k));
      [left|right]; repeat split; lia.
  - intros EM Hsym <- q d i j k l r c x Hq Hd.
    rewrite (triple11_mirror kt kr p1 xcte1 row0 i j k l Hsym) in Hd.
    rewrite list_lookup_fmap in Hd.
    destruct (triple11 kt kr p1 xcte1 row0 row0 (i, j, k, l) !! d)
      as [[[r' c'] x']|] eqn:He; [|done].
    cbn in Hd. injection Hd as <- <- <-.
    exact (xcte11_slot kt kr p1 xcte1 size row0 row0 q d _ _ _ _ Hq He).
  - intros EM Hsym <- q d i j k l r c x Hq Hd.
    rewrite (triple22_mirror kt kr p2 ycte2 row0 i j k l Hsym) in Hd.
    rewrite list_lookup_fmap in Hd.
    destruct (triple22 kt kr p2 ycte2 row0 row0 (i, j, k, l) !! d)
      as [[[r' c'] x']|] eqn:He; [|done].
    cbn in Hd. injection Hd as <- <- <-.
    exact (ycte22_slot kt kr p1 p2 ycte2 size row0 row0 q d _ _ _ _ Hq He).
Qed.

(** C7 (amended): [fkCBFycte22] is the y-axis dual of [fkCBFxcte11]: the
    same algorithm on panel 2 with a and b, m and n, and the x- and
    y-direction boundary coefficients exchanged, at [ycte2], so with
    prefactor [0.5*a2] and normalisation [1/(b2*b2)], and with the packing
    [j2*m2 + i2] kept.  Rows, columns, shape and length agree always; the
    values agree when the multiplication is commutative and associative,
    because [fkCBFycte22] multiplies the integral before the two basis
    values and [fkCBFxcte11] after them.  In binary64 they can differ by
    rounding. *)
Theorem fkCBFycte22_is_dual (kt kr : D) (p1 p2 : Panel.t D) (ycte2 : D)
    (size row0 col0 : Z) :
  let K := fkCBFycte22 kt kr p1 p2 ycte2 size row0 col0 in
  let Kd := fkCBFycte22_as_dual kt kr p2 ycte2 size row0 col0 in
  coo_row K = coo_row Kd
  /\ coo_col K = coo_col Kd
  /\ coo_shape K = coo_shape Kd
  /\ length (coo_data K) = length (coo_data Kd)
  /\ (ExactMul D -> K = Kd).
Proof.
  cbv zeta. rewrite fkCBFycte22_written, fkCBFycte22_as_dual_written.
  assert (forall f : entry -> Z,
            (forall q, f <$> triple22 kt kr p2 ycte2 row0 col0 q
                       = f <$> triple22_dual kt kr p2 ycte2 row0 col0 q) ->
            f <$> entries22 kt kr p2 ycte2 row0 col0
              = f <$> entries22_dual kt kr p2 ycte2 row0 col0) as Hpos.
  { intros f Hf. unfold entries22, entries22_dual.
    induction (combos22 (Panel.m p2) (Panel.n p2) row0 col0) as [|q qs IH];
      [reflexivity|].
    rewrite !bind_cons, !fmap_app, IH, Hf. reflexivity. }
  assert (length (entries22 kt kr p2 ycte2 row0 col0)
          = length (entries22_dual kt kr p2 ycte2 row0 col0)) as Hlen.
  { rewrite length_entries22. unfold entries22_dual.
    rewrite (bind_length_chunk _ 3) by apply length_triple22_dual.
    reflexivity. }
  cbn [coo_matrix coo_row coo_col coo_data coo_shape written buf_r buf_cl buf_v].
  repeat apply conj.
  - rewrite Hlen. f_equal. apply Hpos. intros [[[i j] k] l]. reflexivity.
  - rewrite Hlen. f_equal. apply Hpos. intros [[[i j] k] l]. reflexivity.
  - reflexivity.
  - rewrite !length_app, !length_fmap, Hlen. reflexivity.
  - intros EM. unfold entries22_dual, entries22.
    erewrite (list_bind_ext (triple22_dual kt kr p2 ycte2 row0 col0));
      [reflexivity| |reflexivity].
    intros q. apply triple22_dual_exact.
Qed.

(** C9 (amended): the divisions of [fkCBFxcte11] have the denominators [a1]
    (normalisation) and [(a1*a1)*kt] (rotational term of every emitted
    combination), those of [fkCBFycte22] have [b2] and [(b2*b2)*kt]; [b1]
    and [a2] are never divided by.  The guarded run reaches its error
    branch exactly when the first denominator is zero, or the second is
    zero as computed and a combination is emitted; otherwise it returns
    what the plain run returns.  Where no product of nonzero numbers is
    zero (exact arithmetic) a nonzero [a1] ([b2]) and a nonzero [kt] are
    enough.  [kr] plays no part: [kt = 0] with [kr = 0] divides 0 by 0. *)
Theorem guarded_runs (kt kr : D) (p1 p2 : Panel.t D) (xcte1 ycte2 : D)
    (size row0 col0 : Z) :
  let a1 := Panel.a p1 in let b2 := Panel.b p2 in
  let emitted11 := combos11 (Panel.m p1) (Panel.n p1) row0 col0 in
  let emitted22 := combos22 (Panel.m p2) (Panel.n p2) row0 col0 in
  (is_zero a1 = false ->
   is_zero (a1 * a1 * kt)%D = false \/ emitted11 = [] ->
   fkCBFxcte11_guarded kt kr p1 xcte1 size row0 col0
     = Some (fkCBFxcte11 kt kr p1 xcte1 size row0 col0))
  /\ (is_zero a1 = true
      \/ (is_zero (a1 * a1 * kt)%D = true /\ emitted11 <> []) ->
   fkCBFxcte11_guarded kt kr p1 xcte1 size row0 col0 = None)
  /\ (is_zero b2 = false ->
   is_zero (b2 * b2 * kt)%D = false \/ emitted22 = [] ->
   fkCBFycte22_guarded kt kr p1 p2 ycte2 size row0 col0
     = Some (fkCBFycte22 kt kr p1 p2 ycte2 size row0 col0))
  /\ (is_zero b2 = true
      \/ (is_zero (b2 * b2 * kt)%D = true /\ emitted22 <> []) ->
   fkCBFycte22_guarded kt kr p1 p2 ycte2 size row0 col0 = None)
  /\ (NoZeroDivisor D ->
   is_zero a1 = false -> is_zero kt = false ->
   fkCBFxcte11_guarded kt kr p1 xcte1 size row0 col0
     = Some (fkCBFxcte11 kt kr p1 xcte1 size row0 col0))
  /\ (NoZeroDivisor D ->
   is_zero b2 = false -> is_zero kt = false ->
   fkCBFycte22_guarded kt kr p1 p2 ycte2 size row0 col0
     = Some (fkCBFycte22 kt kr p1 p2 ycte2 size row0 col0)).
Proof.
  cbv zeta.
  assert (forall x : D, NoZeroDivisor D -> is_zero x = false ->
            is_zero kt = false -> is_zero (x * x * kt)%D = false) as Hprod.
  { intros x NZ Hx Hkt. destruct (is_zero (x * x * kt)%D) eqn:Hz; [|reflexivity].
    apply dmul_zero in Hz as [Hz|Hz]; [|congruence].
    apply dmul_zero in Hz as [Hz|Hz]; congruence. }
  repeat apply conj.
  - intros Ha [Hden|Hnil]; [apply fkCBFxcte11_guarded_Some; assumption|].
    rewrite (fkCBFxcte11_guarded_fold _ _ _ _ _ _ _ Ha), fkCBFxcte11_written.
    unfold entries11. rewrite Hnil, zeros_written. reflexivity.
  - apply fkCBFxcte11_guarded_None.
  - intros Hb [Hden|Hnil]; [apply fkCBFycte22_guarded_Some; assumption|].
    rewrite (fkCBFycte22_guarded_fold _ _ _ _ _ _ _ _ Hb), fkCBFycte22_written.
    unfold entries22. rewrite Hnil, zeros_written. reflexivity.
  - apply fkCBFycte22_guarded_None.
  - intros NZ Ha Hkt. apply fkCBFxcte11_guarded_Some; [exact Ha|].
    apply Hprod; assumption.
  - intros NZ Hb Hkt. apply fkCBFycte22_guarded_Some; [exact Hb|].
    apply Hprod; assumption.
Qed.


End Claims.

(** * Concrete runs

    The procedures evaluated in binary64 and in exact arithmetic on small
    panels, with the sample basis. *)

(** Two binary64 numbers that compare different are different. *)
Lemma float_differ (x y : float) :
  PrimFloat.eqb x x = true -> PrimFloat.eqb x y = false -> x <> y.
Proof. intros Hx Hxy E. rewrite <- E in Hxy. congruence. Qed.

Lemma Some_float_differ (x y : float) :
  PrimFloat.eqb x x = true -> PrimFloat.eqb x y = false -> Some x <> Some y.
Proof. intros Hx Hxy [= E]. exact (float_differ x y Hx Hxy E). Qed.

(** C1: the call with m1 = n1 = m2 = n2 = 1 (a = b = 1, kt = kr = 1,
    xcte1 = ycte2 = 1, row0 = col0 = 0) writes exactly four entries, at
    (0,0), (1,2), (2,1), (2,2): the value built from the (u,w) integral sits
    on (row+0, col+0) and the (v,u) value on (row+1, col+2), not on
    (row+0, col+2) and (row+1, col+0). *)
Theorem fkCBFxycte12_unit_orders :
  let p := sample_panel 1%float 1%float 1 1 in
  let K := fkCBFxycte12 (BD := monomials) 1%float 1%float p p
             1%float 1%float 3 0 0 in
  let xi := normalised 1%float 1%float in
  coo_row K = [0; 1; 2; 2]
  /\ coo_col K = [0; 2; 1; 2]
  /\ coo_data K
     = [ (c0 + val12_uw (BD := monomials) 1%float p p xi xi (0, 0, 0, 0))%D;
         (c0 + val12_vu (BD := monomials) 1%float p p xi xi (0, 0, 0, 0))%D;
         (c0 + val12_wv (BD := monomials) 1%float p p xi xi (0, 0, 0, 0))%D;
         (c0 + val12_ww (BD := monomials) 1%float p p xi xi (0, 0, 0, 0))%D ]
  /\ coo_col K <> [2; 0; 1; 2].
Proof.
  cbv zeta. repeat apply conj; try (vm_compute; reflexivity).
  vm_compute. discriminate.
Qed.

(** C2, the claim refuted: with every factor positive (a = b = 1, kt = kr = 1,
    xi = eta = 1, positive basis values and integrals) the four values are
    negative, negative, positive, negative, not +, -, -, +; the first is
    -0.75 = -0.25 * 3 where the prefactor 0.5 would give 1.5 in size. *)
Lemma fkCBFxycte12_signs_differ :
  let p := sample_panel 1%float 1%float 1 1 in
  let K := fkCBFxycte12 (BD := monomials) 1%float 1%float p p
             1%float 1%float 3 0 0 in
  (fun v => PrimFloat.ltb 0 v) <$> coo_data K <> [true; false; false; true]
  /\ (fun v => PrimFloat.ltb 0 v) <$> coo_data K = [false; false; true; false]
  /\ coo_data K !! 0%nat = Some (-0.75)%float.
Proof.
  cbv zeta. repeat apply conj; vm_compute; [discriminate|reflexivity..].
Qed.

Lemma fkCBFxycte12_values_run :
  let p := sample_panel 1%float 1%float 1 1 in
  let K := fkCBFxycte12 (BD := monomials) 1%float 1%float p p
             1%float 1%float 3 0 0 in
  coo_data K !! 0%nat = Some (-0.75)%float
  /\ coo_data K !! 1%nat = Some (- (1 / 3))%float
  /\ coo_data K !! 2%nat = Some 3%float
  /\ coo_data K !! 3%nat = Some (-27)%float.
Proof.
  pose proof (fkCBFxycte12_values (BD := monomials) 1%float 1%float
                (sample_panel 1%float 1%float 1 1)
                (sample_panel 1%float 1%float 1 1)
                1%float 1%float 3 0 0 0 0 0 0 0 eq_refl) as H.
  vm_compute in H |- *. exact H.
Defined.

Lemma fkCBFxcte11_ww_entry_run :
  let p := sample_panel 1%float 1%float 2 1 in
  let K := fkCBFxcte11 (BD := monomials) 1%float 1%float p 1%float 6 0 0 in
  coo_row K !! 8%nat = Some 5
  /\ coo_col K !! 8%nat = Some 5
  /\ coo_data K !! 8%nat = Some 229.5%float.
Proof.
  pose proof (fkCBFxcte11_ww_entry (BD := monomials) 1%float 1%float
                (sample_panel 1%float 1%float 2 1) 1%float 6 0 0
                2 1 0 1 0 eq_refl) as H.
  vm_compute in H |- *. exact H.
Defined.

(** C5, the claim refuted: m = 2, n = 1, row0 = col0 = 3.  Slot 9 of the
    returned lists is the pair (0, 0), outside the block 3..8. *)
Lemma returned_pairs_leave_block :
  let p := sample_panel 1%float 1%float 2 1 in
  let K := fkCBFxcte11 (BD := monomials) 1%float 1%float p 1%float 9 3 3 in
  ~ (forall (s : nat) (r c : Z),
       coo_row K !! s = Some r -> coo_col K !! s = Some c ->
       3 <= r < 3 + 3 * 2 * 1 /\ 3 <= c < 3 + 3 * 2 * 1).
Proof.
  cbv zeta. intros H.
  specialize (H 9%nat 0 0 eq_refl eq_refl). lia.
Qed.

Lemma written_pairs_in_block_run :
  let p := sample_panel 1%float 1%float 2 1 in
  let K := fkCBFxcte11 (BD := monomials) 1%float 1%float p 1%float 9 3 3 in
  (3 <= 8 < 3 + 3 * 2 * 1 /\ 3 <= 8 < 3 + 3 * 2 * 1)
  /\ (coo_row K !! 9%nat = Some 0 /\ coo_col K !! 9%nat = Some 0
      /\ coo_data K !! 9%nat = Some 0%float).
Proof.
  pose proof (written_pairs_in_block (BD := monomials) 1%float 1%float
                (sample_panel 1%float 1%float 2 1)
                (sample_panel 1%float 1%float 2 1)
                1%float 1%float 9 3 3) as H.
  cbv zeta in H. destruct H as (Hin & Hpad & _).
  split.
  - exact (Hin 8%nat 8 8 ltac:(vm_compute; lia) eq_refl eq_refl).
  - exact (Hpad 9%nat ltac:(vm_compute; lia)).
Defined.

(** C4, the claim refuted in binary64: a = 5, b = 3, m = 2, n = 1,
    xcte = 1, kt = 1, with the symmetric integral of the sample basis.  On
    the diagonal block the combination (i,j,k,l) = (0,0,1,0) is emitted at
    (0,3) and its mirror (1,0,0,0) is skipped.  Placed off the diagonal
    (col0 = 6) the same call skips nothing and gives the mirror its value:
    the two u values differ in the last bit. *)
Lemma mirrored_values_differ :
  let p := sample_panel 5%float 3%float 2 1 in
  let K := fkCBFxcte11 (BD := monomials) 1%float 1%float p 1%float 6 0 0 in
  let Kall := fkCBFxcte11 (BD := monomials) 1%float 1%float p 1%float 12 0 6 in
  combos11 2 1 0 0 = [(0, 0, 0, 0); (0, 0, 1, 0); (1, 0, 1, 0)]
  /\ combos11 2 1 0 6 = [(0, 0, 0, 0); (0, 0, 1, 0); (1, 0, 0, 0); (1, 0, 1, 0)]
  /\ (coo_row K !! 3%nat = Some 0 /\ coo_col K !! 3%nat = Some 3
      /\ coo_data K !! 3%nat = coo_data Kall !! 3%nat)
  /\ coo_data Kall !! 3%nat <> coo_data Kall !! 6%nat.
Proof.
  cbv zeta. repeat apply conj; try (vm_compute; reflexivity).
  vm_compute. apply Some_float_differ; vm_compute; reflexivity.
Qed.

Lemma upper_triangle_and_mirror_run :
  let p := sample_panel 5%Q 3%Q 2 1 in
  let K := fkCBFxcte11 (BD := monomials) 1%Q 1%Q p 1%Q 6 0 0 in
  coo_row K !! 3%nat = Some 0
  /\ coo_col K !! 3%nat = Some 3
  /\ coo_data K !! 3%nat
     = Some (c0 + val11_u (BD := monomials) 1%Q p
                    (normalised 1%Q 5%Q) (1, 0, 0, 0))%D.
Proof.
  pose proof (upper_triangle_and_mirror (BD := monomials) 1%Q 1%Q
                (sample_panel 5%Q 3%Q 2 1) (sample_panel 5%Q 3%Q 2 1)
                1%Q 1%Q 6 0 0) as H.
  cbv zeta in H. destruct H as (_ & _ & _ & _ & Hmirror & _).
  exact (Hmirror exactQ_mul monomials_symmetric eq_refl
           1%nat 0%nat 0 0 1 0 0 3 _ eq_refl eq_refl).
Defined.

(** C7, the claim refuted in binary64: a2 = 1, b2 = 5, m2 = n2 = 1,
    ycte2 = 1, kt = kr = 1.  The u value of [fkCBFycte22] and the u value
    of the dual differ in the last bit. *)
Lemma dual_values_differ :
  let p := sample_panel 1%float 5%float 1 1 in
  let K := fkCBFycte22 (BD := monomials) 1%float 1%float p p 1%float 3 0 0 in
  let Kd := fkCBFycte22_as_dual (BD := monomials) 1%float 1%float p
              1%float 3 0 0 in
  coo_data K <> coo_data Kd
  /\ coo_data K !! 0%nat <> coo_data Kd !! 0%nat.
Proof.
  cbv zeta.
  assert (coo_data
            (fkCBFycte22 (BD := monomials) 1%float 1%float
               (sample_panel 1%float 5%float 1 1)
               (sample_panel 1%float 5%float 1 1) 1%float 3 0 0) !! 0%nat
          <> coo_data
               (fkCBFycte22_as_dual (BD := monomials) 1%float 1%float
                  (sample_panel 1%float 5%float 1 1) 1%float 3 0 0) !! 0%nat)
    as Hne.
  { vm_compute. apply Some_float_differ; vm_compute; reflexivity. }
  split; [|exact Hne]. intros H. apply Hne. rewrite H. reflexivity.
Qed.

Lemma fkCBFycte22_is_dual_run :
  let p := sample_panel 1%Q 5%Q 2 2 in
  fkCBFycte22 (BD := monomials) 1%Q 1%Q p p 1%Q 12 0 0
    = fkCBFycte22_as_dual (BD := monomials) 1%Q 1%Q p 1%Q 12 0 0.
Proof.
  exact (proj2 (proj2 (proj2 (proj2
           (fkCBFycte22_is_dual (BD := monomials) 1%Q 1%Q
              (sample_panel 1%Q 5%Q 2 2) (sample_panel 1%Q 5%Q 2 2)
              1%Q 12 0 0)))) exactQ_mul).
Defined.

(** C9, the claim refuted.  First: a = b = 1, m = n = 1, kt = 0 and kr = 0,
    which is not the combination kt = 0 with kr <> 0 and violates no other
    precondition; the rotational term divides by (a*a)*kt = 0, in binary64
    and in exact arithmetic alike.  Second, in binary64: a = b = 2^-600 > 0
    and kt = 1 <> 0, where a*a underflows to zero. *)
Lemma division_by_zero_reached :
  (let p := sample_panel 1%float 1%float 1 1 in
   fkCBFxcte11_guarded (BD := monomials) 0%float 0%float p 1%float 3 0 0 = None
   /\ fkCBFycte22_guarded (BD := monomials) 0%float 0%float p p 1%float 3 0 0
      = None)
  /\ (let p := sample_panel 1%Q 1%Q 1 1 in
   fkCBFxcte11_guarded (BD := monomials) 0%Q 0%Q p 1%Q 3 0 0 = None
   /\ fkCBFycte22_guarded (BD := monomials) 0%Q 0%Q p p 1%Q 3 0 0 = None)
  /\ (let p := sample_panel 0x1p-600%float 0x1p-600%float 1 1 in
   PrimFloat.ltb 0 0x1p-600 = true
   /\ PrimFloat.eqb 1 0 = false
   /\ fkCBFxcte11_guarded (BD := monomials) 1%float 1%float p 0%float 3 0 0
      = None
   /\ fkCBFycte22_guarded (BD := monomials) 1%float 1%float p p 0%float 3 0 0
      = None).
Proof. cbv zeta. repeat apply conj; vm_compute; reflexivity. Qed.

Lemma guarded_runs_run :
  (let p := sample_panel 1%float 1%float 2 1 in
   fkCBFxcte11_guarded (BD := monomials) 1%float 1%float p 1%float 6 0 0
     = Some (fkCBFxcte11 (BD := monomials) 1%float 1%float p 1%float 6 0 0))
  /\ (let p := sample_panel 1%float 1%float 2 1 in
   fkCBFxcte11_guarded (BD := monomials) 0%float 1%float p 1%float 6 0 0
     = None)
  /\ (let p := sample_panel 1%Q 5%Q 2 2 in
   fkCBFycte22_guarded (BD := monomials) 1%Q 1%Q p p 1%Q 12 0 0
     = Some (fkCBFycte22 (BD := monomials) 1%Q 1%Q p p 1%Q 12 0 0)).
Proof.
  cbv zeta. repeat apply conj.
  - exact (proj1 (guarded_runs (BD := monomials) 1%float 1%float
                    (sample_panel 1%float 1%float 2 1)
                    (sample_panel 1%float 1%float 2 1)
                    1%float 1%float 6 0 0) eq_refl (or_introl eq_refl)).
  - refine (proj1 (proj2 (guarded_runs (BD := monomials) 0%float 1%float
                    (sample_panel 1%float 1%float 2 1)
                    (sample_panel 1%float 1%float 2 1)
                    1%float 1%float 6 0 0)) (or_intror (conj eq_refl _))).
    vm_compute. discriminate.
  - exact (proj2 (proj2 (proj2 (proj2 (proj2
             (guarded_runs (BD := monomials) 1%Q 1%Q
                (sample_panel 1%Q 5%Q 2 2) (sample_panel 1%Q 5%Q 2 2)
                1%Q 1%Q 12 0 0)))))
             exactQ_integral eq_refl eq_refl).
Defined.



(** * Further properties of the three procedures

    ** Lemmas *)

Section More.
Context {D : Type} {AD : Arith D} {BD : Bardell D}.

Lemma fkCBFxycte12_guarded_fold kt kr p1 p2 xcte1 ycte2 size row0 col0 :
  is_zero (Panel.a p1) = false ->
  is_zero (Panel.b p2) = false ->
  fkCBFxycte12_guarded kt kr p1 p2 xcte1 ycte2 size row0 col0
    = (st ← gfold (gemit12 kt kr p1 p2 (normalised xcte1 (Panel.a p1))
                     (normalised ycte2 (Panel.b p2)) row0 col0)
              (Some (zeros (fdim12 p1 p2)))
              (combos12 (Panel.m p1) (Panel.n p1) (Panel.m p2) (Panel.n p2));
       Some (coo_matrix st size)).
Proof.
  intros Ha Hb. unfold fkCBFxycte12_guarded. cbv zeta.
  rewrite (gdiv_Some _ _ Ha). cbn [mbind option_bind].
  rewrite (gdiv_Some _ _ Hb). cbn [mbind option_bind]. f_equal.
  unfold combos12, fdim12.
  apply foldl_gfold_bind. intros sa j1.
  apply foldl_gfold_bind. intros sb k2.
  apply foldl_gfold_bind. intros sc i1.
  apply foldl_gfold_bind. intros sd l2.
  destruct sd as [s|]; reflexivity.
Qed.

(** A guarded loop in which no combination fails is the plain loop. *)
Lemma gfold_emits (t : buf -> combo -> option buf) (f : combo -> list entry)
    (qs : list combo) :
  (forall st q, t st q = Some (emits st (f q))) ->
  forall st, gfold t (Some st) qs = Some (emits st (qs ≫= f)).
Proof.
  intros Ht. induction qs as [|q qs IH]; intros st; [reflexivity|].
  change (q :: qs) with ([q] ++ qs). rewrite gfold_app.
  unfold gfold at 2. cbn [foldl mbind option_bind]. rewrite Ht.
  rewrite IH. change ([q] ++ qs) with (q :: qs).
  rewrite bind_cons, emits_app. reflexivity.
Qed.

Lemma fkCBFxycte12_guarded_Some kt kr p1 p2 xcte1 ycte2 size row0 col0 :
  is_zero (Panel.a p1) = false ->
  is_zero (Panel.b p2) = false ->
  is_zero (Panel.a p1 * Panel.b p2)%D = false
  \/ combos12 (Panel.m p1) (Panel.n p1) (Panel.m p2) (Panel.n p2) = [] ->
  fkCBFxycte12_guarded kt kr p1 p2 xcte1 ycte2 size row0 col0
    = Some (fkCBFxycte12 kt kr p1 p2 xcte1 ycte2 size row0 col0).
Proof.
  intros Ha Hb Hden.
  rewrite (fkCBFxycte12_guarded_fold _ _ _ _ _ _ _ _ _ Ha Hb).
  rewrite fkCBFxycte12_written, <- emits_zeros by apply entries12_fit.
  unfold entries12. destruct Hden as [Hden|Hnil].
  - rewrite (gfold_emits _ (quad12 kt kr p1 p2 xcte1 ycte2 row0 col0));
      [reflexivity|].
    intros st [[[i j] k] l]. unfold gemit12. cbv zeta.
    rewrite (gdiv_Some _ _ Hden). reflexivity.
  - rewrite Hnil. reflexivity.
Qed.

Lemma fkCBFxycte12_guarded_None kt kr p1 p2 xcte1 ycte2 size row0 col0 :
  is_zero (Panel.a p1) = true
  \/ is_zero (Panel.b p2) = true
  \/ (is_zero (Panel.a p1 * Panel.b p2)%D = true
      /\ combos12 (Panel.m p1) (Panel.n p1) (Panel.m p2) (Panel.n p2) <> []) ->
  fkCBFxycte12_guarded kt kr p1 p2 xcte1 ycte2 size row0 col0 = None.
Proof.
  intros H.
  destruct (is_zero (Panel.a p1)) eqn:Ha.
  { unfold fkCBFxycte12_guarded. cbv zeta. rewrite (gdiv_None _ _ Ha).
    reflexivity. }
  destruct (is_zero (Panel.b p2)) eqn:Hb.
  { unfold fkCBFxycte12_guarded. cbv zeta.
    rewrite (gdiv_Some _ _ Ha). cbn [mbind option_bind].
    rewrite (gdiv_None _ _ Hb). reflexivity. }
  destruct H as [H|[H|[Hden Hne]]]; [discriminate..|].
  rewrite (fkCBFxycte12_guarded_fold _ _ _ _ _ _ _ _ _ Ha Hb).
  rewrite gfold_fails; [reflexivity| |exact Hne].
  intros s [[[i j] k] l]. unfold gemit12. cbv zeta.
  rewrite (gdiv_None _ _ Hden). reflexivity.
Qed.

(** *** Positions *)

Lemma fmap_bind_ext {A B C : Type} (f : B -> C) (t1 : A -> list B)
    (t2 : A -> list C) (l : list A) :
  (forall x, f <$> t1 x = t2 x) -> f <$> (l ≫= t1) = l ≫= t2.
Proof.
  intros Hf. induction l as [|x l IH]; [reflexivity|].
  rewrite !bind_cons, fmap_app, IH, Hf. reflexivity.
Qed.

Lemma positions_entries11 kt kr p1 xcte1 row0 col0 :
  position <$> entries11 kt kr p1 xcte1 row0 col0
    = combos11 (Panel.m p1) (Panel.n p1) row0 col0
        ≫= places11 (Panel.m p1) row0 col0.
Proof. apply fmap_bind_ext. intros [[[i j] k] l]. reflexivity. Qed.

Lemma positions_entries22 kt kr p2 ycte2 row0 col0 :
  position <$> entries22 kt kr p2 ycte2 row0 col0
    = combos22 (Panel.m p2) (Panel.n p2) row0 col0
        ≫= places11 (Panel.m p2) row0 col0.
Proof. apply fmap_bind_ext. intros [[[i j] k] l]. reflexivity. Qed.

Lemma positions_entries12 kt kr p1 p2 xcte1 ycte2 row0 col0 :
  position <$> entries12 kt kr p1 p2 xcte1 ycte2 row0 col0
    = combos12 (Panel.m p1) (Panel.n p1) (Panel.m p2) (Panel.n p2)
        ≫= places12 (Panel.m p1) (Panel.m p2) row0 col0.
Proof. apply fmap_bind_ext. intros [[[i j] k] l]. reflexivity. Qed.

(** The row and column arrays are the positions, then zeros. *)
Lemma written_rows_cols (es : list entry) (N : nat) :
  buf_r (written es N) = (fst <$> (position <$> es)) ++ replicate (N - length es) 0
  /\ buf_cl (written es N)
     = (snd <$> (position <$> es)) ++ replicate (N - length es) 0.
Proof.
  cbn [written buf_r buf_cl]. rewrite <- !list_fmap_compose. split; reflexivity.
Qed.

Lemma written_position (es : list entry) (N s : nat) (r c : Z) :
  (s < length es)%nat ->
  buf_r (written es N) !! s = Some r ->
  buf_cl (written es N) !! s = Some c ->
  (position <$> es) !! s = Some (r, c).
Proof.
  intros Hs Hr Hc.
  destruct (written_lookup_inv es N s Hs) as (r' & c' & x & He & Hr' & Hc' & _).
  rewrite Hr' in Hr. rewrite Hc' in Hc. injection Hr as <-. injection Hc as <-.
  rewrite list_lookup_fmap. unfold entry in *. rewrite He. reflexivity.
Qed.

(** The block number [j*m + i] determines the basis term. *)
Lemma pack_inj (m i j i' j' : Z) :
  0 <= i < m -> 0 <= i' < m -> j * m + i = j' * m + i' -> i = i' /\ j = j'.
Proof.
  intros Hi Hi' Heq.
  destruct (Z.lt_trichotomy j j') as [Hlt|[->|Hgt]]; [nia|lia|nia].
Qed.

(** *** No combination is visited twice *)

Lemma NoDup_bind_tag {A B : Type} (tag : B -> A) (f : A -> list B)
    (l : list A) :
  NoDup l ->
  (forall x y, x ∈ l -> y ∈ f x -> tag y = x) ->
  (forall x, x ∈ l -> NoDup (f x)) ->
  NoDup (l ≫= f).
Proof.
  intros Hl Htag Hf. apply NoDup_bind; [|exact Hf|exact Hl].
  intros x1 x2 y H1 H2 Hy1 Hy2.
  rewrite <- (Htag x1 y H1 Hy1). apply Htag; assumption.
Qed.

Lemma NoDup_range (n : Z) : NoDup (range n).
Proof. apply NoDup_seqZ. Qed.

Lemma NoDup_guarded_singleton {A : Type} (b : bool) (x : A) :
  NoDup (if b then [] else [x]).
Proof. destruct b; [apply NoDup_nil_2|apply NoDup_singleton]. Qed.

Lemma elem_of_guarded_singleton {A : Type} (b : bool) (x y : A) :
  y ∈ (if b then [] else [x]) -> y = x.
Proof.
  destruct b; intros H; [by apply elem_of_nil in H|].
  by apply list_elem_of_singleton in H.
Qed.

Ltac tag_of_member :=
  intros ? ? _ Hy;
  repeat (apply list_elem_of_bind in Hy as (? & Hy & _));
  first [apply elem_of_guarded_singleton in Hy
        |apply list_elem_of_singleton in Hy];
  subst; reflexivity.

Lemma NoDup_combos11 m1 n1 row0 col0 : NoDup (combos11 m1 n1 row0 col0).
Proof.
  unfold combos11.
  apply (NoDup_bind_tag (fun q : combo => q.1.1.2));
    [apply NoDup_range|tag_of_member|intros j _].
  apply (NoDup_bind_tag (fun q : combo => q.2));
    [apply NoDup_range|tag_of_member|intros l _].
  apply (NoDup_bind_tag (fun q : combo => q.1.1.1));
    [apply NoDup_range|tag_of_member|intros i _].
  apply (NoDup_bind_tag (fun q : combo => q.1.2));
    [apply NoDup_range|tag_of_member|intros k _].
  apply NoDup_guarded_singleton.
Qed.

Lemma NoDup_combos22 m2 n2 row0 col0 : NoDup (combos22 m2 n2 row0 col0).
Proof.
  unfold combos22.
  apply (NoDup_bind_tag (fun q : combo => q.1.1.1));
    [apply NoDup_range|tag_of_member|intros i _].
  apply (NoDup_bind_tag (fun q : combo => q.1.2));
    [apply NoDup_range|tag_of_member|intros k _].
  apply (NoDup_bind_tag (fun q : combo => q.1.1.2));
    [apply NoDup_range|tag_of_member|intros j _].
  apply (NoDup_bind_tag (fun q : combo => q.2));
    [apply NoDup_range|tag_of_member|intros l _].
  apply NoDup_guarded_singleton.
Qed.

Lemma NoDup_combos12 m1 n1 m2 n2 : NoDup (combos12 m1 n1 m2 n2).
Proof.
  unfold combos12.
  apply (NoDup_bind_tag (fun q : combo => q.1.1.2));
    [apply NoDup_range|tag_of_member|intros j _].
  apply (NoDup_bind_tag (fun q : combo => q.1.2));
    [apply NoDup_range|tag_of_member|intros k _].
  apply (NoDup_bind_tag (fun q : combo => q.1.1.1));
    [apply NoDup_range|tag_of_member|intros i _].
  apply (NoDup_bind_tag (fun q : combo => q.2));
    [apply NoDup_range|tag_of_member|intros l _].
  apply NoDup_singleton.
Qed.

(** *** No position is written twice *)

Lemma elem_of_places11 m row0 col0 i j k l r c :
  (r, c) ∈ places11 m row0 col0 (i, j, k, l) ->
  exists d, 0 <= d < 3 /\ r = base row0 m i j + d /\ c = base col0 m k l + d.
Proof.
  unfold places11. rewrite !elem_of_cons, elem_of_nil.
  intros [H|[H|[H|[]]]]; injection H as -> ->;
    [exists 0|exists 1|exists 2]; lia.
Qed.

Lemma elem_of_places12 m1 m2 row0 col0 i j k l r c :
  (r, c) ∈ places12 m1 m2 row0 col0 (i, j, k, l) ->
  exists d e, 0 <= d < 3 /\ 0 <= e < 3
    /\ r = base row0 m1 i j + d /\ c = base col0 m2 k l + e.
Proof.
  unfold places12. rewrite !elem_of_cons, elem_of_nil.
  intros [H|[H|[H|[H|[]]]]]; injection H as -> ->;
    [exists 0, 0|exists 1, 2|exists 2, 1|exists 2, 2]; lia.
Qed.

Lemma NoDup_places11 m row0 col0 q : NoDup (places11 m row0 col0 q).
Proof.
  destruct q as [[[i j] k] l]. unfold places11.
  repeat (apply NoDup_cons; split;
    [rewrite ?elem_of_cons, elem_of_nil; intros H;
     repeat (destruct H as [H|H]; [injection H; intros; lia|]); exact H|]).
  apply NoDup_nil_2.
Qed.

Lemma NoDup_places12 m1 m2 row0 col0 q : NoDup (places12 m1 m2 row0 col0 q).
Proof.
  destruct q as [[[i j] k] l]. unfold places12.
  repeat (apply NoDup_cons; split;
    [rewrite ?elem_of_cons, elem_of_nil; intros H;
     repeat (destruct H as [H|H]; [injection H; intros; lia|]); exact H|]).
  apply NoDup_nil_2.
Qed.

Lemma base_inj off m i j i' j' d d' :
  0 <= i < m -> 0 <= i' < m -> 0 <= d < 3 -> 0 <= d' < 3 ->
  base off m i j + d = base off m i' j' + d' -> i = i' /\ j = j'.
Proof.
  unfold base, num. intros Hi Hi' Hd Hd' Heq.
  apply (pack_inj m); [assumption..|lia].
Qed.

Lemma places11_disjoint m row0 col0 (q q' : combo) (pos : Z * Z) :
  (let '(i, j, k, l) := q in 0 <= i < m /\ 0 <= k < m) ->
  (let '(i, j, k, l) := q' in 0 <= i < m /\ 0 <= k < m) ->
  pos ∈ places11 m row0 col0 q -> pos ∈ places11 m row0 col0 q' -> q = q'.
Proof.
  destruct q as [[[i j] k] l], q' as [[[i' j'] k'] l'], pos as [r c].
  intros [Hi Hk] [Hi' Hk'] H H'.
  apply elem_of_places11 in H as (d & Hd & Hr & Hc).
  apply elem_of_places11 in H' as (d' & Hd' & Hr' & Hc').
  destruct (base_inj row0 m i j i' j' d d') as [-> ->]; [assumption..|lia|].
  destruct (base_inj col0 m k l k' l' d d') as [-> ->]; [assumption..|lia|].
  reflexivity.
Qed.

Lemma NoDup_positions11 m n row0 col0 :
  NoDup (combos11 m n row0 col0 ≫= places11 m row0 col0).
Proof.
  apply NoDup_bind; [|intros; apply NoDup_places11|apply NoDup_combos11].
  intros [[[i j] k] l] [[[i' j'] k'] l'] pos H H' Hp Hp'.
  apply elem_of_combos11 in H, H'.
  eapply (places11_disjoint m); [| |eassumption..]; cbv beta iota; lia.
Qed.

Lemma NoDup_positions22 m n row0 col0 :
  NoDup (combos22 m n row0 col0 ≫= places11 m row0 col0).
Proof.
  apply NoDup_bind; [|intros; apply NoDup_places11|apply NoDup_combos22].
  intros [[[i j] k] l] [[[i' j'] k'] l'] pos H H' Hp Hp'.
  apply elem_of_combos22 in H, H'.
  eapply (places11_disjoint m); [| |eassumption..]; cbv beta iota; lia.
Qed.

Lemma NoDup_positions12 m1 n1 m2 n2 row0 col0 :
  NoDup (combos12 m1 n1 m2 n2 ≫= places12 m1 m2 row0 col0).
Proof.
  apply NoDup_bind; [|intros; apply NoDup_places12|apply NoDup_combos12].
  intros [[[i j] k] l] [[[i' j'] k'] l'] [r c] H H' Hp Hp'.
  apply elem_of_combos12 in H, H'.
  apply elem_of_places12 in Hp as (d & e & Hd & He & Hr & Hc).
  apply elem_of_places12 in Hp' as (d' & e' & Hd' & He' & Hr' & Hc').
  destruct (base_inj row0 m1 i j i' j' d d') as [-> ->]; [lia..|].
  destruct (base_inj col0 m2 k l k' l' e e') as [-> ->]; [lia..|].
  reflexivity.
Qed.

(** *** Slots and chunks *)

Lemma bind_lookup_chunk_inv {A B : Type} (t : A -> list B) (c : nat)
    (l : list A) :
  (forall x, length (t x) = c) ->
  forall s e, (l ≫= t) !! s = Some e ->
    exists x, l !! (s / c)%nat = Some x /\ t x !! (s mod c)%nat = Some e.
Proof.
  intros Hc s e Hs.
  assert (s < c * length l)%nat as Hlt.
  { rewrite <- (bind_length_chunk t c l Hc). eapply lookup_lt_Some, Hs. }
  assert (c <> 0)%nat as Hc0 by lia.
  assert (s / c < length l)%nat as Hq
    by (apply Nat.Div0.div_lt_upper_bound; exact Hlt).
  destruct (lookup_lt_is_Some_2 l _ Hq) as [x Hx].
  exists x. split; [exact Hx|].
  pose proof (bind_lookup_chunk t c l Hc (s / c) (s mod c) x
                (Nat.mod_upper_bound s c Hc0) Hx) as Hch.
  rewrite <- Nat.div_mod_eq in Hch. rewrite <- Hch. exact Hs.
Qed.

(** Two runs whose chunks agree on the values of the slots selected by [P]
    return the same values there. *)
Lemma written_data_ext (t t' : combo -> list entry) (c : nat)
    (P : nat -> Prop) (l : list combo) (N : nat) :
  (forall x, length (t x) = c) ->
  (forall x, length (t' x) = c) ->
  (forall x d, P d -> snd <$> (t x !! d) = snd <$> (t' x !! d)) ->
  forall s, P (s mod c)%nat ->
    buf_v (written (l ≫= t) N) !! s = buf_v (written (l ≫= t') N) !! s.
Proof.
  intros Hc Hc' Hext s HP. cbn [written buf_v].
  assert (length (l ≫= t) = length (l ≫= t')) as Hlen
    by (rewrite (bind_length_chunk t c), (bind_length_chunk t' c); auto).
  destruct (Nat.lt_ge_cases s (length (l ≫= t))) as [Hlt|Hge].
  - rewrite !lookup_app_l by (rewrite length_fmap; lia).
    rewrite !list_lookup_fmap.
    destruct (lookup_lt_is_Some_2 _ _ Hlt) as [e He].
    destruct (bind_lookup_chunk_inv t c l Hc s e He) as (x & Hx & Hd).
    assert (c <> 0)%nat as Hc0.
    { intros ->. rewrite (bind_length_chunk t 0) in Hlt by exact Hc. lia. }
    pose proof (bind_lookup_chunk t c l Hc (s / c) (s mod c) x
                  (Nat.mod_upper_bound s c Hc0) Hx) as H1.
    pose proof (bind_lookup_chunk t' c l Hc' (s / c) (s mod c) x
                  (Nat.mod_upper_bound s c Hc0) Hx) as H2.
    rewrite <- Nat.div_mod_eq in H1, H2. unfold entry in *.
    rewrite H1, H2. specialize (Hext x _ HP).
    destruct (t x !! (s mod c)%nat) as [[? ?]|],
             (t' x !! (s mod c)%nat) as [[? ?]|]; cbn in Hext |- *;
      congruence.
  - rewrite !lookup_app_r by (rewrite length_fmap; lia).
    rewrite !length_fmap, Hlen. reflexivity.
Qed.

(** *** Moving the block *)

Lemma base_shift off t m i j : base (off + t) m i j = base off m i j + t.
Proof. unfold base. lia. Qed.

Lemma combos11_shift m n row0 col0 t :
  combos11 m n (row0 + t) (col0 + t) = combos11 m n row0 col0.
Proof.
  unfold combos11.
  apply list_bind_ext; [intros j|reflexivity].
  apply list_bind_ext; [intros l|reflexivity].
  apply list_bind_ext; [intros i|reflexivity].
  apply list_bind_ext; [intros k|reflexivity].
  rewrite !base_shift.
  destruct (Z.gtb_spec (base row0 m i j + t) (base col0 m k l + t)),
           (Z.gtb_spec (base row0 m i j) (base col0 m k l));
    first [reflexivity|lia].
Qed.

Lemma combos22_shift m n row0 col0 t :
  combos22 m n (row0 + t) (col0 + t) = combos22 m n row0 col0.
Proof.
  unfold combos22.
  apply list_bind_ext; [intros i|reflexivity].
  apply list_bind_ext; [intros k|reflexivity].
  apply list_bind_ext; [intros j|reflexivity].
  apply list_bind_ext; [intros l|reflexivity].
  rewrite !base_shift.
  destruct (Z.gtb_spec (base row0 m i j + t) (base col0 m k l + t)),
           (Z.gtb_spec (base row0 m i j) (base col0 m k l));
    first [reflexivity|lia].
Qed.

Lemma triple11_shift kt kr p1 xcte1 row0 col0 tr tc q :
  triple11 kt kr p1 xcte1 (row0 + tr) (col0 + tc) q
    = shift tr tc <$> triple11 kt kr p1 xcte1 row0 col0 q.
Proof.
  destruct q as [[[i j] k] l]. unfold triple11, shift. cbv zeta.
  rewrite !base_shift. cbn [fmap list_fmap fst snd].
  repeat (f_equal; try lia).
Qed.

Lemma triple22_shift kt kr p2 ycte2 row0 col0 tr tc q :
  triple22 kt kr p2 ycte2 (row0 + tr) (col0 + tc) q
    = shift tr tc <$> triple22 kt kr p2 ycte2 row0 col0 q.
Proof.
  destruct q as [[[i j] k] l]. unfold triple22, shift. cbv zeta.
  rewrite !base_shift. cbn [fmap list_fmap fst snd].
  repeat (f_equal; try lia).
Qed.

Lemma quad12_shift kt kr p1 p2 xcte1 ycte2 row0 col0 tr tc q :
  quad12 kt kr p1 p2 xcte1 ycte2 (row0 + tr) (col0 + tc) q
    = shift tr tc <$> quad12 kt kr p1 p2 xcte1 ycte2 row0 col0 q.
Proof.
  destruct q as [[[i j] k] l]. unfold quad12, shift. cbv zeta.
  rewrite !base_shift. cbn [fmap list_fmap fst snd].
  repeat (f_equal; try lia).
Qed.

Lemma entries11_shift kt kr p1 xcte1 row0 col0 t :
  entries11 kt kr p1 xcte1 (row0 + t) (col0 + t)
    = shift t t <$> entries11 kt kr p1 xcte1 row0 col0.
Proof.
  unfold entries11. rewrite combos11_shift. symmetry.
  apply fmap_bind_ext. intros q. symmetry. apply triple11_shift.
Qed.

Lemma entries22_shift kt kr p2 ycte2 row0 col0 t :
  entries22 kt kr p2 ycte2 (row0 + t) (col0 + t)
    = shift t t <$> entries22 kt kr p2 ycte2 row0 col0.
Proof.
  unfold entries22. rewrite combos22_shift. symmetry.
  apply fmap_bind_ext. intros q. symmetry. apply triple22_shift.
Qed.

Lemma entries12_shift kt kr p1 p2 xcte1 ycte2 row0 col0 tr tc :
  entries12 kt kr p1 p2 xcte1 ycte2 (row0 + tr) (col0 + tc)
    = shift tr tc <$> entries12 kt kr p1 p2 xcte1 ycte2 row0 col0.
Proof.
  unfold entries12. symmetry.
  apply fmap_bind_ext. intros q. symmetry. apply quad12_shift.
Qed.

(** The arrays of the moved entries: the written part of the rows and of
    the columns moves, the zeros after it and the values stay. *)
Lemma written_shift (es : list entry) (N : nat) (tr tc : Z) :
  let K := written es N in
  let K' := written (shift tr tc <$> es) N in
  buf_v K' = buf_v K
  /\ take (length es) (buf_r K') = (fun r => r + tr) <$> take (length es) (buf_r K)
  /\ drop (length es) (buf_r K') = drop (length es) (buf_r K)
  /\ take (length es) (buf_cl K') = (fun c => c + tc) <$> take (length es) (buf_cl K)
  /\ drop (length es) (buf_cl K') = drop (length es) (buf_cl K).
Proof.
  cbv zeta. cbn [written buf_r buf_cl buf_v].
  rewrite !length_fmap, <- !list_fmap_compose.
  rewrite !take_app_length', !drop_app_length' by (rewrite length_fmap; reflexivity).
  rewrite <- !list_fmap_compose. repeat apply conj; reflexivity.
Qed.

(** *** Counting when nothing is skipped *)

Lemma length_bind_range_const {B : Type} (g : Z -> list B) (c a : Z) :
  0 <= a ->
  (forall i, 0 <= i < a -> Z.of_nat (length (g i)) = c) ->
  Z.of_nat (length (range a ≫= g)) = a * c.
Proof.
  intros Ha Hg.
  pose proof (length_bind_range_telescope 1 g (fun i => i * c) a Ha) as Ht.
  cbv beta in Ht. rewrite Z.mul_1_l in Ht. rewrite Ht; [lia|].
  intros i Hi. rewrite (Hg i Hi). lia.
Qed.

Lemma combos11_full m n row0 col0 :
  0 <= m -> 0 <= n -> row0 + 3 * (m * n - 1) <= col0 ->
  Z.of_nat (length (combos11 m n row0 col0)) = m * n * m * n.
Proof.
  intros Hm Hn Hoff. unfold combos11.
  rewrite (length_bind_range_const _ (n * (m * m)) n Hn); [lia|].
  intros j Hj.
  rewrite (length_bind_range_const _ (m * m) n Hn); [lia|].
  intros l Hl.
  rewrite (length_bind_range_const _ m m Hm); [lia|].
  intros i Hi.
  rewrite (length_bind_range_const _ 1 m Hm); [lia|].
  intros k Hk. unfold base, num.
  destruct (Z.gtb_spec (row0 + 3 * (j * m + i)) (col0 + 3 * (l * m + k)));
    [|reflexivity].
  assert (j * m <= (n - 1) * m) by nia.
  assert (0 <= l * m) by nia. nia.
Qed.

Lemma combos22_full m n row0 col0 :
  0 <= m -> 0 <= n -> row0 + 3 * (m * n - 1) <= col0 ->
  Z.of_nat (length (combos22 m n row0 col0)) = m * n * m * n.
Proof.
  intros Hm Hn Hoff. unfold combos22.
  rewrite (length_bind_range_const _ (m * (n * n)) m Hm); [lia|].
  intros i Hi.
  rewrite (length_bind_range_const _ (n * n) m Hm); [lia|].
  intros k Hk.
  rewrite (length_bind_range_const _ n n Hn); [lia|].
  intros j Hj.
  rewrite (length_bind_range_const _ 1 n Hn); [lia|].
  intros l Hl. unfold base, num.
  destruct (Z.gtb_spec (row0 + 3 * (j * m + i)) (col0 + 3 * (l * m + k)));
    [|reflexivity].
  assert (j * m <= (n - 1) * m) by nia.
  assert (0 <= l * m) by nia. nia.
Qed.

(** *** Runs in which no combination is emitted *)





(** *** The slot of a combination when nothing is skipped *)

Lemma range_bind_lookup {B : Type} (g : Z -> list B) (c n x r : Z) :
  (forall y, Z.of_nat (length (g y)) = c) ->
  0 <= x < n -> 0 <= r < c ->
  (range n ≫= g) !! Z.to_nat (c * x + r) = g x !! Z.to_nat r.
Proof.
  intros Hc Hx Hr.
  replace (Z.to_nat (c * x + r))
    with (Z.to_nat c * Z.to_nat x + Z.to_nat r)%nat by nia.
  apply bind_lookup_chunk; [intros y; specialize (Hc y); lia|lia|].
  unfold range. rewrite lookup_seqZ_lt by lia. f_equal. lia.
Qed.

Lemma combos12_lookup m1 n1 m2 n2 i j k l :
  0 <= i < m1 -> 0 <= j < n1 -> 0 <= k < m2 -> 0 <= l < n2 ->
  combos12 m1 n1 m2 n2 !! Z.to_nat (((j * m2 + k) * m1 + i) * n2 + l)
    = Some (i, j, k, l).
Proof.
  intros Hi Hj Hk Hl. unfold combos12.
  assert (forall i' j' k' : Z,
            Z.of_nat (length (range n2 ≫= fun l' => [(i', j', k', l')])) = n2)
    as H4.
  { intros. rewrite (length_bind_range_const _ 1) by (auto; lia). lia. }
  assert (forall j' k' : Z,
            Z.of_nat (length (range m1 ≫= fun i' =>
                              range n2 ≫= fun l' => [(i', j', k', l')]))
              = m1 * n2) as H3.
  { intros. apply length_bind_range_const; [lia|]. intros; apply H4. }
  assert (forall j' : Z,
            Z.of_nat (length (range m2 ≫= fun k' => range m1 ≫= fun i' =>
                              range n2 ≫= fun l' => [(i', j', k', l')]))
              = m2 * (m1 * n2)) as H2.
  { intros. apply length_bind_range_const; [lia|]. intros; apply H3. }
  replace (((j * m2 + k) * m1 + i) * n2 + l)
    with (m2 * (m1 * n2) * j + ((m1 * n2) * k + (n2 * i + (1 * l + 0))))
    by ring.
  assert (0 <= 1 * l + 0 < n2) as B4 by lia.
  assert (0 <= n2 * i + (1 * l + 0) < m1 * n2) as B3 by nia.
  assert (0 <= m1 * n2 * k + (n2 * i + (1 * l + 0)) < m2 * (m1 * n2)) as B2
    by nia.
  etrans; [apply (range_bind_lookup _ (m2 * (m1 * n2)) n1 j);
             [intros; apply H2|exact Hj|exact B2]|].
  etrans; [apply (range_bind_lookup _ (m1 * n2) m2 k);
             [intros; apply H3|exact Hk|exact B3]|].
  etrans; [apply (range_bind_lookup _ n2 m1 i);
             [intros; apply H4|exact Hi|exact B4]|].
  etrans; [apply (range_bind_lookup _ 1 n2 l 0);
             [intros; reflexivity|exact Hl|lia]|].
  reflexivity.
Qed.

(** *** The two single-edge procedures visit the same combinations *)

Lemma combos22_permutation m n row0 col0 :
  combos22 m n row0 col0 ≡ₚ combos11 m n row0 col0.
Proof.
  apply NoDup_Permutation; [apply NoDup_combos22|apply NoDup_combos11|].
  intros [[[i j] k] l]. rewrite elem_of_combos11, elem_of_combos22.
  reflexivity.
Qed.

(** The (row, column) pairs of the returned arrays. *)
Lemma written_pairs (es : list entry) (N : nat) :
  zip (buf_r (written es N)) (buf_cl (written es N))
    = (position <$> es) ++ replicate (N - length es) (0, 0).
Proof.
  destruct (written_rows_cols es N) as [-> ->].
  rewrite zip_with_app by (rewrite !length_fmap; reflexivity).
  rewrite zip_with_replicate. f_equal. apply zip_fst_snd.
Qed.

End More.

(** ** Theorems *)

Section Extras.
Context {D : Type} {AD : Arith D} {BD : Bardell D}.

(** X1: the sparsity pattern of each of the three procedures is fixed by
    the orders [m], [n] of the panels and by the offsets [row0], [col0]:
    two calls that agree on these return the same row and column arrays,
    whatever the stiffnesses [kt], [kr], the position of the edge, the
    extents and boundary coefficients of the panels, the matrix size and
    the basis library are. *)
Theorem pattern_fixed_by_orders {BD' : Bardell D} (kt kr kt' kr' : D)
    (p1 p2 p1' p2' : Panel.t D) (xcte1 ycte2 xcte1' ycte2' : D)
    (size size' row0 col0 : Z) :
  Panel.m p1 = Panel.m p1' -> Panel.n p1 = Panel.n p1' ->
  Panel.m p2 = Panel.m p2' -> Panel.n p2 = Panel.n p2' ->
  let K11 := fkCBFxcte11 (BD := BD) kt kr p1 xcte1 size row0 col0 in
  let K11' := fkCBFxcte11 (BD := BD') kt' kr' p1' xcte1' size' row0 col0 in
  let K22 := fkCBFycte22 (BD := BD) kt kr p1 p2 ycte2 size row0 col0 in
  let K22' := fkCBFycte22 (BD := BD') kt' kr' p1' p2' ycte2' size' row0 col0 in
  let K12 := fkCBFxycte12 (BD := BD) kt kr p1 p2 xcte1 ycte2 size row0 col0 in
  let K12' :=
    fkCBFxycte12 (BD := BD') kt' kr' p1' p2' xcte1' ycte2' size' row0 col0 in
  (coo_row K11 = coo_row K11' /\ coo_col K11 = coo_col K11')
  /\ (coo_row K22 = coo_row K22' /\ coo_col K22 = coo_col K22')
  /\ (coo_row K12 = coo_row K12' /\ coo_col K12 = coo_col K12').
Proof.
  intros Hm1 Hn1 Hm2 Hn2. cbv zeta.
  rewrite !fkCBFxcte11_written, !fkCBFycte22_written, !fkCBFxycte12_written.
  cbn [coo_matrix coo_row coo_col].
  pose proof (fun es N => proj1 (written_rows_cols es N)) as Hr.
  pose proof (fun es N => proj2 (written_rows_cols es N)) as Hc.
  rewrite !Hr, !Hc.
  rewrite !length_entries11, !length_entries22, !length_entries12.
  rewrite !positions_entries11, !positions_entries22, !positions_entries12.
  unfold fdim11, fdim12. rewrite Hm1, Hn1, Hm2, Hn2. auto.
Qed.

(** X2: which displacement fields an entry couples is fixed by its slot.
    In [fkCBFxcte11] and [fkCBFycte22] the written slot [s] couples field
    [s mod 3] (u, v, w as 0, 1, 2) with itself: no entry couples two
    different fields.  In [fkCBFxycte12] the four slots of a combination
    sit, in this order, on the (row field, column field) positions
    (u, u), (v, w), (w, v) and (w, w). *)
Theorem coupled_fields (kt kr : D) (p1 p2 : Panel.t D) (xcte1 ycte2 : D)
    (size row0 col0 : Z) :
  let m1 := Panel.m p1 in let n1 := Panel.n p1 in
  let m2 := Panel.m p2 in let n2 := Panel.n p2 in
  let K11 := fkCBFxcte11 kt kr p1 xcte1 size row0 col0 in
  let K22 := fkCBFycte22 kt kr p1 p2 ycte2 size row0 col0 in
  let K12 := fkCBFxycte12 kt kr p1 p2 xcte1 ycte2 size row0 col0 in
  (forall (s : nat) (r c : Z),
     (s < 3 * length (combos11 m1 n1 row0 col0))%nat ->
     coo_row K11 !! s = Some r -> coo_col K11 !! s = Some c ->
     (r - row0) mod 3 = Z.of_nat (s mod 3)
     /\ (c - col0) mod 3 = Z.of_nat (s mod 3))
  /\ (forall (s : nat) (r c : Z),
     (s < 3 * length (combos22 m2 n2 row0 col0))%nat ->
     coo_row K22 !! s = Some r -> coo_col K22 !! s = Some c ->
     (r - row0) mod 3 = Z.of_nat (s mod 3)
     /\ (c - col0) mod 3 = Z.of_nat (s mod 3))
  /\ (forall (s : nat) (r c : Z),
     (s < 4 * length (combos12 m1 n1 m2 n2))%nat ->
     coo_row K12 !! s = Some r -> coo_col K12 !! s = Some c ->
     [ (0, 0); (1, 2); (2, 1); (2, 2) ] !! (s mod 4)%nat
       = Some ((r - row0) mod 3, (c - col0) mod 3)).
Proof.
  cbv zeta.
  assert (forall off x d, 0 <= d < 3 -> (off + 3 * x + d - off) mod 3 = d)
    as Hmod.
  { intros off x d Hd. replace (off + 3 * x + d - off) with (d + x * 3) by lia.
    rewrite Z.mod_add by lia. apply Z.mod_small. lia. }
  repeat apply conj; intros s r c Hs Hr Hc.
  - rewrite fkCBFxcte11_written in Hr, Hc. cbn [coo_matrix coo_row coo_col] in *.
    rewrite <- (length_entries11 kt kr p1 xcte1) in Hs.
    pose proof (written_position _ _ _ _ _ Hs Hr Hc) as Hp.
    rewrite positions_entries11 in Hp.
    apply (bind_lookup_chunk_inv _ 3) in Hp as ([[[i j] k] l] & _ & Hd);
      [|intros [[[? ?] ?] ?]; reflexivity].
    unfold places11, base, num in Hd.
    destruct (s mod 3)%nat as [|[|[|d]]]; cbn in Hd; [| | |discriminate];
      injection Hd as <- <-; rewrite !Hmod by lia; split; reflexivity.
  - rewrite fkCBFycte22_written in Hr, Hc. cbn [coo_matrix coo_row coo_col] in *.
    rewrite <- (length_entries22 kt kr p2 ycte2) in Hs.
    pose proof (written_position _ _ _ _ _ Hs Hr Hc) as Hp.
    rewrite positions_entries22 in Hp.
    apply (bind_lookup_chunk_inv _ 3) in Hp as ([[[i j] k] l] & _ & Hd);
      [|intros [[[? ?] ?] ?]; reflexivity].
    unfold places11, base, num in Hd.
    destruct (s mod 3)%nat as [|[|[|d]]]; cbn in Hd; [| | |discriminate];
      injection Hd as <- <-; rewrite !Hmod by lia; split; reflexivity.
  - rewrite fkCBFxycte12_written in Hr, Hc. cbn [coo_matrix coo_row coo_col] in *.
    rewrite <- (length_entries12 kt kr p1 p2 xcte1 ycte2 row0 col0) in Hs.
    pose proof (written_position _ _ _ _ _ Hs Hr Hc) as Hp.
    rewrite positions_entries12 in Hp.
    apply (bind_lookup_chunk_inv _ 4) in Hp as ([[[i j] k] l] & _ & Hd);
      [|intros [[[? ?] ?] ?]; reflexivity].
    unfold places12, base, num in Hd.
    destruct (s mod 4)%nat as [|[|[|[|d]]]]; cbn in Hd; [| | | |discriminate];
      injection Hd as <- <-; rewrite !Hmod by lia; reflexivity.
Qed.

(** X3: no procedure writes a position twice: two different written slots
    of one call never hold the same (row, column) pair, so the duplicate
    summation of the COO format only ever meets the zero entries at (0, 0)
    that pad the single-edge results. *)
Theorem no_position_written_twice (kt kr : D) (p1 p2 : Panel.t D)
    (xcte1 ycte2 : D) (size row0 col0 : Z) :
  let m1 := Panel.m p1 in let n1 := Panel.n p1 in
  let m2 := Panel.m p2 in let n2 := Panel.n p2 in
  let K11 := fkCBFxcte11 kt kr p1 xcte1 size row0 col0 in
  let K22 := fkCBFycte22 kt kr p1 p2 ycte2 size row0 col0 in
  let K12 := fkCBFxycte12 kt kr p1 p2 xcte1 ycte2 size row0 col0 in
  (forall (s s' : nat) (r c : Z),
     (s < 3 * length (combos11 m1 n1 row0 col0))%nat ->
     (s' < 3 * length (combos11 m1 n1 row0 col0))%nat ->
     coo_row K11 !! s = Some r -> coo_col K11 !! s = Some c ->
     coo_row K11 !! s' = Some r -> coo_col K11 !! s' = Some c -> s = s')
  /\ (forall (s s' : nat) (r c : Z),
     (s < 3 * length (combos22 m2 n2 row0 col0))%nat ->
     (s' < 3 * length (combos22 m2 n2 row0 col0))%nat ->
     coo_row K22 !! s = Some r -> coo_col K22 !! s = Some c ->
     coo_row K22 !! s' = Some r -> coo_col K22 !! s' = Some c -> s = s')
  /\ (forall (s s' : nat) (r c : Z),
     (s < 4 * length (combos12 m1 n1 m2 n2))%nat ->
     (s' < 4 * length (combos12 m1 n1 m2 n2))%nat ->
     coo_row K12 !! s = Some r -> coo_col K12 !! s = Some c ->
     coo_row K12 !! s' = Some r -> coo_col K12 !! s' = Some c -> s = s').
Proof.
  cbv zeta. repeat apply conj; intros s s' r c Hs Hs' Hr Hc Hr' Hc'.
  - rewrite fkCBFxcte11_written in Hr, Hc, Hr', Hc'.
    cbn [coo_matrix coo_row coo_col] in *.
    rewrite <- (length_entries11 kt kr p1 xcte1) in Hs, Hs'.
    pose proof (written_position _ _ _ _ _ Hs Hr Hc) as Hp.
    pose proof (written_position _ _ _ _ _ Hs' Hr' Hc') as Hp'.
    rewrite positions_entries11 in Hp, Hp'.
    exact (NoDup_lookup _ _ _ _ (NoDup_positions11 _ _ _ _) Hp Hp').
  - rewrite fkCBFycte22_written in Hr, Hc, Hr', Hc'.
    cbn [coo_matrix coo_row coo_col] in *.
    rewrite <- (length_entries22 kt kr p2 ycte2) in Hs, Hs'.
    pose proof (written_position _ _ _ _ _ Hs Hr Hc) as Hp.
    pose proof (written_position _ _ _ _ _ Hs' Hr' Hc') as Hp'.
    rewrite positions_entries22 in Hp, Hp'.
    exact (NoDup_lookup _ _ _ _ (NoDup_positions22 _ _ _ _) Hp Hp').
  - rewrite fkCBFxycte12_written in Hr, Hc, Hr', Hc'.
    cbn [coo_matrix coo_row coo_col] in *.
    rewrite <- (length_entries12 kt kr p1 p2 xcte1 ycte2 row0 col0) in Hs, Hs'.
    pose proof (written_position _ _ _ _ _ Hs Hr Hc) as Hp.
    pose proof (written_position _ _ _ _ _ Hs' Hr' Hc') as Hp'.
    rewrite positions_entries12 in Hp, Hp'.
    exact (NoDup_lookup _ _ _ _ (NoDup_positions12 _ _ _ _ _ _) Hp Hp').
Qed.

(** X4: moving the block moves the written entries and nothing else.  In
    the single-edge procedures, adding [t] to both offsets adds [t] to the
    rows and columns of the written slots and leaves the values, the number
    of written slots and the zero slots after them as they were.  In
    [fkCBFxycte12] the two offsets move on their own: [tr] added to [row0]
    moves the rows, [tc] added to [col0] the columns. *)
Theorem offsets_translate (kt kr : D) (p1 p2 : Panel.t D) (xcte1 ycte2 : D)
    (size row0 col0 t tr tc : Z) :
  let m1 := Panel.m p1 in let n1 := Panel.n p1 in
  let m2 := Panel.m p2 in let n2 := Panel.n p2 in
  let K11 := fkCBFxcte11 kt kr p1 xcte1 size row0 col0 in
  let K11' := fkCBFxcte11 kt kr p1 xcte1 size (row0 + t) (col0 + t) in
  let w11 := (3 * length (combos11 m1 n1 row0 col0))%nat in
  let K22 := fkCBFycte22 kt kr p1 p2 ycte2 size row0 col0 in
  let K22' := fkCBFycte22 kt kr p1 p2 ycte2 size (row0 + t) (col0 + t) in
  let w22 := (3 * length (combos22 m2 n2 row0 col0))%nat in
  let K12 := fkCBFxycte12 kt kr p1 p2 xcte1 ycte2 size row0 col0 in
  let K12' :=
    fkCBFxycte12 kt kr p1 p2 xcte1 ycte2 size (row0 + tr) (col0 + tc) in
  let w12 := (4 * length (combos12 m1 n1 m2 n2))%nat in
  (combos11 m1 n1 (row0 + t) (col0 + t) = combos11 m1 n1 row0 col0
   /\ coo_data K11' = coo_data K11
   /\ take w11 (coo_row K11') = (fun r => r + t) <$> take w11 (coo_row K11)
   /\ drop w11 (coo_row K11') = drop w11 (coo_row K11)
   /\ take w11 (coo_col K11') = (fun c => c + t) <$> take w11 (coo_col K11)
   /\ drop w11 (coo_col K11') = drop w11 (coo_col K11))
  /\ (combos22 m2 n2 (row0 + t) (col0 + t) = combos22 m2 n2 row0 col0
   /\ coo_data K22' = coo_data K22
   /\ take w22 (coo_row K22') = (fun r => r + t) <$> take w22 (coo_row K22)
   /\ drop w22 (coo_row K22') = drop w22 (coo_row K22)
   /\ take w22 (coo_col K22') = (fun c => c + t) <$> take w22 (coo_col K22)
   /\ drop w22 (coo_col K22') = drop w22 (coo_col K22))
  /\ (coo_data K12' = coo_data K12
   /\ take w12 (coo_row K12') = (fun r => r + tr) <$> take w12 (coo_row K12)
   /\ drop w12 (coo_row K12') = drop w12 (coo_row K12)
   /\ take w12 (coo_col K12') = (fun c => c + tc) <$> take w12 (coo_col K12)
   /\ drop w12 (coo_col K12') = drop w12 (coo_col K12)).
Proof.
  cbv zeta. split; [|split].
  - split; [apply combos11_shift|].
    rewrite !fkCBFxcte11_written, entries11_shift.
    rewrite <- (length_entries11 kt kr p1 xcte1).
    cbn [coo_matrix coo_row coo_col coo_data]. apply written_shift.
  - split; [apply combos22_shift|].
    rewrite !fkCBFycte22_written, entries22_shift.
    rewrite <- (length_entries22 kt kr p2 ycte2).
    cbn [coo_matrix coo_row coo_col coo_data]. apply written_shift.
  - rewrite !fkCBFxycte12_written, entries12_shift.
    rewrite <- (length_entries12 kt kr p1 p2 xcte1 ycte2 row0 col0).
    cbn [coo_matrix coo_row coo_col coo_data]. apply written_shift.
Qed.

(** X5: the diagonal of a diagonal block.  With [row0 = col0] a written
    entry of [fkCBFxcte11] or [fkCBFycte22] lies on the diagonal of the
    matrix exactly when its combination pairs a basis term with itself
    ((i, j) = (k, l)), and every such combination is emitted: all the
    [3*m*n] diagonal positions of the block are written. *)
Theorem diagonal_of_diagonal_block (kt kr : D) (p1 p2 : Panel.t D)
    (xcte1 ycte2 : D) (size off : Z) :
  let m1 := Panel.m p1 in let n1 := Panel.n p1 in
  let m2 := Panel.m p2 in let n2 := Panel.n p2 in
  let K11 := fkCBFxcte11 kt kr p1 xcte1 size off off in
  let K22 := fkCBFycte22 kt kr p1 p2 ycte2 size off off in
  (forall (q d : nat) (i j k l r c : Z),
     combos11 m1 n1 off off !! q = Some (i, j, k, l) -> (d < 3)%nat ->
     coo_row K11 !! (3 * q + d)%nat = Some r ->
     coo_col K11 !! (3 * q + d)%nat = Some c ->
     (r = c <-> i = k /\ j = l))
  /\ (forall i j : Z, 0 <= i < m1 -> 0 <= j < n1 ->
     (i, j, i, j) ∈ combos11 m1 n1 off off)
  /\ (forall (q d : nat) (i j k l r c : Z),
     combos22 m2 n2 off off !! q = Some (i, j, k, l) -> (d < 3)%nat ->
     coo_row K22 !! (3 * q + d)%nat = Some r ->
     coo_col K22 !! (3 * q + d)%nat = Some c ->
     (r = c <-> i = k /\ j = l))
  /\ (forall i j : Z, 0 <= i < m2 -> 0 <= j < n2 ->
     (i, j, i, j) ∈ combos22 m2 n2 off off).
Proof.
  cbv zeta. repeat apply conj.
  - intros q d i j k l r c Hq Hd Hr Hc.
    pose proof (list_elem_of_lookup_2 _ _ _ Hq) as Hin.
    apply elem_of_combos11 in Hin as (Hi & Hj & Hk & Hl & _).
    assert (exists x, triple11 kt kr p1 xcte1 off off (i, j, k, l) !! d
              = Some (base off (Panel.m p1) i j + Z.of_nat d,
                      base off (Panel.m p1) k l + Z.of_nat d, x))
      as [x Hx] by (destruct d as [|[|[|d]]]; [eexists; reflexivity..|lia]).
    destruct (xcte11_slot kt kr p1 xcte1 size off off q d _ _ _ _ Hq Hx)
      as (Hr' & Hc' & _).
    rewrite Hr' in Hr. rewrite Hc' in Hc. injection Hr as <-. injection Hc as <-.
    unfold base, num. split.
    + intros Heq. apply (pack_inj (Panel.m p1)); [assumption..|lia].
    + intros [-> ->]. reflexivity.
  - intros i j Hi Hj. apply elem_of_combos11. lia.
  - intros q d i j k l r c Hq Hd Hr Hc.
    pose proof (list_elem_of_lookup_2 _ _ _ Hq) as Hin.
    apply elem_of_combos22 in Hin as (Hi & Hj & Hk & Hl & _).
    assert (exists x, triple22 kt kr p2 ycte2 off off (i, j, k, l) !! d
              = Some (base off (Panel.m p2) i j + Z.of_nat d,
                      base off (Panel.m p2) k l + Z.of_nat d, x))
      as [x Hx] by (destruct d as [|[|[|d]]]; [eexists; reflexivity..|lia]).
    destruct (ycte22_slot kt kr p1 p2 ycte2 size off off q d _ _ _ _ Hq Hx)
      as (Hr' & Hc' & _).
    rewrite Hr' in Hr. rewrite Hc' in Hc. injection Hr as <-. injection Hc as <-.
    unfold base, num. split.
    + intros Heq. apply (pack_inj (Panel.m p2)); [assumption..|lia].
    + intros [-> ->]. reflexivity.
  - intros i j Hi Hj. apply elem_of_combos22. lia.
Qed.


(** X7: calls that skip nothing.  When the row block ends at or before the
    first column of the column block ([row0 + 3*(m*n - 1) <= col0]) the
    test [row > col] never fires in the single-edge procedures: all
    [(m*n)^2] combinations are emitted and every slot of the returned
    arrays is written.  When it does not, with positive orders, the
    combination of the last row term with the first column term is
    skipped. *)
Theorem nothing_skipped (kt kr : D) (p1 p2 : Panel.t D) (xcte1 ycte2 : D)
    (size row0 col0 : Z) :
  let m1 := Panel.m p1 in let n1 := Panel.n p1 in
  let m2 := Panel.m p2 in let n2 := Panel.n p2 in
  let K11 := fkCBFxcte11 kt kr p1 xcte1 size row0 col0 in
  let K22 := fkCBFycte22 kt kr p1 p2 ycte2 size row0 col0 in
  (0 <= m1 -> 0 <= n1 -> row0 + 3 * (m1 * n1 - 1) <= col0 ->
   Z.of_nat (length (combos11 m1 n1 row0 col0)) = m1 * n1 * m1 * n1
   /\ (3 * length (combos11 m1 n1 row0 col0))%nat = length (coo_row K11))
  /\ (0 < m1 -> 0 < n1 -> col0 < row0 + 3 * (m1 * n1 - 1) ->
   (m1 - 1, n1 - 1, 0, 0) ∉ combos11 m1 n1 row0 col0)
  /\ (0 <= m2 -> 0 <= n2 -> row0 + 3 * (m2 * n2 - 1) <= col0 ->
   Z.of_nat (length (combos22 m2 n2 row0 col0)) = m2 * n2 * m2 * n2
   /\ (3 * length (combos22 m2 n2 row0 col0))%nat = length (coo_row K22))
  /\ (0 < m2 -> 0 < n2 -> col0 < row0 + 3 * (m2 * n2 - 1) ->
   (m2 - 1, n2 - 1, 0, 0) ∉ combos22 m2 n2 row0 col0).
Proof.
  cbv zeta. repeat apply conj.
  - intros Hm Hn Hoff.
    pose proof (combos11_full _ _ _ _ Hm Hn Hoff) as Hlen.
    split; [exact Hlen|].
    rewrite fkCBFxcte11_written. cbn [coo_matrix coo_row].
    rewrite (proj1 (written_lengths _ _ (entries11_fit kt kr p1 xcte1 row0 col0))).
    unfold fdim11. nia.
  - intros Hm Hn Hoff Hin. apply elem_of_combos11 in Hin.
    unfold base, num in Hin. nia.
  - intros Hm Hn Hoff.
    pose proof (combos22_full _ _ _ _ Hm Hn Hoff) as Hlen.
    split; [exact Hlen|].
    rewrite fkCBFycte22_written. cbn [coo_matrix coo_row].
    rewrite (proj1 (written_lengths _ _ (entries22_fit kt kr p2 ycte2 row0 col0))).
    unfold fdim11. nia.
  - intros Hm Hn Hoff Hin. apply elem_of_combos22 in Hin.
    unfold base, num in Hin. nia.
Qed.

(** X8: the divisions of [fkCBFxycte12].  The procedure divides by [a1]
    and by [b2] when it normalises the two edge coordinates, and by the
    product [a1*b2] in the rotational entry of every combination.  The
    guarded run meets a zero denominator exactly when [a1] is zero, [b2]
    is zero, or the product is zero as computed and a combination is
    emitted; otherwise it returns what the plain run returns.  Unlike in
    the single-edge procedures [kt] is never divided by, so [kt = 0] is
    harmless here; where no product of nonzero numbers is zero (exact
    arithmetic) nonzero [a1] and [b2] are enough. *)
Theorem fkCBFxycte12_divisions (kt kr : D) (p1 p2 : Panel.t D)
    (xcte1 ycte2 : D) (size row0 col0 : Z) :
  let a1 := Panel.a p1 in let b2 := Panel.b p2 in
  let emitted :=
    combos12 (Panel.m p1) (Panel.n p1) (Panel.m p2) (Panel.n p2) in
  (is_zero a1 = false -> is_zero b2 = false ->
   is_zero (a1 * b2)%D = false \/ emitted = [] ->
   fkCBFxycte12_guarded kt kr p1 p2 xcte1 ycte2 size row0 col0
     = Some (fkCBFxycte12 kt kr p1 p2 xcte1 ycte2 size row0 col0))
  /\ (is_zero a1 = true \/ is_zero b2 = true
      \/ (is_zero (a1 * b2)%D = true /\ emitted <> []) ->
   fkCBFxycte12_guarded kt kr p1 p2 xcte1 ycte2 size row0 col0 = None)
  /\ (NoZeroDivisor D -> is_zero a1 = false -> is_zero b2 = false ->
   fkCBFxycte12_guarded kt kr p1 p2 xcte1 ycte2 size row0 col0
     = Some (fkCBFxycte12 kt kr p1 p2 xcte1 ycte2 size row0 col0)).
Proof.
  cbv zeta. repeat apply conj.
  - apply fkCBFxycte12_guarded_Some.
  - apply fkCBFxycte12_guarded_None.
  - intros HZ Ha Hb. apply fkCBFxycte12_guarded_Some; [assumption..|].
    left. destruct (is_zero (Panel.a p1 * Panel.b p2)%D) eqn:Hab; [|reflexivity].
    apply dmul_zero in Hab as [Hz|Hz]; congruence.
Qed.

(** X9: which stiffness an entry depends on.  In [fkCBFxycte12] the first
    three values of every combination are translational: they do not
    change with [kr]; the fourth is rotational: it does not change with
    [kt].  In [fkCBFxcte11] and [fkCBFycte22] the u and v values do not
    change with [kr] (the w value depends on both). *)
Theorem stiffness_separation (kt kr kt' kr' : D) (p1 p2 : Panel.t D)
    (xcte1 ycte2 : D) (size row0 col0 : Z) :
  (forall s : nat, (s mod 4 <> 3)%nat ->
     coo_data (fkCBFxycte12 kt kr p1 p2 xcte1 ycte2 size row0 col0) !! s
     = coo_data (fkCBFxycte12 kt kr' p1 p2 xcte1 ycte2 size row0 col0) !! s)
  /\ (forall s : nat, (s mod 4 = 3)%nat ->
     coo_data (fkCBFxycte12 kt kr p1 p2 xcte1 ycte2 size row0 col0) !! s
     = coo_data (fkCBFxycte12 kt' kr p1 p2 xcte1 ycte2 size row0 col0) !! s)
  /\ (forall s : nat, (s mod 3 <> 2)%nat ->
     coo_data (fkCBFxcte11 kt kr p1 xcte1 size row0 col0) !! s
     = coo_data (fkCBFxcte11 kt kr' p1 xcte1 size row0 col0) !! s)
  /\ (forall s : nat, (s mod 3 <> 2)%nat ->
     coo_data (fkCBFycte22 kt kr p1 p2 ycte2 size row0 col0) !! s
     = coo_data (fkCBFycte22 kt kr' p1 p2 ycte2 size row0 col0) !! s).
Proof.
  repeat apply conj; intros s Hs.
  - rewrite !fkCBFxycte12_written. cbn [coo_matrix coo_data]. unfold entries12.
    apply (written_data_ext _ _ 4 (fun d => d <> 3%nat));
      [apply length_quad12..| |exact Hs].
    intros [[[i j] k] l] d Hd.
    destruct d as [|[|[|[|d]]]]; [reflexivity..|lia|reflexivity].
  - rewrite !fkCBFxycte12_written. cbn [coo_matrix coo_data]. unfold entries12.
    apply (written_data_ext _ _ 4 (fun d => d = 3%nat));
      [apply length_quad12..| |exact Hs].
    intros [[[i j] k] l] d ->. reflexivity.
  - rewrite !fkCBFxcte11_written. cbn [coo_matrix coo_data]. unfold entries11.
    apply (written_data_ext _ _ 3 (fun d => d <> 2%nat));
      [apply length_triple11..| |exact Hs].
    intros [[[i j] k] l] d Hd.
    destruct d as [|[|[|d]]]; [reflexivity..|lia|reflexivity].
  - rewrite !fkCBFycte22_written. cbn [coo_matrix coo_data]. unfold entries22.
    apply (written_data_ext _ _ 3 (fun d => d <> 2%nat));
      [apply length_triple22..| |exact Hs].
    intros [[[i j] k] l] d Hd.
    destruct d as [|[|[|d]]]; [reflexivity..|lia|reflexivity].
Qed.

(** X10: the returned indices fit the declared shape.  When the offsets
    are not negative and both blocks end inside the matrix
    ([row0 + 3*m*n <= size], [col0 + 3*m*n <= size], each with the orders
    of its panel), every row and column index that a procedure returns,
    the zeros of the unwritten slots included, lies in [0, size), and the
    shape is (size, size). *)
Theorem indices_inside_matrix (kt kr : D) (p1 p2 : Panel.t D)
    (xcte1 ycte2 : D) (size row0 col0 : Z) :
  let m1 := Panel.m p1 in let n1 := Panel.n p1 in
  let m2 := Panel.m p2 in let n2 := Panel.n p2 in
  let K11 := fkCBFxcte11 kt kr p1 xcte1 size row0 col0 in
  let K22 := fkCBFycte22 kt kr p1 p2 ycte2 size row0 col0 in
  let K12 := fkCBFxycte12 kt kr p1 p2 xcte1 ycte2 size row0 col0 in
  0 <= row0 -> 0 <= col0 ->
  (0 <= m1 -> 0 <= n1 ->
   row0 + 3 * m1 * n1 <= size -> col0 + 3 * m1 * n1 <= size ->
   coo_shape K11 = (size, size)
   /\ forall (s : nat) (r c : Z),
        coo_row K11 !! s = Some r -> coo_col K11 !! s = Some c ->
        0 <= r < size /\ 0 <= c < size)
  /\ (0 <= m2 -> 0 <= n2 ->
   row0 + 3 * m2 * n2 <= size -> col0 + 3 * m2 * n2 <= size ->
   coo_shape K22 = (size, size)
   /\ forall (s : nat) (r c : Z),
        coo_row K22 !! s = Some r -> coo_col K22 !! s = Some c ->
        0 <= r < size /\ 0 <= c < size)
  /\ (0 <= m1 -> 0 <= n1 -> 0 <= m2 -> 0 <= n2 ->
   row0 + 3 * m1 * n1 <= size -> col0 + 3 * m2 * n2 <= size ->
   coo_shape K12 = (size, size)
   /\ forall (s : nat) (r c : Z),
        coo_row K12 !! s = Some r -> coo_col K12 !! s = Some c ->
        0 <= r < size /\ 0 <= c < size).
Proof.
  cbv zeta. intros Hrow0 Hcol0.
  assert (forall m n i j, 0 <= i < m -> 0 <= j < n ->
            0 <= j * m + i /\ j * m + i + 1 <= m * n) as Hpack.
  { intros m n i j Hi Hj. split; [nia|].
    assert (j * m <= (n - 1) * m) by nia. nia. }
  repeat apply conj.
  - intros Hm Hn Hr Hc. split; [rewrite fkCBFxcte11_written; reflexivity|].
    intros s r c Hsr Hsc.
    destruct (Nat.lt_ge_cases s (length (entries11 kt kr p1 xcte1 row0 col0)))
      as [Hlt|Hge].
    + destruct (xcte11_slot_inv kt kr p1 xcte1 size row0 col0 s Hlt)
        as ([[[i j] k] l] & d & row & col & x & Hin & Hd & Hr' & Hc' & _).
      rewrite Hr' in Hsr. rewrite Hc' in Hsc.
      injection Hsr as <-. injection Hsc as <-.
      apply elem_of_combos11 in Hin as (Hi & Hj & Hk & Hl & _).
      pose proof (Hpack _ _ _ _ Hi Hj). pose proof (Hpack _ _ _ _ Hk Hl).
      unfold triple11, base, num in Hd.
      destruct d as [|[|[|d]]]; cbn in Hd; [| | |discriminate];
        injection Hd as <- <- _; lia.
    + assert (s < Z.to_nat (fdim11 p1))%nat as Hs.
      { apply lookup_lt_Some in Hsr. rewrite fkCBFxcte11_written in Hsr.
        cbn [coo_matrix coo_row] in Hsr.
        rewrite (proj1 (written_lengths _ _
                   (entries11_fit kt kr p1 xcte1 row0 col0))) in Hsr.
        exact Hsr. }
      destruct (xcte11_pad kt kr p1 xcte1 size row0 col0 s (conj Hge Hs))
        as (Hr' & Hc' & _).
      rewrite Hr' in Hsr. rewrite Hc' in Hsc.
      injection Hsr as <-. injection Hsc as <-.
      unfold fdim11 in Hs.
      assert (0 < Panel.m p1 * Panel.n p1) by nia. lia.
  - intros Hm Hn Hr Hc. split; [rewrite fkCBFycte22_written; reflexivity|].
    intros s r c Hsr Hsc.
    destruct (Nat.lt_ge_cases s (length (entries22 kt kr p2 ycte2 row0 col0)))
      as [Hlt|Hge].
    + destruct (ycte22_slot_inv kt kr p1 p2 ycte2 size row0 col0 s Hlt)
        as ([[[i j] k] l] & d & row & col & x & Hin & Hd & Hr' & Hc' & _).
      rewrite Hr' in Hsr. rewrite Hc' in Hsc.
      injection Hsr as <-. injection Hsc as <-.
      apply elem_of_combos22 in Hin as (Hi & Hj & Hk & Hl & _).
      pose proof (Hpack _ _ _ _ Hi Hj). pose proof (Hpack _ _ _ _ Hk Hl).
      unfold triple22, base, num in Hd.
      destruct d as [|[|[|d]]]; cbn in Hd; [| | |discriminate];
        injection Hd as <- <- _; lia.
    + assert (s < Z.to_nat (fdim11 p2))%nat as Hs.
      { apply lookup_lt_Some in Hsr. rewrite fkCBFycte22_written in Hsr.
        cbn [coo_matrix coo_row] in Hsr.
        rewrite (proj1 (written_lengths _ _
                   (entries22_fit kt kr p2 ycte2 row0 col0))) in Hsr.
        exact Hsr. }
      destruct (ycte22_pad kt kr p1 p2 ycte2 size row0 col0 s (conj Hge Hs))
        as (Hr' & Hc' & _).
      rewrite Hr' in Hsr. rewrite Hc' in Hsc.
      injection Hsr as <-. injection Hsc as <-.
      unfold fdim11 in Hs.
      assert (0 < Panel.m p2 * Panel.n p2) by nia. lia.
  - intros Hm1 Hn1 Hm2 Hn2 Hr Hc.
    split; [rewrite fkCBFxycte12_written; reflexivity|].
    intros s r c Hsr Hsc.
    destruct (Nat.lt_ge_cases s
                (length (entries12 kt kr p1 p2 xcte1 ycte2 row0 col0)))
      as [Hlt|Hge].
    + destruct (xycte12_slot_inv kt kr p1 p2 xcte1 ycte2 size row0 col0 s Hlt)
        as ([[[i j] k] l] & d & row & col & x & Hin & Hd & Hr' & Hc' & _).
      rewrite Hr' in Hsr. rewrite Hc' in Hsc.
      injection Hsr as <-. injection Hsc as <-.
      apply elem_of_combos12 in Hin as (Hi & Hj & Hk & Hl).
      pose proof (Hpack _ _ _ _ Hi Hj). pose proof (Hpack _ _ _ _ Hk Hl).
      unfold quad12, base, num in Hd.
      destruct d as [|[|[|[|d]]]]; cbn in Hd; [| | | |discriminate];
        injection Hd as <- <- _; lia.
    + assert (s < Z.to_nat (fdim12 p1 p2))%nat as Hs.
      { apply lookup_lt_Some in Hsr. rewrite fkCBFxycte12_written in Hsr.
        cbn [coo_matrix coo_row] in Hsr.
        rewrite (proj1 (written_lengths _ _
                   (entries12_fit kt kr p1 p2 xcte1 ycte2 row0 col0))) in Hsr.
        exact Hsr. }
      rewrite fkCBFxycte12_written in Hsr, Hsc.
      destruct (written_lookup_pad _ _ s (conj Hge Hs)) as (Hr' & Hc' & _).
      cbn [coo_matrix coo_row coo_col] in Hsr, Hsc.
      rewrite Hr' in Hsr. rewrite Hc' in Hsc.
      injection Hsr as <-. injection Hsc as <-.
      unfold fdim12 in Hs.
      assert (0 < Panel.m p1 * Panel.n p1) by nia.
      assert (0 < Panel.m p2 * Panel.n p2) by nia. lia.
Qed.

(** X11: where [fkCBFxycte12] puts a combination.  Nothing is skipped, so
    the loop order j1, k2, i1, l2 gives the combination (i1, j1, k2, l2)
    the number [q = ((j1*m2 + k2)*m1 + i1)*n2 + l2], and its four entries
    sit in the slots [4*q .. 4*q + 3] with rows [row], [row+1], [row+2],
    [row+2] and columns [col], [col+2], [col+1], [col+2], where
    [row = row0 + 3*(j1*m1 + i1)] and [col = col0 + 3*(l2*m2 + k2)]. *)
Theorem fkCBFxycte12_slot_of_combination (kt kr : D) (p1 p2 : Panel.t D)
    (xcte1 ycte2 : D) (size row0 col0 : Z) (i1 j1 k2 l2 : Z) :
  let m1 := Panel.m p1 in let n1 := Panel.n p1 in
  let m2 := Panel.m p2 in let n2 := Panel.n p2 in
  let K12 := fkCBFxycte12 kt kr p1 p2 xcte1 ycte2 size row0 col0 in
  let q := Z.to_nat (((j1 * m2 + k2) * m1 + i1) * n2 + l2) in
  let row := row0 + 3 * (j1 * m1 + i1) in
  let col := col0 + 3 * (l2 * m2 + k2) in
  0 <= i1 < m1 -> 0 <= j1 < n1 -> 0 <= k2 < m2 -> 0 <= l2 < n2 ->
  combos12 m1 n1 m2 n2 !! q = Some (i1, j1, k2, l2)
  /\ (coo_row K12 !! (4 * q + 0)%nat = Some (row + 0)
      /\ coo_col K12 !! (4 * q + 0)%nat = Some (col + 0))
  /\ (coo_row K12 !! (4 * q + 1)%nat = Some (row + 1)
      /\ coo_col K12 !! (4 * q + 1)%nat = Some (col + 2))
  /\ (coo_row K12 !! (4 * q + 2)%nat = Some (row + 2)
      /\ coo_col K12 !! (4 * q + 2)%nat = Some (col + 1))
  /\ (coo_row K12 !! (4 * q + 3)%nat = Some (row + 2)
      /\ coo_col K12 !! (4 * q + 3)%nat = Some (col + 2)).
Proof.
  cbv zeta. intros Hi Hj Hk Hl.
  pose proof (combos12_lookup _ _ _ _ _ _ _ _ Hi Hj Hk Hl) as Hq.
  split; [exact Hq|].
  pose proof (fun d row col x =>
    xycte12_slot kt kr p1 p2 xcte1 ycte2 size row0 col0 _ d _ row col x Hq)
    as Hslot.
  repeat apply conj.
  - exact (proj1 (Hslot 0%nat _ _ _ eq_refl)).
  - exact (proj1 (proj2 (Hslot 0%nat _ _ _ eq_refl))).
  - exact (proj1 (Hslot 1%nat _ _ _ eq_refl)).
  - exact (proj1 (proj2 (Hslot 1%nat _ _ _ eq_refl))).
  - exact (proj1 (Hslot 2%nat _ _ _ eq_refl)).
  - exact (proj1 (proj2 (Hslot 2%nat _ _ _ eq_refl))).
  - exact (proj1 (Hslot 3%nat _ _ _ eq_refl)).
  - exact (proj1 (proj2 (Hslot 3%nat _ _ _ eq_refl))).
Qed.

(** X12: the entries of [fkCBFycte22].  For the q-th emitted combination
    (i2, j2, k2, l2) the three slots of its group sit on the u-u, v-v and
    w-w positions of the block pair and hold, added to the zero of the
    fresh array, [0.5*a2*F_u*g_u(j2)*g_u(l2)*kt],
    [0.5*a2*F_v*g_v(j2)*g_v(l2)*kt] and
    [0.5*a2*kt*(F_w*g_w(j2)*g_w(l2)
                + 4*F_w*geta_w(j2)*geta_w(l2)*kr/((b2*b2)*kt))],
    where [F] is the integral of the x basis terms i2, k2 and [g], [geta]
    are the y basis and its derivative at the normalised [ycte2]. *)
Theorem fkCBFycte22_entries (kt kr : D) (p1 p2 : Panel.t D) (ycte2 : D)
    (size row0 col0 : Z) (q : nat) (i2 j2 k2 l2 : Z) :
  combos22 (Panel.m p2) (Panel.n p2) row0 col0 !! q = Some (i2, j2, k2, l2) ->
  let K := fkCBFycte22 kt kr p1 p2 ycte2 size row0 col0 in
  let a2 := Panel.a p2 in
  let b2 := Panel.b p2 in
  let m2 := Panel.m p2 in
  let etacte2 := (c2 * ycte2 / b2 - c1)%D in
  let row := row0 + 3 * (j2 * m2 + i2) in
  let col := col0 + 3 * (l2 * m2 + k2) in
  let F_u := integral_ff i2 k2
               (Panel.u1tx p2) (Panel.u1rx p2) (Panel.u2tx p2) (Panel.u2rx p2)
               (Panel.u1tx p2) (Panel.u1rx p2) (Panel.u2tx p2) (Panel.u2rx p2) in
  let F_v := integral_ff i2 k2
               (Panel.v1tx p2) (Panel.v1rx p2) (Panel.v2tx p2) (Panel.v2rx p2)
               (Panel.v1tx p2) (Panel.v1rx p2) (Panel.v2tx p2) (Panel.v2rx p2) in
  let F_w := integral_ff i2 k2
               (Panel.w1tx p2) (Panel.w1rx p2) (Panel.w2tx p2) (Panel.w2rx p2)
               (Panel.w1tx p2) (Panel.w1rx p2) (Panel.w2tx p2) (Panel.w2rx p2) in
  let g_u := fun j => calc_f j etacte2 (Panel.u1ty p2) (Panel.u1ry p2)
                        (Panel.u2ty p2) (Panel.u2ry p2) in
  let g_v := fun j => calc_f j etacte2 (Panel.v1ty p2) (Panel.v1ry p2)
                        (Panel.v2ty p2) (Panel.v2ry p2) in
  let g_w := fun j => calc_f j etacte2 (Panel.w1ty p2) (Panel.w1ry p2)
                        (Panel.w2ty p2) (Panel.w2ry p2) in
  let geta_w := fun j => calc_fxi j etacte2 (Panel.w1ty p2) (Panel.w1ry p2)
                           (Panel.w2ty p2) (Panel.w2ry p2) in
  (coo_row K !! (3 * q + 0)%nat = Some (row + 0)
   /\ coo_col K !! (3 * q + 0)%nat = Some (col + 0)
   /\ coo_data K !! (3 * q + 0)%nat
      = Some (c0 + c0_5 * a2 * F_u * g_u j2 * g_u l2 * kt)%D)
  /\ (coo_row K !! (3 * q + 1)%nat = Some (row + 1)
   /\ coo_col K !! (3 * q + 1)%nat = Some (col + 1)
   /\ coo_data K !! (3 * q + 1)%nat
      = Some (c0 + c0_5 * a2 * F_v * g_v j2 * g_v l2 * kt)%D)
  /\ (coo_row K !! (3 * q + 2)%nat = Some (row + 2)
   /\ coo_col K !! (3 * q + 2)%nat = Some (col + 2)
   /\ coo_data K !! (3 * q + 2)%nat
      = Some (c0 + c0_5 * a2 * kt
                   * (F_w * g_w j2 * g_w l2
                      + c4 * F_w * geta_w j2 * geta_w l2 * kr
                          / ((b2 * b2) * kt)))%D).
Proof.
  intros Hq. cbv zeta.
  pose proof (fun d row col x =>
    ycte22_slot kt kr p1 p2 ycte2 size row0 col0 q d _ row col x Hq) as Hslot.
  split; [|split].
  - exact (Hslot 0%nat _ _ _ eq_refl).
  - exact (Hslot 1%nat _ _ _ eq_refl).
  - exact (Hslot 2%nat _ _ _ eq_refl).
Qed.

(** X13: the translational entries of [fkCBFxcte11].  For the q-th emitted
    combination (i1, j1, k1, l1) the first two slots of its group sit on
    the u-u and v-v positions and hold, added to the zero of the fresh
    array, [0.5*b1*f_u(i1)*f_u(k1)*G_u*kt] and
    [0.5*b1*f_v(i1)*f_v(k1)*G_v*kt], where [f] is the x basis at the
    normalised [xcte1] and [G] the integral of the y basis terms j1, l1:
    neither [kr] nor [a1] (other than through the normalised coordinate)
    enters them. *)
Theorem fkCBFxcte11_uv_entries (kt kr : D) (p1 : Panel.t D) (xcte1 : D)
    (size row0 col0 : Z) (q : nat) (i1 j1 k1 l1 : Z) :
  combos11 (Panel.m p1) (Panel.n p1) row0 col0 !! q = Some (i1, j1, k1, l1) ->
  let K := fkCBFxcte11 kt kr p1 xcte1 size row0 col0 in
  let a1 := Panel.a p1 in
  let b1 := Panel.b p1 in
  let m1 := Panel.m p1 in
  let xicte1 := (c2 * xcte1 / a1 - c1)%D in
  let row := row0 + 3 * (j1 * m1 + i1) in
  let col := col0 + 3 * (l1 * m1 + k1) in
  let f_u := fun i => calc_f i xicte1 (Panel.u1tx p1) (Panel.u1rx p1)
                        (Panel.u2tx p1) (Panel.u2rx p1) in
  let f_v := fun i => calc_f i xicte1 (Panel.v1tx p1) (Panel.v1rx p1)
                        (Panel.v2tx p1) (Panel.v2rx p1) in
  let G_u := integral_ff j1 l1
               (Panel.u1ty p1) (Panel.u1ry p1) (Panel.u2ty p1) (Panel.u2ry p1)
               (Panel.u1ty p1) (Panel.u1ry p1) (Panel.u2ty p1) (Panel.u2ry p1) in
  let G_v := integral_ff j1 l1
               (Panel.v1ty p1) (Panel.v1ry p1) (Panel.v2ty p1) (Panel.v2ry p1)
               (Panel.v1ty p1) (Panel.v1ry p1) (Panel.v2ty p1) (Panel.v2ry p1) in
  (coo_row K !! (3 * q + 0)%nat = Some (row + 0)
   /\ coo_col K !! (3 * q + 0)%nat = Some (col + 0)
   /\ coo_data K !! (3 * q + 0)%nat
      = Some (c0 + c0_5 * b1 * f_u i1 * f_u k1 * G_u * kt)%D)
  /\ (coo_row K !! (3 * q + 1)%nat = Some (row + 1)
   /\ coo_col K !! (3 * q + 1)%nat = Some (col + 1)
   /\ coo_data K !! (3 * q + 1)%nat
      = Some (c0 + c0_5 * b1 * f_v i1 * f_v k1 * G_v * kt)%D).
Proof.
  intros Hq. cbv zeta.
  pose proof (fun d row col x =>
    xcte11_slot kt kr p1 xcte1 size row0 col0 q d _ row col x Hq) as Hslot.
  split.
  - exact (Hslot 0%nat _ _ _ eq_refl).
  - exact (Hslot 1%nat _ _ _ eq_refl).
Qed.

(** X16: [fkCBFxcte11] and [fkCBFycte22] fill the same positions.  On
    panels of equal orders and with the same offsets the two procedures
    emit the same combinations, each once, in a different order (loops
    j, l, i, k against i, k, j, l): the (row, column) pairs that one
    returns are a permutation of the pairs that the other returns, the
    zero pairs of the unwritten slots included. *)
Theorem single_edge_patterns_agree (kt kr kt' kr' : D) (p1 p1' p2 : Panel.t D)
    (xcte1 ycte2 : D) (size row0 col0 : Z) :
  Panel.m p1 = Panel.m p2 -> Panel.n p1 = Panel.n p2 ->
  let K11 := fkCBFxcte11 kt kr p1 xcte1 size row0 col0 in
  let K22 := fkCBFycte22 kt' kr' p1' p2 ycte2 size row0 col0 in
  combos22 (Panel.m p2) (Panel.n p2) row0 col0
    ≡ₚ combos11 (Panel.m p1) (Panel.n p1) row0 col0
  /\ zip (coo_row K22) (coo_col K22) ≡ₚ zip (coo_row K11) (coo_col K11).
Proof.
  intros Hm Hn. cbv zeta.
  pose proof (combos22_permutation (Panel.m p2) (Panel.n p2) row0 col0) as Hp.
  rewrite Hm, Hn. split; [exact Hp|].
  rewrite fkCBFxcte11_written, fkCBFycte22_written.
  cbn [coo_matrix coo_row coo_col]. rewrite !written_pairs.
  rewrite length_entries11, length_entries22.
  rewrite positions_entries11, positions_entries22.
  unfold fdim11. rewrite Hm, Hn, (Permutation_length Hp).
  apply Permutation_app; [|reflexivity].
  apply bind_Permutation, Hp.
Qed.

End Extras.

(** X14: the normalised coordinate of the first boundary in binary64.
    [2*xcte/a - 1] at [xcte = 0] is exactly -1 for every extent [a] that
    is neither zero nor a NaN (an infinite one included); with [a = 0]
    (of either sign) it is 0/0 - 1, a NaN, which the procedures then feed
    to the basis functions. *)
Theorem normalised_first_boundary (a : float) :
  (is_zero a = false -> PrimFloat.is_nan a = false ->
   normalised 0%float a = (-1)%float)
  /\ (is_zero a = true ->
   PrimFloat.is_nan (normalised 0%float a) = true).
Proof.
  unfold normalised, PrimFloat.is_nan.
  cbn [is_zero dmul ddiv dsub c0 c1 c2 binary64].
  rewrite !FloatAxioms.eqb_spec.
  split.
  - intros Hz Hn. apply Prim2SF_inj.
    rewrite FloatAxioms.sub_spec, FloatAxioms.div_spec, FloatAxioms.mul_spec.
    change (Prim2SF 0) with (S754_zero false) in *.
    destruct (Prim2SF a) as [s|s| |s m e].
    + destruct s; discriminate.
    + destruct s; reflexivity.
    + discriminate.
    + destruct s; reflexivity.
  - intros Hz.
    rewrite FloatAxioms.sub_spec, FloatAxioms.div_spec, FloatAxioms.mul_spec.
    change (Prim2SF 0) with (S754_zero false) in *.
    destruct (Prim2SF a) as [s|s| |s m e].
    + destruct s; reflexivity.
    + destruct s; discriminate.
    + discriminate.
    + destruct s; discriminate.
Qed.

(** X15: the normalised coordinate in exact arithmetic.  On a panel of
    nonzero extent [a] the position 0 is mapped to -1, the position [a]
    to 1 and the middle [a/2] to 0, and the map is increasing when [a] is
    positive. *)
Theorem normalised_boundaries_exact (a x y : Q) :
  ~ (a == 0)%Q ->
  (normalised 0%Q a == - (1))%Q
  /\ (normalised a a == 1)%Q
  /\ (normalised (a / 2)%Q a == 0)%Q
  /\ ((0 < a)%Q -> (x <= y)%Q -> (normalised x a <= normalised y a)%Q).
Proof.
  intros Ha. unfold normalised. cbn [dmul ddiv dsub c1 c2 exactQ].
  repeat apply conj.
  - field. exact Ha.
  - field. exact Ha.
  - field. exact Ha.
  - intros Hpos Hxy. unfold Qminus. apply Qplus_le_l.
    unfold Qdiv. apply Qmult_le_compat_r.
    + apply Qmult_le_l; [reflexivity|exact Hxy].
    + apply Qlt_le_weak, Qinv_lt_0_compat, Hpos.
Qed.


(** ** The further properties on concrete calls

    The sample basis and panels of the runs above. *)

Lemma pattern_fixed_by_orders_run :
  let p := sample_panel 1%float 1%float 2 1 in
  let p' := sample_panel 5%float 3%float 2 1 in
  coo_row (fkCBFxcte11 (BD := monomials) 1%float 1%float p 1%float 6 0 0)
    = coo_row (fkCBFxcte11 (BD := monomials) 3%float 0%float p' 5%float 9 0 0)
  /\ coo_col (fkCBFxcte11 (BD := monomials) 1%float 1%float p 1%float 6 0 0)
    = coo_col (fkCBFxcte11 (BD := monomials) 3%float 0%float p' 5%float 9 0 0).
Proof.
  exact (proj1 (pattern_fixed_by_orders (BD := monomials) (BD' := monomials)
                  1%float 1%float 3%float 0%float
                  (sample_panel 1%float 1%float 2 1)
                  (sample_panel 1%float 1%float 2 1)
                  (sample_panel 5%float 3%float 2 1)
                  (sample_panel 5%float 3%float 2 1)
                  1%float 1%float 5%float 5%float 6 9 0 0
                  eq_refl eq_refl eq_refl eq_refl)).
Defined.

Lemma coupled_fields_run :
  (8 - 3) mod 3 = Z.of_nat (8 mod 3) /\ (8 - 3) mod 3 = Z.of_nat (8 mod 3).
Proof.
  exact (proj1 (coupled_fields (BD := monomials) 1%float 1%float
                  (sample_panel 1%float 1%float 2 1)
                  (sample_panel 1%float 1%float 2 1)
                  1%float 1%float 9 3 3)
           8%nat 8 8 ltac:(vm_compute; lia) eq_refl eq_refl).
Defined.

Lemma no_position_written_twice_run :
  let p := sample_panel 1%float 1%float 2 1 in
  let K := fkCBFxcte11 (BD := monomials) 1%float 1%float p 1%float 9 3 3 in
  (coo_row K !! 8%nat = Some 8 /\ coo_col K !! 8%nat = Some 8)
  /\ 8%nat = 8%nat.
Proof.
  cbv zeta. split; [split; reflexivity|].
  exact (proj1 (no_position_written_twice (BD := monomials) 1%float 1%float
                  (sample_panel 1%float 1%float 2 1)
                  (sample_panel 1%float 1%float 2 1)
                  1%float 1%float 9 3 3)
           8%nat 8%nat 8 8 ltac:(vm_compute; lia) ltac:(vm_compute; lia)
           eq_refl eq_refl eq_refl eq_refl).
Defined.

Lemma diagonal_of_diagonal_block_run :
  (1, 0, 1, 0) ∈ combos11 2 1 0 0.
Proof.
  exact (proj1 (proj2 (diagonal_of_diagonal_block (BD := monomials)
                  1%float 1%float
                  (sample_panel 1%float 1%float 2 1)
                  (sample_panel 1%float 1%float 2 1)
                  1%float 1%float 6 0))
           1 0 ltac:(vm_compute; split; [discriminate|reflexivity])
               ltac:(vm_compute; split; [discriminate|reflexivity])).
Defined.


Lemma nothing_skipped_run :
  let p := sample_panel 1%float 1%float 2 1 in
  let K := fkCBFxcte11 (BD := monomials) 1%float 1%float p 1%float 9 0 3 in
  Z.of_nat (length (combos11 2 1 0 3)) = 2 * 1 * 2 * 1
  /\ (3 * length (combos11 2 1 0 3))%nat = length (coo_row K).
Proof.
  exact (proj1 (nothing_skipped (BD := monomials) 1%float 1%float
                  (sample_panel 1%float 1%float 2 1)
                  (sample_panel 1%float 1%float 2 1)
                  1%float 1%float 9 0 3)
           ltac:(vm_compute; discriminate) ltac:(vm_compute; discriminate)
           ltac:(vm_compute; discriminate)).
Defined.

(** In binary64 the product of two nonzero extents can be zero: with
    a1 = b2 = 2^-600 the rotational entry divides by zero. *)
Lemma fkCBFxycte12_divisions_run :
  (let p1 := sample_panel 1%float 1%float 2 1 in
   let p2 := sample_panel 1%float 1%float 1 2 in
   fkCBFxycte12_guarded (BD := monomials) 0%float 1%float p1 p2
     1%float 1%float 12 0 6
   = Some (fkCBFxycte12 (BD := monomials) 0%float 1%float p1 p2
             1%float 1%float 12 0 6))
  /\ (let p1 := sample_panel 0x1p-600%float 1%float 2 1 in
      let p2 := sample_panel 1%float 0x1p-600%float 1 2 in
      fkCBFxycte12_guarded (BD := monomials) 1%float 1%float p1 p2
        1%float 1%float 12 0 6
      = None)
  /\ (let p1 := sample_panel 3%Q 1%Q 2 1 in
      let p2 := sample_panel 1%Q 5%Q 1 2 in
      fkCBFxycte12_guarded (BD := monomials) 0%Q 1%Q p1 p2 1%Q 1%Q 12 0 6
      = Some (fkCBFxycte12 (BD := monomials) 0%Q 1%Q p1 p2 1%Q 1%Q 12 0 6)).
Proof.
  cbv zeta. repeat apply conj.
  - exact (proj1 (fkCBFxycte12_divisions (BD := monomials) 0%float 1%float
                    (sample_panel 1%float 1%float 2 1)
                    (sample_panel 1%float 1%float 1 2)
                    1%float 1%float 12 0 6)
             eq_refl eq_refl (or_introl eq_refl)).
  - refine (proj1 (proj2 (fkCBFxycte12_divisions (BD := monomials)
                    1%float 1%float
                    (sample_panel 0x1p-600%float 1%float 2 1)
                    (sample_panel 1%float 0x1p-600%float 1 2)
                    1%float 1%float 12 0 6))
              (or_intror (or_intror (conj eq_refl _)))).
    vm_compute. discriminate.
  - exact (proj2 (proj2 (fkCBFxycte12_divisions (BD := monomials) 0%Q 1%Q
                    (sample_panel 3%Q 1%Q 2 1) (sample_panel 1%Q 5%Q 1 2)
                    1%Q 1%Q 12 0 6))
             exactQ_integral eq_refl eq_refl).
Defined.

Lemma stiffness_separation_run :
  let p1 := sample_panel 1%float 1%float 2 1 in
  let p2 := sample_panel 1%float 1%float 1 2 in
  coo_data (fkCBFxycte12 (BD := monomials) 1%float 1%float p1 p2
              1%float 1%float 12 0 6) !! 6%nat
  = coo_data (fkCBFxycte12 (BD := monomials) 1%float 7%float p1 p2
                1%float 1%float 12 0 6) !! 6%nat.
Proof.
  exact (proj1 (stiffness_separation (BD := monomials)
                  1%float 1%float 1%float 7%float
                  (sample_panel 1%float 1%float 2 1)
                  (sample_panel 1%float 1%float 1 2)
                  1%float 1%float 12 0 6)
           6%nat ltac:(vm_compute; discriminate)).
Defined.

Lemma indices_inside_matrix_run :
  let p := sample_panel 1%float 1%float 2 1 in
  let K := fkCBFxcte11 (BD := monomials) 1%float 1%float p 1%float 9 3 3 in
  coo_shape K = (9, 9) /\ (0 <= 8 < 9 /\ 0 <= 0 < 9).
Proof.
  pose proof (indices_inside_matrix (BD := monomials) 1%float 1%float
                (sample_panel 1%float 1%float 2 1)
                (sample_panel 1%float 1%float 2 1)
                1%float 1%float 9 3 3
                ltac:(vm_compute; discriminate)
                ltac:(vm_compute; discriminate)) as (H & _).
  destruct (H ltac:(vm_compute; discriminate) ltac:(vm_compute; discriminate)
              ltac:(vm_compute; discriminate) ltac:(vm_compute; discriminate))
    as (Hshape & Hin).
  split; [exact Hshape|].
  split.
  - exact (proj1 (Hin 8%nat 8 8 eq_refl eq_refl)).
  - exact (proj1 (Hin 9%nat 0 0 eq_refl eq_refl)).
Defined.

Lemma fkCBFxycte12_slot_of_combination_run :
  let p1 := sample_panel 1%float 1%float 2 1 in
  let p2 := sample_panel 1%float 1%float 1 2 in
  let K := fkCBFxycte12 (BD := monomials) 1%float 1%float p1 p2
             1%float 1%float 12 0 6 in
  combos12 2 1 1 2 !! 3%nat = Some (1, 0, 0, 1)
  /\ (coo_row K !! 12%nat = Some 3 /\ coo_col K !! 12%nat = Some 9)
  /\ (coo_row K !! 13%nat = Some 4 /\ coo_col K !! 13%nat = Some 11)
  /\ (coo_row K !! 14%nat = Some 5 /\ coo_col K !! 14%nat = Some 10)
  /\ (coo_row K !! 15%nat = Some 5 /\ coo_col K !! 15%nat = Some 11).
Proof.
  exact (fkCBFxycte12_slot_of_combination (BD := monomials) 1%float 1%float
           (sample_panel 1%float 1%float 2 1)
           (sample_panel 1%float 1%float 1 2)
           1%float 1%float 12 0 6 1 0 0 1
           ltac:(vm_compute; split; [discriminate|reflexivity])
           ltac:(vm_compute; split; [discriminate|reflexivity])
           ltac:(vm_compute; split; [discriminate|reflexivity])
           ltac:(vm_compute; split; [discriminate|reflexivity])).
Defined.

Lemma fkCBFycte22_entries_run :
  let p := sample_panel 1%float 1%float 2 1 in
  let K := fkCBFycte22 (BD := monomials) 1%float 1%float p p 1%float 6 0 0 in
  (coo_row K !! 3%nat = Some 0 /\ coo_col K !! 3%nat = Some 3
   /\ coo_data K !! 3%nat = Some 0.125%float)
  /\ (coo_row K !! 4%nat = Some 1 /\ coo_col K !! 4%nat = Some 4
   /\ coo_data K !! 4%nat = Some 2%float)
  /\ (coo_row K !! 5%nat = Some 2 /\ coo_col K !! 5%nat = Some 5
   /\ coo_data K !! 5%nat = Some 50.625%float).
Proof.
  pose proof (fkCBFycte22_entries (BD := monomials) 1%float 1%float
                (sample_panel 1%float 1%float 2 1)
                (sample_panel 1%float 1%float 2 1) 1%float 6 0 0
                1 0 0 1 0 eq_refl) as H.
  vm_compute in H |- *. exact H.
Defined.

Lemma fkCBFxcte11_uv_entries_run :
  let p := sample_panel 1%float 1%float 2 1 in
  let K := fkCBFxcte11 (BD := monomials) 3%float 1%float p 1%float 6 0 0 in
  (coo_row K !! 3%nat = Some 0 /\ coo_col K !! 3%nat = Some 3
   /\ coo_data K !! 3%nat = Some 0.5%float)
  /\ (coo_row K !! 4%nat = Some 1 /\ coo_col K !! 4%nat = Some 4
   /\ coo_data K !! 4%nat = Some 8%float).
Proof.
  pose proof (fkCBFxcte11_uv_entries (BD := monomials) 3%float 1%float
                (sample_panel 1%float 1%float 2 1) 1%float 6 0 0
                1 0 0 1 0 eq_refl) as H.
  vm_compute in H |- *. exact H.
Defined.

Lemma normalised_first_boundary_run :
  normalised 0%float 5%float = (-1)%float
  /\ PrimFloat.is_nan (normalised 0%float (-0)%float) = true.
Proof.
  split.
  - exact (proj1 (normalised_first_boundary 5%float) eq_refl eq_refl).
  - exact (proj2 (normalised_first_boundary (-0)%float) eq_refl).
Defined.

Lemma normalised_boundaries_exact_run :
  (normalised 0%Q 3%Q == - (1))%Q /\ (normalised 3%Q 3%Q == 1)%Q.
Proof.
  pose proof (normalised_boundaries_exact 3%Q 0%Q 1%Q
                ltac:(vm_compute; discriminate)) as (H0 & H1 & _).
  split; [exact H0|exact H1].
Defined.

Lemma single_edge_patterns_agree_run :
  let p := sample_panel 1%float 1%float 2 2 in
  let p' := sample_panel 5%float 3%float 2 2 in
  let K11 := fkCBFxcte11 (BD := monomials) 1%float 1%float p 1%float 12 0 0 in
  let K22 :=
    fkCBFycte22 (BD := monomials) 3%float 0%float p p' 5%float 12 0 0 in
  combos22 2 2 0 0 ≡ₚ combos11 2 2 0 0
  /\ zip (coo_row K22) (coo_col K22) ≡ₚ zip (coo_row K11) (coo_col K11).
Proof.
  exact (single_edge_patterns_agree (BD := monomials)
           1%float 1%float 3%float 0%float
           (sample_panel 1%float 1%float 2 2)
           (sample_panel 1%float 1%float 2 2)
           (sample_panel 5%float 3%float 2 2)
           1%float 5%float 12 0 0 eq_refl eq_refl).
Defined.
